(** * Event aggregation service: ingestion, upsert and hourly roll-up

    A shallow embedding of [main.py]: the timestamp normaliser
    [rfc_to_utc_dt], the batch upsert [batch_commit], the ingestion loop
    [process_csv], the roll-up query [hourly_event_count], the HTTP route
    and the command-line query path, followed by the properties of the
    design specification that concern them.

    Python exceptions are values of [exn]; a call either returns ([Ok]) or
    raises ([Raise]).  Calls that touch the database thread a [world]. *)

From Stdlib Require Import ZArith String Ascii List Lia Bool.
From stdpp Require Import base option decidable countable gmap strings list fin_maps.

Local Open Scope string_scope.
Local Open Scope Z_scope.

(** ** Exceptions and results *)

Inductive exn : Type :=
| ValueError        (* str.index, strptime, dateutil's ParserError, pytz localize *)
| AttributeError    (* a method looked up on None *)
| OverflowError     (* date arithmetic leaving years 1..9999 *)
| OperationalError. (* sqlite3 failures *)

Inductive result (A : Type) : Type :=
| Ok (a : A)
| Raise (e : exn).
Arguments Ok {A} a.
Arguments Raise {A} e.

#[global] Instance result_bind : MBind result := fun A B k r =>
  match r with
  | Ok a => k a
  | Raise e => Raise e
  end.

#[global] Instance result_ret : MRet result := fun A a => Ok a.

(** ** Characters and digits *)

Definition code (c : ascii) : Z := Z.of_N (N_of_ascii c).

Definition digit_of (c : ascii) : option Z :=
  let n := code c in
  if (48 <=? n) && (n <=? 57) then Some (n - 48) else None.

(** Python's [\s] on the code points below 256. *)
Definition is_space (c : ascii) : bool :=
  let n := code c in
  ((9 <=? n) && (n <=? 13)) || ((28 <=? n) && (n <=? 32)) || (n =? 133) || (n =? 160).

Definition digit_char (d : Z) : ascii := ascii_of_N (Z.to_N (48 + d mod 10)).

(** [dec w n]: the last [w] decimal digits of [n], most significant first;
    for [0 <= n < 10^w] this is Python's [%0wd]. *)
Fixpoint dec (w : nat) (n : Z) : string :=
  match w with
  | O => EmptyString
  | S w' => dec w' (n / 10) +:+ String (digit_char n) EmptyString
  end.

(** [str.index(c)]: position of the first occurrence, [None] for the
    ValueError raised when there is none. *)
Fixpoint str_index (c : ascii) (s : string) : option nat :=
  match s with
  | EmptyString => None
  | String a r => if Ascii.eqb a c then Some O else S <$> str_index c r
  end.

(** [s * n] *)
Fixpoint str_repeat (s : string) (n : nat) : string :=
  match n with
  | O => EmptyString
  | S n' => s +:+ str_repeat s n'
  end.

(** ["0" * n]; a count that is not positive gives the empty string. *)
Definition zeros (n : Z) : string := str_repeat "0" (Z.to_nat n).

(** ** Dates and times (Python's [datetime]) *)

(** [utcoffset] is the offset east of UTC in microseconds, [None] for a
    naive value. *)
Record datetime : Type := mkdt {
  year : Z; month : Z; day : Z;
  hour : Z; minute : Z; second : Z; microsecond : Z;
  utcoffset : option Z
}.

#[global] Instance datetime_eq_dec : EqDecision datetime.
Proof. solve_decision. Defined.

#[global] Instance datetime_countable : Countable datetime.
Proof.
  apply (inj_countable'
    (fun d => (year d, month d, day d, hour d, minute d, second d, microsecond d, utcoffset d))
    (fun t => let '(y, mo, d, h, mi, s, us, o) := t in mkdt y mo d h mi s us o)).
  by intros [].
Defined.

Definition is_leap (y : Z) : bool :=
  (y mod 4 =? 0) && (negb (y mod 100 =? 0) || (y mod 400 =? 0)).

(** The tables [_DAYS_IN_MONTH] and [_DAYS_BEFORE_MONTH] of Python's
    datetime module; index 0 is a placeholder. *)
Definition DAYS_IN_MONTH : list Z := [-1; 31; 28; 31; 30; 31; 30; 31; 31; 30; 31; 30; 31].
Definition DAYS_BEFORE_MONTH : list Z :=
  [-1; 0; 31; 59; 90; 120; 151; 181; 212; 243; 273; 304; 334].

(** Days in month [m] of a year that is a leap year or not. *)
Definition month_length (leap : bool) (m : Z) : Z :=
  if (m =? 2) && leap then 29 else nth (Z.to_nat m) DAYS_IN_MONTH 0.

(** Days of the year before the first of month [m]. *)
Definition month_offset (leap : bool) (m : Z) : Z :=
  nth (Z.to_nat m) DAYS_BEFORE_MONTH 0 + (if (2 <? m) && leap then 1 else 0).

Definition days_in_month (y m : Z) : Z := month_length (is_leap y) m.

Definition days_before_year (y : Z) : Z :=
  let y := y - 1 in y * 365 + y / 4 - y / 100 + y / 400.

Definition days_before_month (y m : Z) : Z := month_offset (is_leap y) m.

(** Proleptic Gregorian ordinal, 0001-01-01 being day 1. *)
Definition ymd2ord (y m d : Z) : Z :=
  days_before_year y + days_before_month y m + d.

(** Month and day of day number [n], counted from 0, of a year: an
    estimate of the month that is at most one too large, corrected. *)
Definition month_day (leapyear : bool) (n : Z) : Z * Z :=
  let m := Z.shiftr (n + 50) 5 in
  let preceding := month_offset leapyear m in
  if n <? preceding then
    let m := m - 1 in
    let preceding :=
      preceding - (nth (Z.to_nat m) DAYS_IN_MONTH 0
                   + (if (m =? 2) && leapyear then 1 else 0)) in
    (m, n - preceding + 1)
  else (m, n - preceding + 1).

Definition ord2ymd (n : Z) : Z * Z * Z :=
  let n := n - 1 in
  let n400 := n / 146097 in let n := n mod 146097 in
  let n100 := n / 36524 in let n := n mod 36524 in
  let n4 := n / 1461 in let n := n mod 1461 in
  let n1 := n / 365 in let n := n mod 365 in
  let y := n400 * 400 + 1 + n100 * 100 + n4 * 4 + n1 in
  if (n1 =? 4) || (n100 =? 4) then (y - 1, 12, 31)
  else
    let leapyear := (n1 =? 3) && (negb (n4 =? 24) || (n100 =? 3)) in
    let '(m, d) := month_day leapyear n in
    (y, m, d).

Definition us_per_second : Z := 1000000.
Definition us_per_minute : Z := 60 * us_per_second.
Definition us_per_hour : Z := 60 * us_per_minute.
Definition us_per_day : Z := 24 * us_per_hour.

(** Microseconds from 0001-01-01 00:00 on the value's own clock. *)
Definition wall_us (dt : datetime) : Z :=
  ymd2ord (year dt) (month dt) (day dt) * us_per_day
  + hour dt * us_per_hour + minute dt * us_per_minute
  + second dt * us_per_second + microsecond dt.

Definition max_ordinal : Z := 3652059. (* 9999-12-31 *)

(** The value whose clock reads [t] microseconds, with offset [o];
    OverflowError outside the years 1..9999. *)
Definition of_wall_us (t : Z) (o : option Z) : result datetime :=
  let n := t / us_per_day in
  let r := t mod us_per_day in
  if (1 <=? n) && (n <=? max_ordinal) then
    let '(y, m, d) := ord2ymd n in
    Ok (mkdt y m d (r / us_per_hour) (r mod us_per_hour / us_per_minute)
             (r mod us_per_minute / us_per_second) (r mod us_per_second) o)
  else Raise OverflowError.

(** ** [datetime.strptime(timestamp, '%Y-%m-%d %H:%M:%S.%f%z')]

    CPython (3.7 and later) turns the format into the regular expression
    [(\d\d\d\d)-(1[0-2]|0[1-9]|[1-9])-(3[0-1]|[1-2]\d|0[1-9]|[1-9]| [1-9])\s+]
    [(2[0-3]|[0-1]\d|\d):([0-5]\d|\d):(6[0-1]|[0-5]\d|\d)\.([0-9]{1,6})]
    [([+-]\d\d:?[0-5]\d(:?[0-5]\d(\.\d{1,6})?)?|Z)], matches it at the start
    of the string, and raises ValueError when the match fails, when it does
    not reach the end of the string, or when the fields are no valid date,
    time or offset.  Each numeric group is followed by a character that is
    no digit, so the first alternative that matches is the only one that
    can lead to a match and no backtracking is modelled.  [None] stands for
    the ValueError. *)

(** A group [ab|a] of two-digit alternatives [p2] tried before the
    one-digit alternative [p1]. *)
Definition alt2 (p2 : Z -> Z -> bool) (p1 : Z -> bool) (s : string) : option (Z * string) :=
  match s with
  | String c1 r1 =>
      a ← digit_of c1;
      let one := if p1 a then Some (a, r1) else None in
      match r1 with
      | String c2 r2 =>
          match digit_of c2 with
          | Some b => if p2 a b then Some (10 * a + b, r2) else one
          | None => one
          end
      | EmptyString => one
      end
  | EmptyString => None
  end.

Definition lit (c : ascii) (s : string) : option string :=
  match s with
  | String a r => if Ascii.eqb a c then Some r else None
  | EmptyString => None
  end.

Definition digit1 (s : string) : option (Z * string) :=
  match s with
  | String c r => d ← digit_of c; Some (d, r)
  | EmptyString => None
  end.

(** [\d\d\d\d] *)
Definition re_Y (s : string) : option (Z * string) :=
  '(a, s) ← digit1 s; '(b, s) ← digit1 s; '(c, s) ← digit1 s; '(d, s) ← digit1 s;
  Some (1000 * a + 100 * b + 10 * c + d, s).

(** [1[0-2]|0[1-9]|[1-9]] *)
Definition re_m : string -> option (Z * string) :=
  alt2 (fun a b => ((a =? 1) && (b <=? 2)) || ((a =? 0) && (1 <=? b))) (fun a => 1 <=? a).

(** [3[0-1]|[1-2]\d|0[1-9]|[1-9]| [1-9]] *)
Definition re_d (s : string) : option (Z * string) :=
  match s with
  | String " "%char r => '(a, r) ← digit1 r; if 1 <=? a then Some (a, r) else None
  | _ =>
      alt2 (fun a b => ((a =? 3) && (b <=? 1)) || ((1 <=? a) && (a <=? 2)) || ((a =? 0) && (1 <=? b)))
           (fun a => 1 <=? a) s
  end.

(** [2[0-3]|[0-1]\d|\d] *)
Definition re_H : string -> option (Z * string) :=
  alt2 (fun a b => ((a =? 2) && (b <=? 3)) || (a <=? 1)) (fun _ => true).

(** [[0-5]\d|\d] *)
Definition re_M : string -> option (Z * string) :=
  alt2 (fun a _ => a <=? 5) (fun _ => true).

(** [6[0-1]|[0-5]\d|\d] *)
Definition re_S : string -> option (Z * string) :=
  alt2 (fun a b => ((a =? 6) && (b <=? 1)) || (a <=? 5)) (fun _ => true).

(** Up to [n] leading digits, greedily: their count, their value and the rest. *)
Fixpoint digits_upto (n : nat) (s : string) : nat * Z * string :=
  match n with
  | O => (O, 0, s)
  | S n' =>
      match s with
      | String c r =>
          match digit_of c with
          | Some d =>
              let '(k, v, r') := digits_upto n' r in
              (S k, d * 10 ^ Z.of_nat k + v, r')
          | None => (O, 0, s)
          end
      | EmptyString => (O, 0, s)
      end
  end.

(** [[0-9]{1,6}], read as microseconds: the digits are right-padded with
    zeros to six places before conversion. *)
Definition re_f (s : string) : option (Z * string) :=
  let '(k, v, r) := digits_upto 6 s in
  if (k =? 0)%nat then None else Some (v * 10 ^ Z.of_nat (6 - k), r).

(** [\s+] *)
Fixpoint skip_spaces (s : string) : string :=
  match s with
  | String c r => if is_space c then skip_spaces r else s
  | EmptyString => s
  end.

Definition re_spaces (s : string) : option string :=
  match s with
  | String c r => if is_space c then Some (skip_spaces r) else None
  | EmptyString => None
  end.

(** [:?], greedy *)
Definition opt_colon (s : string) : bool * string :=
  match s with
  | String ":"%char r => (true, r)
  | _ => (false, s)
  end.

(** [[0-5]\d] *)
Definition re_sixty (s : string) : option (Z * string) :=
  '(a, s) ← digit1 s; '(b, s) ← digit1 s;
  if a <=? 5 then Some (10 * a + b, s) else None.

(** [(\.\d{1,6})?], as microseconds *)
Definition re_opt_fraction (s : string) : Z * string :=
  match s with
  | String "."%char r =>
      match re_f r with
      | Some (us, r') => (us, r')
      | None => (0, s)
      end
  | _ => (0, s)
  end.

(** The group [%z] and its conversion: the offset east of UTC in
    microseconds and the unmatched rest.  With [c1] and [c2] telling
    whether a colon preceded the minutes and the seconds, CPython rejects
    [hh:mmss] ("Inconsistent use of :") and fails to convert [hhmm:ss]. *)
Definition re_z (s : string) : option (Z * string) :=
  match s with
  | String "Z"%char r => Some (0, r)
  | String sg r =>
      sgn ← (if Ascii.eqb sg "+" then Some 1 else if Ascii.eqb sg "-" then Some (-1) else None);
      '(h1, r) ← digit1 r; '(h2, r) ← digit1 r;
      let hh := 10 * h1 + h2 in
      let '(c1, r) := opt_colon r in
      '(mm, r) ← re_sixty r;
      let '(c2, r2) := opt_colon r in
      match re_sixty r2 with
      | Some (ss, r') =>
          let '(us, r'') := re_opt_fraction r' in
          if Bool.eqb c1 c2
          then Some (sgn * ((hh * 3600 + mm * 60 + ss) * us_per_second + us), r'')
          else None
      | None => Some (sgn * ((hh * 3600 + mm * 60) * us_per_second), r)
      end
  | EmptyString => None
  end.

Definition strptime (timestamp : string) : option datetime :=
  '(yy, s) ← re_Y timestamp; s ← lit "-" s;
  '(mo, s) ← re_m s; s ← lit "-" s;
  '(dd, s) ← re_d s; s ← re_spaces s;
  '(hh, s) ← re_H s; s ← lit ":" s;
  '(mi, s) ← re_M s; s ← lit ":" s;
  '(ss, s) ← re_S s; s ← lit "." s;
  '(ff, s) ← re_f s;
  '(zz, s) ← re_z s;
  if negb (String.eqb s "") then None                       (* unconverted data remains *)
  else if negb ((1 <=? yy) && (dd <=? days_in_month yy mo)) then None (* no such date *)
  else if 59 <? ss then None                                (* second must be in 0..59 *)
  else if negb ((- us_per_day <? zz) && (zz <? us_per_day)) then None (* offset of a day or more *)
  else Some (mkdt yy mo dd hh mi ss ff (Some zz)).

(** [dt.replace(second=s, microsecond=us)] *)
Definition replace_second_microsecond (dt : datetime) (s us : Z) : datetime :=
  mkdt (year dt) (month dt) (day dt) (hour dt) (minute dt) s us (utcoffset dt).

(** The offset suffix of [isoformat]: [+HH:MM], with [:SS] and [.ffffff]
    when they are not zero. *)
Definition format_offset (o : Z) : string :=
  let a := Z.abs o in
  let secs := a / us_per_second in
  let us := a mod us_per_second in
  (if o <? 0 then "-" else "+") +:+ dec 2 (secs / 3600) +:+ ":" +:+ dec 2 (secs mod 3600 / 60)
  +:+ (if (secs mod 60 =? 0) && (us =? 0) then "" else ":" +:+ dec 2 (secs mod 60))
  +:+ (if us =? 0 then "" else "." +:+ dec 6 us).

(** [str(dt)], that is [dt.isoformat(sep=' ')]; it is also the text under
    which sqlite3's default adapter stores a datetime. *)
Definition isoformat (dt : datetime) : string :=
  dec 4 (year dt) +:+ "-" +:+ dec 2 (month dt) +:+ "-" +:+ dec 2 (day dt) +:+ " "
  +:+ dec 2 (hour dt) +:+ ":" +:+ dec 2 (minute dt) +:+ ":" +:+ dec 2 (second dt)
  +:+ (if microsecond dt =? 0 then "" else "." +:+ dec 6 (microsecond dt))
  +:+ match utcoffset dt with
      | Some o => format_offset o
      | None => ""
      end.

(** [pytz.utc.localize(dt)]: only a naive value may be localized. *)
Definition localize_utc (dt : datetime) : result datetime :=
  match utcoffset dt with
  | None => Ok (mkdt (year dt) (month dt) (day dt) (hour dt) (minute dt)
                     (second dt) (microsecond dt) (Some 0))
  | Some _ => Raise ValueError
  end.

(** The key of the aggregation, [(customer_id, minute)]; the buffer, a
    dict from keys to counts in insertion order; and a parameter tuple
    [(customer_id, minute, count)] of the INSERT. *)
Abbreviation key := (string * datetime)%type.
Abbreviation dict := (list (string * datetime * Z)).
Abbreviation entry := (string * datetime * Z)%type.

(** Modelled from the spec: schema.sql, which is not among the sources.
    The durable store is one table [events_aggregation] with the columns
    customer_id, minute and event_count and a uniqueness constraint on
    (customer_id, minute); a finite map from that pair to the count has
    exactly one row per pair.  The minute column holds the text sqlite3's
    adapter writes for the datetime, [isoformat]; the model keeps the
    datetime and applies [isoformat] where SQLite looks at the text.
    The counts of this table are unbounded integers, which is SQLite's
    arithmetic as long as every count and every sum fits in 64 bits; what
    SQLite does beyond that is in [sqlite_table] below. *)
Abbreviation table := (gmap (string * datetime) Z).

(** *** Numbers in the store

    SQLite keeps an INTEGER in 64 bits, two's complement.  The sqlite3
    module binds a Python int as such an INTEGER and raises OverflowError
    for one that does not fit.  When the sum of two INTEGERs does not fit,
    SQLite computes it in floating point and the result is a REAL. *)
Definition int64_min : Z := - 2 ^ 63.
Definition int64_max : Z := 2 ^ 63 - 1.

Definition fits_int64 (n : Z) : bool := (int64_min <=? n) && (n <=? int64_max).

(** A value of the column event_count: an INTEGER, or [SqlReal] for a
    count that has passed through floating point.  A sum that leaves the
    64 bits is stored as a REAL whatever the affinity of the column; its
    value, and what later sums make of it, are not kept. *)
Inductive sqlval : Type :=
| SqlInt (n : Z)
| SqlReal.

(** [event_count + EXCLUDED.event_count], the right operand being the count
    bound to the statement.  A sum with a REAL is computed in floating
    point as well. *)
Definition sqlite_add (v : sqlval) (count : Z) : sqlval :=
  match v with
  | SqlInt old => if fits_int64 (old + count) then SqlInt (old + count) else SqlReal
  | SqlReal => SqlReal
  end.

(** The table with the counts as SQLite keeps them. *)
Abbreviation sqlite_table := (gmap (string * datetime) sqlval).

(** ** The service

    Two collaborators are not part of the repository and stay abstract:
    dateutil's permissive [parse], and the offset of the machine's local
    time zone, which Python uses when [astimezone] meets a naive value. *)

Section Service.

Variable parse : string -> result datetime.
Variable local_utcoffset : datetime -> Z.

(** [dt.astimezone(pytz.utc)]: the same instant on the UTC clock.  Python
    accepts an offset only strictly between minus and plus 24 hours and
    raises ValueError for any other, such as the one of the [tzoffset]
    that dateutil makes of [+2400]. *)
Definition astimezone_utc (dt : datetime) : result datetime :=
  let o := match utcoffset dt with
           | Some o => o
           | None => local_utcoffset dt
           end in
  if (- us_per_day <? o) && (o <? us_per_day)
  then of_wall_us (wall_us dt - o) (Some 0)
  else Raise ValueError.

(** The offset padding at the head of [rfc_to_utc_dt]: ValueError when the
    timestamp has no [+]. *)
Definition pad_offset (timestamp : string) : result string :=
  match str_index "+" timestamp with
  | None => Raise ValueError
  | Some tz_info_idx =>
      let tz_info_len := Z.of_nat (String.length timestamp) - (Z.of_nat tz_info_idx + 1) in
      if negb (tz_info_len =? 4)
      then Ok (timestamp +:+ zeros (4 - tz_info_len))
      else Ok timestamp
  end.

Definition rfc_to_utc_dt (timestamp : string) : result datetime :=
  timestamp ← pad_offset timestamp;
  dt ← match strptime timestamp with
       | Some dt => Ok dt
       | None => parse timestamp
       end;
  astimezone_utc dt.

(** A call of [rfc_to_utc_dt] on a value that may be [None]:
    [None.index('+')] raises AttributeError. *)
Definition rfc_to_utc_dt_arg (timestamp : option string) : result datetime :=
  match timestamp with
  | Some s => rfc_to_utc_dt s
  | None => Raise AttributeError
  end.

(** *** The aggregation buffer

    [event_count] is a [defaultdict(lambda: 0)] keyed by
    [(customer_id, rounded_dt)].  A Python dict keeps its keys distinct and
    in insertion order, and [batch_commit] walks it in that order, so it is
    an association list here. *)


Fixpoint dict_get (d : dict) (k : key) : option Z :=
  match d with
  | [] => None
  | (k', v) :: d' => if decide (k' = k) then Some v else dict_get d' k
  end.

(** [d[k] = v]: an existing key keeps its place, a new one goes last. *)
Fixpoint dict_set (d : dict) (k : key) (v : Z) : dict :=
  match d with
  | [] => [(k, v)]
  | (k', v') :: d' => if decide (k' = k) then (k', v) :: d' else (k', v') :: dict_set d' k v
  end.

(** [event_count[k] += 1], a missing key counting as 0. *)
Definition dict_incr (d : dict) (k : key) : dict :=
  dict_set d k (default 0 (dict_get d k) + 1).

(** [len(event_count.keys())] *)
Definition dict_len (d : dict) : nat := length d.

(** *** Storage *)



(** A failure of the storage engine during one [batch_commit]: statement
    number [k] of the [executemany] raises, or [conn.commit()] does. *)
Inductive fault : Type :=
| StatementFails (k : nat)
| CommitFails.

(** The state outside the process: the committed rows, the failures the
    storage engine is going to answer the coming [batch_commit] calls with
    ([None] or no entry: the call goes through), and two records of what
    was asked of the store: the batches handed to [executemany] and the
    parameters of the SELECTs executed. *)
Record world : Type := mkworld {
  durable : table;
  faults : list (option fault);
  calls : list (list entry);
  queries : list (string * string * option string)
}.

(** [INSERT INTO events_aggregation(customer_id, minute, event_count)
     VALUES(?,?,?) ON CONFLICT(customer_id, minute)
     DO UPDATE SET event_count=event_count+EXCLUDED.event_count] *)
Definition upsert (t : table) (e : entry) : table :=
  let '(customer_id, minute, count) := e in
  match t !! (customer_id, minute) with
  | Some old => <[(customer_id, minute) := old + count]> t
  | None => <[(customer_id, minute) := count]> t
  end.

(** [cur.executemany(insert, data)] inside the transaction sqlite3 opens
    for it: the statements run in order on the uncommitted copy [t]; when
    statement [k] raises, the [k] statements before it have run. *)
Definition executemany (f : option fault) (t : table) (data : list entry) : result unit * table :=
  match f with
  | Some (StatementFails k) =>
      if (k <? length data)%nat
      then (Raise OperationalError, foldl upsert t (take k data))
      else (Ok tt, foldl upsert t data)
  | _ => (Ok tt, foldl upsert t data)
  end.

(** [conn.commit()]: the uncommitted copy becomes the durable table. *)
Definition commit (f : option fault) (t : table) : result table :=
  match f with
  | Some CommitFails => Raise OperationalError
  | _ => Ok t
  end.

(** The list built for [executemany], in the order of the dict. *)
Definition data_of (event_count : dict) : list entry :=
  map (fun '((customer_id, minute), count) => (customer_id, minute, count)) event_count.

Definition batch_commit (event_count : dict) (w : world) : result unit * world :=
  let data := data_of event_count in
  let f := default None (head (faults w)) in
  let w := mkworld (durable w) (tail (faults w)) (calls w ++ [data]) (queries w) in
  match executemany f (durable w) data with
  | (Ok _, t) =>
      match commit f t with
      | Ok t => (Ok tt, mkworld t (faults w) (calls w) (queries w))
      | Raise e => (Raise e, w)
      end
  | (Raise e, _) =>
      (* the with block unwinds and the teardown closes the connection:
         what was not committed is rolled back *)
      (Raise e, w)
  end.

(** *** The same call on the store as SQLite keeps it

    [batch_commit] once more, on a table whose counts are [sqlval]s, as a
    function of the failure [f] the storage engine answers the call with
    and of the durable table; it returns the durable table it leaves.
    Two things are added to [batch_commit]: a count that does not fit in 64
    bits cannot be bound, and the statement it belongs to raises
    OverflowError instead of running; and the sum of an UPDATE is
    [sqlite_add]. *)

Definition sqlite_upsert (t : sqlite_table) (e : entry) : sqlite_table :=
  let '(customer_id, minute, count) := e in
  match t !! (customer_id, minute) with
  | Some old => <[(customer_id, minute) := sqlite_add old count]> t
  | None => <[(customer_id, minute) := SqlInt count]> t
  end.

(** The statements of an [executemany] in order, [k] telling which one the
    storage engine is going to fail, if any.  The parameters of a
    statement are bound before it runs. *)
Fixpoint sqlite_statements (k : option nat) (t : sqlite_table) (data : list entry)
  : result unit * sqlite_table :=
  match data with
  | [] => (Ok tt, t)
  | e :: data' =>
      if negb (fits_int64 e.2) then (Raise OverflowError, t)
      else
        match k with
        | Some O => (Raise OperationalError, t)
        | Some (S k') => sqlite_statements (Some k') (sqlite_upsert t e) data'
        | None => sqlite_statements None (sqlite_upsert t e) data'
        end
  end.

Definition sqlite_executemany (f : option fault) (t : sqlite_table) (data : list entry)
  : result unit * sqlite_table :=
  sqlite_statements (match f with
                     | Some (StatementFails k) => Some k
                     | _ => None
                     end) t data.

Definition sqlite_batch_commit (event_count : dict) (f : option fault) (t : sqlite_table)
  : result unit * sqlite_table :=
  let data := data_of event_count in
  match sqlite_executemany f t data with
  | (Ok _, t') =>
      match f with
      | Some CommitFails => (Raise OperationalError, t)
      | _ => (Ok tt, t')
      end
  | (Raise e, _) => (Raise e, t)
  end.

(** *** Ingestion *)

(** A line of the file with its four fields.  A line with fewer fields,
    for which [csv.DictReader] fills in [None], is not a [row]. *)
Record row : Type := mkrow {
  customer_id : string; event_type : string; txn_id : string; timestamp : string
}.

(** The check at the head of the loop body: commit and clear once the
    buffer has [threshold] keys. *)
Definition flush_if_full (threshold : nat) (event_count : dict) (w : world)
  : result unit * dict * world :=
  if (threshold <=? dict_len event_count)%nat then
    match batch_commit event_count w with
    | (Ok _, w') => (Ok tt, [], w')
    | (Raise e, w') => (Raise e, event_count, w')
    end
  else (Ok tt, event_count, w).

(** One turn of the loop.  The buffer and the world are returned in every
    case: an exception leaves them as they were when it was raised. *)
Definition process_row (threshold : nat) (r : row) (event_count : dict) (w : world)
  : result unit * dict * world :=
  match flush_if_full threshold event_count w with
  | (Ok _, event_count, w) =>
      match rfc_to_utc_dt (timestamp r) with
      | Ok utc_dt =>
          let rounded_dt := replace_second_microsecond utc_dt 0 0 in
          (Ok tt, dict_incr event_count (customer_id r, rounded_dt), w)
      | Raise e => (Raise e, event_count, w)
      end
  | (Raise e, event_count, w) => (Raise e, event_count, w)
  end.

Fixpoint process_rows (threshold : nat) (rows : list row) (event_count : dict) (w : world)
  : result unit * dict * world :=
  match rows with
  | [] => (Ok tt, event_count, w)
  | r :: rows' =>
      match process_row threshold r event_count w with
      | (Ok _, event_count, w) => process_rows threshold rows' event_count w
      | (Raise e, event_count, w) => (Raise e, event_count, w)
      end
  end.

(** The loop and the commit after it, for the rows the reader yields; the
    number of keys that triggers a commit is left open. *)
Definition ingest (threshold : nat) (rows : list row) (w : world) : result unit * world :=
  match process_rows threshold rows [] w with
  | (Ok _, event_count, w) => batch_commit event_count w
  | (Raise e, _, w) => (Raise e, w)
  end.

(** [process_csv], whose threshold is the literal [1_000]. *)
Definition process_csv (rows : list row) (w : world) : result unit * world :=
  ingest 1000 rows w.

(** *** The hourly roll-up *)

(** [WHERE minute >= ? AND minute < ? AND customer_id = ?]: the minute
    column and the two bounds are texts and SQLite compares them byte by
    byte; a NULL customer equals no row. *)
Definition in_range (start end_ : string) (customer : option string) (r : key * Z) : bool :=
  let '((c, m), _) := r in
  String.leb start (isoformat m) && String.ltb (isoformat m) end_
  && match customer with
     | Some c' => String.eqb c c'
     | None => false
     end.

(** [strftime('%Y-%m-%d %H', minute)] for a minute on the UTC clock, the
    only kind [process_csv] stores. *)
Definition strftime_hour (m : datetime) : string :=
  dec 4 (year m) +:+ "-" +:+ dec 2 (month m) +:+ "-" +:+ dec 2 (day m) +:+ " " +:+ dec 2 (hour m).

(** [GROUP BY strftime(...)] with [sum(event_count)]. *)
Fixpoint group_by_hour (rows : list (key * Z)) : gmap string Z :=
  match rows with
  | [] => ∅
  | ((_, m), n) :: rows' =>
      let g := group_by_hour rows' in
      <[strftime_hour m := default 0 (g !! strftime_hour m) + n]> g
  end.

(** The SELECT: the rows of the result, in no specified order. *)
Definition select_hourly (t : table) (start end_ : string) (customer : option string)
  : list (string * Z) :=
  map_to_list (group_by_hour (filter (fun r => in_range start end_ customer r) (map_to_list t))).

(** [str(pytz.utc.localize(parse(hour['hour'])))] *)
Definition hour_key (hour : string) : result string :=
  dt ← parse hour;
  utc_dt ← localize_utc dt;
  mret (isoformat utc_dt).

(** The loop over the fetched rows. *)
Fixpoint collect (hour_events : list (string * Z)) (event_counts : gmap string Z)
  : result (gmap string Z) :=
  match hour_events with
  | [] => Ok event_counts
  | (h, n) :: rest =>
      k ← hour_key h;
      collect rest (<[k := n]> event_counts)
  end.

(** The arguments may be [None], as the route passes them on. *)
Definition hourly_event_count (customer start end_ : option string) (w : world)
  : result (gmap string Z) * world :=
  match rfc_to_utc_dt_arg start with
  | Raise e => (Raise e, w)
  | Ok start_dt =>
      match rfc_to_utc_dt_arg end_ with
      | Raise e => (Raise e, w)
      | Ok end_dt =>
          let q := (isoformat start_dt, isoformat end_dt, customer) in
          let hour_events := select_hourly (durable w) q.1.1 q.1.2 customer in
          (collect hour_events ∅,
           mkworld (durable w) (faults w) (calls w) (queries w ++ [q]))
      end
  end.

(** *** The route and the command line *)

(** [request.args.get(name)]: the first value given for [name], or [None]. *)
Fixpoint args_get (args : list (string * string)) (name : string) : option string :=
  match args with
  | [] => None
  | (k, v) :: args' => if String.eqb k name then Some v else args_get args' name
  end.

(** [GET /hourly].  The body of the answer is the JSON text of the mapping
    returned here; an exception leaving the view is answered by Flask with
    status 500. *)
Definition hourly_event_count_route (args : list (string * string)) (w : world)
  : result (gmap string Z) * world :=
  let customer := args_get args "customer_id" in
  let start := args_get args "start" in
  let end_ := args_get args "end" in
  hourly_event_count customer start end_ w.

(** Python's [not x] for an optional string. *)
Definition py_not (x : option string) : bool :=
  match x with
  | None => true
  | Some s => String.eqb s ""
  end.

Inductive outcome : Type :=
| Serving                          (* app.run(port=8000) *)
| MissingArgs                      (* the message is printed, then sys.exit() *)
| Printed (m : gmap string Z)
| Failed (e : exn).

(** The main block after the arguments are parsed.  [init_db] runs
    schema.sql, which is not among the sources: [w] is the world it
    leaves. *)
Definition main (rows : list row) (server : bool) (customer start end_ : option string)
    (w : world) : outcome * world :=
  match process_csv rows w with
  | (Raise e, w) => (Failed e, w)
  | (Ok _, w) =>
      if server then (Serving, w)
      else if py_not customer || py_not start || py_not end_ then (MissingArgs, w)
      else
        match hourly_event_count customer start end_ w with
        | (Ok m, w) => (Printed m, w)
        | (Raise e, w) => (Failed e, w)
        end
  end.

End Service.

(** ** Stand-ins for the collaborators, used to run the model

    [parse_hour] reads the text [YYYY-MM-DD HH] as dateutil does, giving
    the naive start of that hour, and rejects everything else;
    [utc_machine] is a machine whose local time is UTC. *)

Definition parse_hour (s : string) : result datetime :=
  match ('(yy, s) ← re_Y s; s ← lit "-" s;
         '(mo, s) ← re_m s; s ← lit "-" s;
         '(dd, s) ← re_d s; s ← lit " " s;
         '(hh, s) ← re_H s;
         if String.eqb s "" then Some (mkdt yy mo dd hh 0 0 0 None) else None) with
  | Some dt => Ok dt
  | None => Raise ValueError
  end.

Definition utc_machine (_ : datetime) : Z := 0.

Definition empty_world : world := mkworld ∅ [] [] [].

(** ** Vocabulary of the statements *)

(** What the entries of [data] add up to for the row [k]. *)
Fixpoint count_for (k : key) (data : list entry) : Z :=
  match data with
  | [] => 0
  | (k', n) :: data' => (if decide (k' = k) then n else 0) + count_for k data'
  end.

(** Whether the storage engine fails a [batch_commit] of [n] statements
    under the fault [f]. *)
Definition fails (f : option fault) (n : nat) : bool :=
  match f with
  | Some (StatementFails k) => (k <? n)%nat
  | Some CommitFails => true
  | None => false
  end.

(** The fault that meets the next [batch_commit]. *)
Definition next_fault (w : world) : option fault := default None (head (faults w)).

(** The world after a [batch_commit] of [data] was attempted: the fault is
    used up and the call is on record; [t] is the durable table it leaves. *)
Definition attempted (w : world) (data : list entry) (t : table) : world :=
  mkworld t (tail (faults w)) (calls w ++ [data]) (queries w).

(** The durable table after the batches [bs] were merged one after the other. *)
Definition merge_all (t : table) (bs : list (list entry)) : table :=
  foldl (fun t b => foldl upsert t b) t bs.

(** The key the loop counts a row under. *)
Definition row_key (parse : string -> result datetime) (local_utcoffset : datetime -> Z)
    (r : row) : result key :=
  utc_dt ← rfc_to_utc_dt parse local_utcoffset (timestamp r);
  mret (customer_id r, replace_second_microsecond utc_dt 0 0).

(** What dateutil's [parse] makes of the text [strftime_hour m]: the
    naive start of that hour. *)
Definition hour_start (m : datetime) : datetime :=
  mkdt (year m) (month m) (day m) (hour m) 0 0 0 None.

(** What [str] appends to the hour text once the start of the hour is
    localized to UTC. *)
Definition hour_suffix : string := ":00:00+00:00".

(** The sum of the counts of some rows. *)
Definition total (rows : list (key * Z)) : Z := foldr (fun r acc => r.2 + acc) 0 rows.

(** The rows of the roll-up example: customer c1, one event in each of the
    minutes 14:15, 14:45 and 15:15 of 2021-03-01. *)
Definition example_table : table :=
  {[ ("c1", mkdt 2021 3 1 14 15 0 0 (Some 0)) := 1;
     ("c1", mkdt 2021 3 1 14 45 0 0 (Some 0)) := 1;
     ("c1", mkdt 2021 3 1 15 15 0 0 (Some 0)) := 1 ]}.

(** A value on the UTC clock whose fields are a date and a time of day. *)
Definition valid_utc (dt : datetime) : Prop :=
  1 <= year dt <= 9999 /\ 1 <= month dt <= 12
  /\ 1 <= day dt <= days_in_month (year dt) (month dt)
  /\ 0 <= hour dt < 24 /\ 0 <= minute dt < 60 /\ 0 <= second dt < 60
  /\ 0 <= microsecond dt < us_per_second /\ utcoffset dt = Some 0.

(** Comparison of two tuples of numbers, given as the list of the pairs
    of their components: the first pair that differs decides. *)
Fixpoint lex (l : list (Z * Z)) : comparison :=
  match l with
  | [] => Eq
  | (x, y) :: l' =>
      match x ?= y with
      | Eq => lex l'
      | c => c
      end
  end.

(** The fields of two values, paired up from the year down. *)
Definition fields (a b : datetime) : list (Z * Z) :=
  [(year a, year b); (month a, month b); (day a, day b); (hour a, hour b);
   (minute a, minute b); (second a, second b); (microsecond a, microsecond b)].

(** The check made for every day number of a year: the month and day
    that [month_day] gives exist, and that day is the right one. *)
Definition month_day_ok (leap : bool) (n : Z) : bool :=
  let '(m, d) := month_day leap n in
  (1 <=? m) && (m <=? 12) && (1 <=? d) && (d <=? month_length leap m)
  && (month_offset leap m + d =? n + 1).

(** [p] holds of the [fuel] numbers from [r] on. *)
Fixpoint all_from (fuel : nat) (r : Z) (p : Z -> bool) : bool :=
  match fuel with
  | O => true
  | S fuel' => p r && all_from fuel' (r + 1) p
  end.

(** A key whose minute is a valid UTC value with no seconds left. *)
Definition minute_key (k : key) : Prop :=
  valid_utc k.2 /\ second k.2 = 0 /\ microsecond k.2 = 0.

(** The counts of the buffer and the sums they make with the rows of [t]
    fit in 64 bits: for such a buffer the store's arithmetic is that of
    the integers. *)
Definition in_int64 (t : table) (event_count : dict) : Prop :=
  Forall (fun e => fits_int64 e.2 = true
                   /\ fits_int64 (default 0 (t !! e.1) + e.2) = true) event_count.

(** ** Vocabulary of the further properties *)

(** One entry [(key, 1)] per event, in the order of the events. *)
Definition events (ks : list key) : list entry := map (fun k => (k, 1)) ks.

(** How many of the events have the key [k]. *)
Definition occurrences (k : key) (ks : list key) : Z :=
  Z.of_nat (length (filter (fun k' => k' = k) ks)).

(** The table [t'] has every row of [t], with a count that is not lower. *)
Definition table_le (t t' : table) : Prop :=
  forall k old, t !! k = Some old -> exists new, t' !! k = Some new /\ old <= new.

(** How many of the events with the keys [ks] were counted for [customer]
    under a minute of the hour with the text [h] that lies within the
    bounds: at or after [start_dt] and before [end_dt]. *)
Definition events_in_hour (customer : string) (start_dt end_dt : datetime) (h : string)
    (ks : list key) : nat :=
  length (filter (fun k : key => k.1 = customer
                                 /\ wall_us start_dt <= wall_us k.2 < wall_us end_dt
                                 /\ strftime_hour k.2 = h) ks).


(** The earliest date and time there is, [datetime.min], on the UTC
    clock: 0001-01-01 00:00. *)
Definition datetime_min : datetime := mkdt 1 1 1 0 0 0 0 (Some 0).

(** * Properties *)

(** ** Strings *)

Lemma length_append (s t : string) :
  String.length (s +:+ t) = (String.length s + String.length t)%nat.
Proof. induction s as [|a s IH]; simpl; [done | by rewrite IH]. Qed.

Lemma length_str_repeat (s : string) (n : nat) :
  String.length (str_repeat s n) = (n * String.length s)%nat.
Proof. induction n as [|n IH]; simpl; [done | by rewrite length_append, IH]. Qed.

Lemma length_zeros (n : Z) : String.length (zeros n) = Z.to_nat n.
Proof. unfold zeros. rewrite length_str_repeat. simpl. lia. Qed.

Lemma str_index_lt (c : ascii) (s : string) (i : nat) :
  str_index c s = Some i -> (i < String.length s)%nat.
Proof.
  revert i. induction s as [|a s IH]; intros i; simpl; [done |].
  destruct (Ascii.eqb a c).
  - intros [= <-]. lia.
  - destruct (str_index c s) as [j|]; simpl; [| done].
    intros [= <-]. specialize (IH j eq_refl). lia.
Qed.

Lemma str_index_append (c : ascii) (s t : string) (i : nat) :
  str_index c s = Some i -> str_index c (s +:+ t) = Some i.
Proof.
  revert i. induction s as [|a s IH]; intros i; simpl; [done |].
  destruct (Ascii.eqb a c); [done |].
  destruct (str_index c s) as [j|]; simpl; [| done].
  intros [= <-]. by rewrite (IH j eq_refl).
Qed.

(** [str_index] finds nothing exactly when the character is at no position. *)
Lemma str_index_None (c : ascii) (s : string) :
  str_index c s = None <-> forall i, String.get i s <> Some c.
Proof.
  induction s as [|a s IH]; simpl.
  - split; [by intros _ [|i] | done].
  - destruct (Ascii.eqb_spec a c) as [->|Hne].
    + split; [done |]. intros H. by destruct (H O).
    + destruct (str_index c s) as [j|] eqn:Hj; simpl.
      * split; [done |]. intros H. exfalso.
        assert (Hn : ~ (forall i, get i s <> Some c)) by (intros H'; by apply IH in H').
        apply Hn. intros i. apply (H (S i)).
      * split; [| done]. intros _ [|i]; simpl; [congruence |].
        by apply IH.
Qed.

(** ** The timestamp normaliser *)

Section Normaliser.

Variable parse : string -> result datetime.
Variable local_utcoffset : datetime -> Z.

Lemma pad_offset_no_plus (ts : string) :
  (forall i, String.get i ts <> Some "+"%char) -> pad_offset ts = Raise ValueError.
Proof. intros H. unfold pad_offset. by apply str_index_None in H as ->. Qed.

Lemma rfc_to_utc_dt_no_plus (ts : string) :
  (forall i, String.get i ts <> Some "+"%char) ->
  rfc_to_utc_dt parse local_utcoffset ts = Raise ValueError.
Proof. intros H. unfold rfc_to_utc_dt. by rewrite pad_offset_no_plus. Qed.

(** A timestamp whose offset already has four characters is left alone. *)
Lemma pad_offset_four (ts : string) (i : nat) :
  str_index "+" ts = Some i -> String.length ts = (i + 1 + 4)%nat -> pad_offset ts = Ok ts.
Proof.
  intros Hi Hlen. unfold pad_offset. rewrite Hi, Hlen.
  replace (Z.of_nat (i + 1 + 4) - (Z.of_nat i + 1) =? 4) with true; [done |].
  symmetry. apply Z.eqb_eq. lia.
Qed.

Lemma pad_offset_short (ts : string) (i : nat) :
  str_index "+" ts = Some i ->
  (String.length ts - (i + 1) < 4)%nat ->
  pad_offset ts = Ok (ts +:+ str_repeat "0" (4 - (String.length ts - (i + 1)))).
Proof.
  intros Hi Hlen. pose proof (str_index_lt _ _ _ Hi) as Hlt.
  unfold pad_offset. rewrite Hi.
  destruct (Z.eqb_spec (Z.of_nat (String.length ts) - (Z.of_nat i + 1)) 4) as [Heq|_]; [lia |].
  simpl. unfold zeros. do 3 f_equal. lia.
Qed.

End Normaliser.

(** C7.  A timestamp whose offset, the text after its first [+], has fewer
    than four characters is parsed after that many ["0"] have been
    appended as make the offset exactly four characters long: the padded
    text is the timestamp followed by zeros only, its [+] sits where it
    was, four characters remain after it, and the normaliser gives for the
    timestamp what it gives for the padded text.  So
    [2021-03-01 14:15:30.500000+00] and [2021-03-01 14:15:30.500000+0000]
    are the same UTC instant. *)
Theorem offset_padded_to_four
    (parse : string -> result datetime) (local_utcoffset : datetime -> Z)
    (ts : string) (i : nat) :
  str_index "+" ts = Some i ->
  (String.length ts - (i + 1) < 4)%nat ->
  let padded := ts +:+ str_repeat "0" (4 - (String.length ts - (i + 1))) in
  pad_offset ts = Ok padded
  /\ str_index "+" padded = Some i
  /\ (String.length padded - (i + 1) = 4)%nat
  /\ rfc_to_utc_dt parse local_utcoffset ts = rfc_to_utc_dt parse local_utcoffset padded
  /\ rfc_to_utc_dt parse local_utcoffset "2021-03-01 14:15:30.500000+00"
     = Ok (mkdt 2021 3 1 14 15 30 500000 (Some 0))
  /\ rfc_to_utc_dt parse local_utcoffset "2021-03-01 14:15:30.500000+0000"
     = Ok (mkdt 2021 3 1 14 15 30 500000 (Some 0)).
Proof.
  intros Hi Hlen padded.
  pose proof (str_index_lt _ _ _ Hi) as Hlt.
  assert (Hidx : str_index "+" padded = Some i) by by apply str_index_append.
  assert (Hpl : String.length padded = (i + 1 + 4)%nat).
  { unfold padded. rewrite length_append, length_str_repeat. simpl. lia. }
  assert (Hpad : pad_offset ts = Ok padded) by by apply pad_offset_short.
  repeat split; try done.
  - lia.
  - unfold rfc_to_utc_dt. by rewrite Hpad, (pad_offset_four padded i Hidx Hpl).
Qed.

Lemma offset_padded_to_four_witness :
  pad_offset "2021-03-01 14:15:30.500000+00" = Ok "2021-03-01 14:15:30.500000+0000"
  /\ rfc_to_utc_dt parse_hour utc_machine "2021-03-01 14:15:30.500000+00"
     = rfc_to_utc_dt parse_hour utc_machine "2021-03-01 14:15:30.500000+0000".
Proof.
  pose proof (offset_padded_to_four parse_hour utc_machine
                "2021-03-01 14:15:30.500000+00" 26 eq_refl) as H.
  simpl in H. destruct H as (H1 & _ & _ & H4 & _); [lia |].
  split; [exact H1 | exact H4].
Defined.

(** The clock fields of a value built by [of_wall_us] are in their ranges. *)
Lemma of_wall_us_fields (t : Z) (o : option Z) (dt : datetime) :
  of_wall_us t o = Ok dt ->
  0 <= hour dt < 24 /\ 0 <= minute dt < 60 /\ 0 <= second dt < 60
  /\ 0 <= microsecond dt < us_per_second /\ utcoffset dt = o.
Proof.
  unfold of_wall_us.
  destruct ((1 <=? t / us_per_day) && (t / us_per_day <=? max_ordinal)); [| done].
  destruct (ord2ymd (t / us_per_day)) as [[y m] d]. intros [= <-]. simpl.
  unfold us_per_day, us_per_hour, us_per_minute, us_per_second in *.
  pose proof (Z.mod_pos_bound t (24 * (60 * (60 * 1000000))) ltac:(lia)) as Hr.
  set (r := t mod (24 * (60 * (60 * 1000000)))) in *.
  pose proof (Z.mod_pos_bound r (60 * (60 * 1000000)) ltac:(lia)).
  pose proof (Z.mod_pos_bound r (60 * 1000000) ltac:(lia)).
  pose proof (Z.mod_pos_bound r 1000000 ltac:(lia)).
  repeat split; try (apply Z.div_pos; lia); try (apply Z.div_lt_upper_bound; lia); lia.
Qed.

(** When [astimezone] returns, the offset was less than a day either way
    and the value is the one built for the shifted clock reading. *)
Lemma astimezone_utc_Ok (local_utcoffset : datetime -> Z) (dt utc_dt : datetime) :
  astimezone_utc local_utcoffset dt = Ok utc_dt ->
  let o := match utcoffset dt with
           | Some o => o
           | None => local_utcoffset dt
           end in
  - us_per_day < o < us_per_day /\ of_wall_us (wall_us dt - o) (Some 0) = Ok utc_dt.
Proof.
  unfold astimezone_utc. cbv zeta.
  set (o := match utcoffset dt with Some o => o | None => local_utcoffset dt end).
  destruct (Z.ltb_spec (- us_per_day) o); [| done].
  destruct (Z.ltb_spec o us_per_day); [| done]. cbn [andb]. intros Hdt. split; [lia | done].
Qed.

Section NormaliserResult.

Variable parse : string -> result datetime.
Variable local_utcoffset : datetime -> Z.

Lemma rfc_to_utc_dt_fields (ts : string) (dt : datetime) :
  rfc_to_utc_dt parse local_utcoffset ts = Ok dt ->
  0 <= hour dt < 24 /\ 0 <= minute dt < 60 /\ 0 <= second dt < 60
  /\ 0 <= microsecond dt < us_per_second /\ utcoffset dt = Some 0.
Proof.
  unfold rfc_to_utc_dt. destruct (pad_offset ts) as [ts'|]; simpl; [| done].
  destruct (match strptime ts' with Some dt0 => Ok dt0 | None => parse ts' end) as [dt0|];
    simpl; [| done].
  intros H. apply astimezone_utc_Ok in H as [_ H]. by apply of_wall_us_fields in H.
Qed.

(** Zeroing the seconds and microseconds of a value in range is rounding
    its clock down to a whole minute. *)
Lemma replace_rounds_down (dt : datetime) :
  0 <= second dt < 60 -> 0 <= microsecond dt < us_per_second ->
  wall_us (replace_second_microsecond dt 0 0) = us_per_minute * (wall_us dt / us_per_minute).
Proof.
  intros Hs Hus. unfold wall_us, replace_second_microsecond; simpl.
  unfold us_per_day, us_per_hour, us_per_minute, us_per_second in *.
  set (n := ymd2ord (year dt) (month dt) (day dt)).
  rewrite <- (Z.div_unique
             (n * (24 * (60 * (60 * 1000000))) + hour dt * (60 * (60 * 1000000))
              + minute dt * (60 * 1000000) + second dt * 1000000 + microsecond dt)
             (60 * 1000000)
             (n * 1440 + hour dt * 60 + minute dt)
             (second dt * 1000000 + microsecond dt)); lia.
Qed.

End NormaliserResult.

(** C8.  When a row's timestamp normalises to [utc_dt], the minute bucket
    is [utc_dt] with second and microsecond set to zero and every other
    field kept, its clock reading is that of [utc_dt] rounded down to a
    whole minute, and it is the minute of the key the loop increments.
    [2021-03-01 14:15:30.500000+0000] and [2021-03-01 14:15:59.999999+0000]
    both fall in the bucket [2021-03-01 14:15:00+00:00]. *)
Theorem minute_bucket_rounds_down
    (parse : string -> result datetime) (local_utcoffset : datetime -> Z)
    (r : row) (utc_dt : datetime) :
  rfc_to_utc_dt parse local_utcoffset (timestamp r) = Ok utc_dt ->
  let rounded_dt := replace_second_microsecond utc_dt 0 0 in
  rounded_dt = mkdt (year utc_dt) (month utc_dt) (day utc_dt) (hour utc_dt) (minute utc_dt)
                    0 0 (Some 0)
  /\ wall_us rounded_dt = us_per_minute * (wall_us utc_dt / us_per_minute)
  /\ wall_us rounded_dt <= wall_us utc_dt < wall_us rounded_dt + us_per_minute
  /\ (forall threshold event_count w event_count' w',
        flush_if_full threshold event_count w = (Ok tt, event_count', w') ->
        process_row parse local_utcoffset threshold r event_count w
        = (Ok tt, dict_incr event_count' (customer_id r, rounded_dt), w'))
  /\ (forall ts,
        ts = "2021-03-01 14:15:30.500000+0000" \/ ts = "2021-03-01 14:15:59.999999+0000" ->
        exists dt, rfc_to_utc_dt parse local_utcoffset ts = Ok dt
                   /\ isoformat (replace_second_microsecond dt 0 0)
                      = "2021-03-01 14:15:00+00:00").
Proof.
  intros Hdt rounded_dt.
  destruct (rfc_to_utc_dt_fields _ _ _ _ Hdt) as (_ & _ & Hs & Hus & Ho).
  pose proof (replace_rounds_down utc_dt Hs Hus) as Hfloor.
  repeat split.
  - unfold rounded_dt, replace_second_microsecond. by rewrite Ho.
  - exact Hfloor.
  - fold rounded_dt in Hfloor. rewrite Hfloor. apply Z.mul_div_le. by compute.
  - fold rounded_dt in Hfloor. rewrite Hfloor.
    pose proof (Z.mod_pos_bound (wall_us utc_dt) us_per_minute ltac:(by compute)).
    pose proof (Z.div_mod (wall_us utc_dt) us_per_minute ltac:(by compute)). lia.
  - intros threshold event_count w event_count' w' Hflush.
    unfold process_row. by rewrite Hflush, Hdt.
  - intros ts [-> | ->]; eexists; (split; [vm_compute; reflexivity | vm_compute; reflexivity]).
Qed.

Lemma minute_bucket_rounds_down_witness :
  let r := mkrow "c1" "click" "t1" "2021-03-01 14:15:59.999999+0000" in
  let rounded_dt := mkdt 2021 3 1 14 15 0 0 (Some 0) in
  wall_us rounded_dt <= wall_us (mkdt 2021 3 1 14 15 59 999999 (Some 0))
    < wall_us rounded_dt + us_per_minute
  /\ process_row parse_hour utc_machine 1000 r [] empty_world
     = (Ok tt, [(("c1", rounded_dt), 1)], empty_world).
Proof.
  intros r rounded_dt.
  destruct (minute_bucket_rounds_down parse_hour utc_machine r
              (mkdt 2021 3 1 14 15 59 999999 (Some 0)) eq_refl)
    as (_ & _ & Hb & Hrow & _).
  split; [exact Hb | exact (Hrow 1000%nat [] empty_world [] empty_world eq_refl)].
Defined.

(** ** The upsert *)

Lemma data_of_id (event_count : dict) : data_of event_count = event_count.
Proof.
  unfold data_of. induction event_count as [|[[c m] n] d IH]; simpl; [done | by rewrite IH].
Qed.

Lemma upsert_lookup (t : table) (k' : key) (n : Z) (k : key) :
  upsert t (k', n) !! k
  = if decide (k' = k) then Some (default 0 (t !! k') + n) else t !! k.
Proof.
  unfold upsert. destruct k' as [c m].
  destruct (decide ((c, m) = k)) as [Heq|Hne].
  - subst k. destruct (t !! (c, m)); simpl; by rewrite lookup_insert_eq.
  - destruct (t !! (c, m)); simpl; by rewrite lookup_insert_ne.
Qed.

Lemma count_for_notin (data : list entry) (k : key) :
  k ∉ data.*1 -> count_for k data = 0.
Proof.
  induction data as [|[k1 n1] data IH]; simpl; intros Hk; [done |].
  apply not_elem_of_cons in Hk as [Hne Hk].
  destruct (decide (k1 = k)); [done |]. by rewrite IH.
Qed.

(** A row after [executemany]: untouched when no entry names it, else its
    old count, or zero, plus what the entries naming it add up to. *)
Lemma foldl_upsert_lookup (data : list entry) (t : table) (k : key) :
  foldl upsert t data !! k
  = if decide (k ∈ data.*1) then Some (default 0 (t !! k) + count_for k data) else t !! k.
Proof.
  revert t. induction data as [|[k' n] data IH]; intros t.
  - simpl. destruct (decide (k ∈ [])) as [Hin|_]; [by apply elem_of_nil in Hin | done].
  - cbn [foldl count_for]. rewrite fmap_cons, IH, upsert_lookup. cbn [fst].
    destruct (decide (k' = k)) as [->|Hne].
    + destruct (decide (k ∈ k :: data.*1)) as [_|Hn]; [| by destruct Hn; left].
      destruct (decide (k ∈ data.*1)) as [Hin|Hnin]; simpl; f_equal;
        [lia | rewrite (count_for_notin data k Hnin); lia].
    + destruct (decide (k ∈ data.*1)) as [Hin|Hnin].
      * destruct (decide (k ∈ k' :: data.*1)) as [_|Hn]; [| by destruct Hn; right].
        f_equal; lia.
      * destruct (decide (k ∈ k' :: data.*1)) as [Hin|_]; [| done].
        apply elem_of_cons in Hin as [-> | Hin]; done.
Qed.

Lemma count_for_NoDup (data : list entry) (k : key) (n : Z) :
  NoDup data.*1 -> (k, n) ∈ data -> count_for k data = n.
Proof.
  induction data as [|[k' n'] data IH]; simpl; intros Hnd Hin.
  - by apply elem_of_nil in Hin.
  - apply NoDup_cons in Hnd as [Hk' Hnd].
    apply elem_of_cons in Hin as [[= -> ->] | Hin].
    + destruct (decide (k' = k')); [| done]. rewrite count_for_notin; [lia | done].
    + destruct (decide (k' = k)) as [->|_]; [| by rewrite IH].
      destruct Hk'. apply list_elem_of_fmap. by exists (k, n).
Qed.

Lemma count_for_perm (k : key) (d1 d2 : list entry) :
  d1 ≡ₚ d2 -> count_for k d1 = count_for k d2.
Proof.
  induction 1 as [|[k1 n1] d1 d2 _ IH|[k1 n1] [k2 n2] d|d1 d2 d3 _ IH1 _ IH2]; simpl;
    [done | by rewrite IH | lia | congruence].
Qed.

(** The order of the entries in a batch does not matter. *)
Lemma foldl_upsert_perm (t : table) (d1 d2 : list entry) :
  d1 ≡ₚ d2 -> foldl upsert t d1 = foldl upsert t d2.
Proof.
  intros Hp. apply map_eq. intros k. rewrite !foldl_upsert_lookup.
  rewrite (count_for_perm k d1 d2 Hp).
  destruct (decide (k ∈ d1.*1)) as [H1|H1]; destruct (decide (k ∈ d2.*1)) as [H2|H2];
    try done; rewrite Hp in H1; done.
Qed.

(** Two batches commute. *)
Lemma foldl_upsert_comm (t : table) (d1 d2 : list entry) :
  foldl upsert (foldl upsert t d1) d2 = foldl upsert (foldl upsert t d2) d1.
Proof.
  rewrite <- !foldl_app. apply foldl_upsert_perm. apply Permutation_app_comm.
Qed.

(** [batch_commit] in one equation: under a fault that strikes, the error
    is raised and the durable table stays; otherwise every entry is merged. *)
Lemma batch_commit_spec (event_count : dict) (w : world) :
  batch_commit event_count w
  = if fails (next_fault w) (length event_count)
    then (Raise OperationalError, attempted w (data_of event_count) (durable w))
    else (Ok tt, attempted w (data_of event_count)
                   (foldl upsert (durable w) (data_of event_count))).
Proof.
  unfold batch_commit, next_fault, attempted, executemany, commit, fails.
  rewrite data_of_id. simpl.
  destruct (default None (head (faults w))) as [[k|]|]; simpl; try done.
  by destruct (k <? length event_count)%nat.
Qed.

Lemma batch_commit_ok (event_count : dict) (w : world) :
  fails (next_fault w) (length event_count) = false ->
  batch_commit event_count w
  = (Ok tt, attempted w event_count (foldl upsert (durable w) event_count)).
Proof. intros H. by rewrite batch_commit_spec, H, data_of_id. Qed.

Lemma batch_commit_no_faults (event_count : dict) (w : world) :
  faults w = [] ->
  batch_commit event_count w
  = (Ok tt, mkworld (foldl upsert (durable w) event_count) []
                    (calls w ++ [event_count]) (queries w)).
Proof.
  intros H. rewrite batch_commit_ok; unfold next_fault, attempted; by rewrite H.
Qed.

(** ** The flush *)

Section Flush.

Variable parse : string -> result datetime.
Variable local_utcoffset : datetime -> Z.

Lemma flush_if_full_below (threshold : nat) (event_count : dict) (w : world) :
  (dict_len event_count < threshold)%nat ->
  flush_if_full threshold event_count w = (Ok tt, event_count, w).
Proof.
  intros H. unfold flush_if_full.
  by destruct (Nat.leb_spec threshold (dict_len event_count)); [lia |].
Qed.

Lemma flush_if_full_due (threshold : nat) (event_count : dict) (w : world) :
  (threshold <= dict_len event_count)%nat ->
  flush_if_full threshold event_count w
  = if fails (next_fault w) (length event_count)
    then (Raise OperationalError, event_count, attempted w event_count (durable w))
    else (Ok tt, [], attempted w event_count (foldl upsert (durable w) event_count)).
Proof.
  intros H. unfold flush_if_full.
  destruct (Nat.leb_spec threshold (dict_len event_count)); [| lia].
  rewrite batch_commit_spec, data_of_id.
  by destruct (fails (next_fault w) (length event_count)).
Qed.

(** Every attempt is put on record, whatever its outcome. *)
Lemma flush_if_full_calls (threshold : nat) (event_count : dict) (w : world) :
  calls (flush_if_full threshold event_count w).2
  = if (threshold <=? dict_len event_count)%nat
    then (calls w ++ [data_of event_count])%list else calls w.
Proof.
  destruct (Nat.leb_spec threshold (dict_len event_count)) as [Hle|Hlt].
  - rewrite flush_if_full_due, data_of_id by done.
    by destruct (fails (next_fault w) (length event_count)).
  - by rewrite flush_if_full_below.
Qed.

Lemma process_row_calls (threshold : nat) (r : row) (event_count : dict) (w : world) :
  calls (process_row parse local_utcoffset threshold r event_count w).2
  = calls (flush_if_full threshold event_count w).2.
Proof.
  unfold process_row.
  destruct (flush_if_full threshold event_count w) as [[[[]|e] ec] w']; [| done].
  by destruct (rfc_to_utc_dt parse local_utcoffset (timestamp r)).
Qed.

End Flush.

(** ** The buffer *)

Lemma dict_get_None (d : dict) (k : key) : dict_get d k = None <-> k ∉ d.*1.
Proof.
  induction d as [|[k' v] d IH]; simpl.
  - split; [intros _; apply not_elem_of_nil | done].
  - destruct (decide (k' = k)) as [->|Hne].
    + split; [done |]. intros H. destruct H. by left.
    + rewrite IH, not_elem_of_cons. split; [by intros ? | by intros [_ ?]].
Qed.

Lemma dict_set_keys (d : dict) (k : key) (v : Z) :
  (dict_set d k v).*1 = if decide (k ∈ d.*1) then d.*1 else (d.*1 ++ [k])%list.
Proof.
  induction d as [|[k' v'] d IH].
  - simpl. destruct (decide (k ∈ [])) as [H|_]; [by apply elem_of_nil in H | done].
  - cbn [dict_set]. rewrite fmap_cons. cbn [fst].
    destruct (decide (k' = k)) as [Heq|Hne].
    + subst k'. rewrite fmap_cons. cbn [fst].
      destruct (decide (k ∈ k :: d.*1)) as [_|H]; [done |]. destruct H. by left.
    + rewrite fmap_cons, IH. cbn [fst]. destruct (decide (k ∈ d.*1)) as [Hin|Hnin].
      * destruct (decide (k ∈ k' :: d.*1)) as [_|H]; [done |]. destruct H. by right.
      * destruct (decide (k ∈ k' :: d.*1)) as [H|_]; [| done].
        apply elem_of_cons in H as [-> | H]; done.
Qed.

Lemma dict_set_fresh (d : dict) (k : key) (v : Z) :
  k ∉ d.*1 -> dict_set d k v = (d ++ [(k, v)])%list.
Proof.
  induction d as [|[k' v'] d IH]; simpl; intros H; [done |].
  apply not_elem_of_cons in H as [Hne H].
  destruct (decide (k' = k)); [congruence |]. by rewrite IH.
Qed.

Lemma dict_incr_fresh (d : dict) (k : key) :
  k ∉ d.*1 -> dict_incr d k = (d ++ [(k, 1)])%list.
Proof.
  intros H. unfold dict_incr. rewrite dict_set_fresh by done.
  apply dict_get_None in H. by rewrite H.
Qed.

Lemma dict_incr_NoDup (d : dict) (k : key) : NoDup d.*1 -> NoDup (dict_incr d k).*1.
Proof.
  intros H. unfold dict_incr. rewrite dict_set_keys.
  destruct (decide (k ∈ d.*1)); [done |].
  apply NoDup_app. split; [done |]. split; [| apply NoDup_singleton].
  intros x Hx Hx'. apply list_elem_of_singleton in Hx'. by subst.
Qed.

Lemma dict_incr_len (d : dict) (k : key) :
  dict_len (dict_incr d k) = if decide (k ∈ d.*1) then dict_len d else S (dict_len d).
Proof.
  unfold dict_len, dict_incr.
  rewrite <- (length_fmap fst (dict_set _ _ _)), dict_set_keys.
  destruct (decide (k ∈ d.*1)); [by rewrite length_fmap |].
  rewrite length_app, length_fmap. simpl. lia.
Qed.

(** ** The ingestion loop *)

Section Ingestion.

Variable parse : string -> result datetime.
Variable local_utcoffset : datetime -> Z.

Lemma row_key_Ok (r : row) (k : key) :
  row_key parse local_utcoffset r = Ok k ->
  exists utc_dt, rfc_to_utc_dt parse local_utcoffset (timestamp r) = Ok utc_dt
                 /\ k = (customer_id r, replace_second_microsecond utc_dt 0 0).
Proof.
  unfold row_key.
  destruct (rfc_to_utc_dt parse local_utcoffset (timestamp r)) as [utc_dt|e]; simpl; [| done].
  intros [= <-]. by exists utc_dt.
Qed.

Lemma process_rows_app (threshold : nat) (rows1 rows2 : list row) (event_count : dict) (w : world) :
  process_rows parse local_utcoffset threshold (rows1 ++ rows2)%list event_count w
  = match process_rows parse local_utcoffset threshold rows1 event_count w with
    | (Ok _, event_count', w') => process_rows parse local_utcoffset threshold rows2 event_count' w'
    | (Raise e, event_count', w') => (Raise e, event_count', w')
    end.
Proof.
  revert event_count w. induction rows1 as [|r rows1 IH]; intros event_count w; simpl; [done |].
  destruct (process_row parse local_utcoffset threshold r event_count w) as [[[[]|e] ec1] w1]; [apply IH | done].
Qed.

(** One turn of the loop keeps the keys distinct and their number within
    the threshold. *)
Lemma process_row_inv (threshold : nat) (r : row) (event_count : dict) (w : world) :
  (1 <= threshold)%nat ->
  NoDup event_count.*1 -> (dict_len event_count <= threshold)%nat ->
  NoDup (process_row parse local_utcoffset threshold r event_count w).1.2.*1
  /\ (dict_len (process_row parse local_utcoffset threshold r event_count w).1.2 <= threshold)%nat.
Proof.
  intros Ht Hnd Hlen. unfold process_row.
  destruct (Nat.leb_spec threshold (dict_len event_count)) as [Hdue|Hbelow].
  - rewrite flush_if_full_due by done.
    destruct (fails (next_fault w) (length event_count)); [done |].
    destruct (rfc_to_utc_dt parse local_utcoffset (timestamp r)) as [utc_dt|e]; simpl.
    + split; [apply NoDup_singleton | lia].
    + split; [apply NoDup_nil_2 | lia].
  - rewrite flush_if_full_below by done.
    destruct (rfc_to_utc_dt parse local_utcoffset (timestamp r)) as [utc_dt|e]; cbn [fst snd].
    + split; [by apply dict_incr_NoDup |].
      rewrite dict_incr_len. destruct (decide _); lia.
    + split; [done | lia].
Qed.

Lemma process_rows_inv (threshold : nat) (rows : list row) (event_count : dict) (w : world) :
  (1 <= threshold)%nat ->
  NoDup event_count.*1 -> (dict_len event_count <= threshold)%nat ->
  NoDup (process_rows parse local_utcoffset threshold rows event_count w).1.2.*1
  /\ (dict_len (process_rows parse local_utcoffset threshold rows event_count w).1.2 <= threshold)%nat.
Proof.
  intros Ht. revert event_count w.
  induction rows as [|r rows IH]; intros event_count w Hnd Hlen; simpl; [done |].
  pose proof (process_row_inv threshold r event_count w Ht Hnd Hlen) as [Hnd1 Hlen1].
  destruct (process_row parse local_utcoffset threshold r event_count w) as [[[[]|e] ec1] w1]; [by apply IH | done].
Qed.

(** Without storage failures the loop keeps the world free of them, and
    the durable table is the one it started from with the batches handed
    to [executemany] merged in, in order. *)
Lemma process_rows_no_faults (threshold : nat) (rows : list row) (event_count : dict) (w : world) :
  faults w = [] ->
  faults (process_rows parse local_utcoffset threshold rows event_count w).2 = []
  /\ exists bs, calls (process_rows parse local_utcoffset threshold rows event_count w).2 = (calls w ++ bs)%list
                /\ durable (process_rows parse local_utcoffset threshold rows event_count w).2
                   = merge_all (durable w) bs.
Proof.
  revert event_count w. induction rows as [|r rows IH]; intros event_count w Hf; simpl.
  - split; [done |]. exists []. by rewrite app_nil_r.
  - assert (Hrow : faults (process_row parse local_utcoffset threshold r event_count w).2 = []
              /\ exists bs, calls (process_row parse local_utcoffset threshold r event_count w).2 = (calls w ++ bs)%list
                   /\ durable (process_row parse local_utcoffset threshold r event_count w).2
                      = merge_all (durable w) bs).
    { unfold process_row, flush_if_full.
      destruct (threshold <=? dict_len event_count)%nat.
      - rewrite (batch_commit_no_faults _ _ Hf).
        destruct (rfc_to_utc_dt parse local_utcoffset (timestamp r)); simpl;
          (split; [done | by exists [event_count]]).
      - destruct (rfc_to_utc_dt parse local_utcoffset (timestamp r)); simpl;
          (split; [done | exists []; by rewrite app_nil_r]). }
    destruct (process_row parse local_utcoffset threshold r event_count w) as [[[[]|e] ec1] w1]; [| done].
    simpl in Hrow. destruct Hrow as (Hf1 & bs1 & Hc1 & Hd1).
    destruct (IH ec1 w1 Hf1) as (Hf2 & bs2 & Hc2 & Hd2).
    split; [done |]. exists (bs1 ++ bs2)%list.
    rewrite Hc2, Hc1, Hd2, Hd1, app_assoc. split; [done |].
    unfold merge_all. by rewrite foldl_app.
Qed.

(** Rows with fresh, pairwise distinct keys that fit under the threshold
    are appended to the buffer, one count each, without any flush. *)
Lemma process_rows_fresh (threshold : nat) (rows : list row) (ks : list key)
    (event_count : dict) (w : world) :
  Forall2 (fun r k => row_key parse local_utcoffset r = Ok k) rows ks ->
  NoDup (event_count.*1 ++ ks) ->
  (dict_len event_count + length rows <= threshold)%nat ->
  process_rows parse local_utcoffset threshold rows event_count w
  = (Ok tt, (event_count ++ map (fun k => (k, 1)) ks)%list, w).
Proof.
  intros Hkeys. revert event_count.
  induction Hkeys as [|r k rows ks Hk _ IH]; intros event_count Hnd Hlen; simpl.
  - by rewrite app_nil_r.
  - simpl in Hlen. apply row_key_Ok in Hk as (utc_dt & Hdt & ->).
    unfold process_row. rewrite flush_if_full_below by lia. rewrite Hdt.
    set (k := (customer_id r, replace_second_microsecond utc_dt 0 0)) in *.
    assert (Hfresh : k ∉ event_count.*1).
    { apply NoDup_app in Hnd as (_ & Hdisj & _). intros Hin.
      apply (Hdisj k Hin). by left. }
    rewrite dict_incr_fresh by done.
    rewrite IH.
    + by rewrite <- app_assoc.
    + rewrite fmap_app, <- app_assoc. simpl. done.
    + unfold dict_len in *. rewrite length_app. simpl. lia.
Qed.

End Ingestion.

(** C10.  Whatever rows [process_csv] has gone through so far, the buffer
    holds pairwise distinct keys and at most 1000 of them; the state after
    a prefix of the input is the state the run on the whole input passes
    through. *)
Theorem buffer_at_most_1000
    (parse : string -> result datetime) (local_utcoffset : datetime -> Z)
    (done_rows rest : list row) (w : world) :
  let state := process_rows parse local_utcoffset 1000 done_rows [] w in
  NoDup state.1.2.*1
  /\ (dict_len state.1.2 <= 1000)%nat
  /\ process_rows parse local_utcoffset 1000 (done_rows ++ rest)%list [] w
     = match state with
       | (Ok _, event_count, w') => process_rows parse local_utcoffset 1000 rest event_count w'
       | (Raise e, event_count, w') => (Raise e, event_count, w')
       end.
Proof.
  intros state.
  destruct (process_rows_inv parse local_utcoffset 1000 done_rows [] w) as [Hnd Hlen].
  - lia.
  - apply NoDup_nil_2.
  - simpl. lia.
  - repeat split; [exact Hnd | exact Hlen | apply process_rows_app].
Qed.

(** C1.  In a turn of the loop of [process_csv] a batch is handed to the
    store exactly when the buffer holds 1000 keys or more at the head of
    the turn, before the row is looked at; when the loop is over, the
    buffer is committed once more whatever it holds.  For any threshold of
    at least one: after as many rows with pairwise distinct keys as the
    threshold and one more row with yet another key, exactly two batches
    have been handed over, the first with the keys of the first rows, the
    second with the last key alone; threshold 2 and three events, one for
    each of three keys, is the case of the specification.  Committing an
    empty buffer leaves every durable row as it was. *)
Theorem flush_when_threshold_reached
    (parse : string -> result datetime) (local_utcoffset : datetime -> Z) :
  (forall r event_count w,
      calls (process_row parse local_utcoffset 1000 r event_count w).2
      = if (1000 <=? dict_len event_count)%nat
        then (calls w ++ [data_of event_count])%list
        else calls w)
  /\ (forall rows w event_count w',
        process_rows parse local_utcoffset 1000 rows [] w = (Ok tt, event_count, w') ->
        process_csv parse local_utcoffset rows w = batch_commit event_count w'
        /\ calls (process_csv parse local_utcoffset rows w).2
           = (calls w' ++ [data_of event_count])%list)
  /\ (forall threshold first last ks k w,
        (1 <= threshold)%nat ->
        length first = threshold ->
        Forall2 (fun r k => row_key parse local_utcoffset r = Ok k) first ks ->
        row_key parse local_utcoffset last = Ok k ->
        NoDup (ks ++ [k]) ->
        faults w = [] ->
        exists w',
          ingest parse local_utcoffset threshold (first ++ [last])%list w = (Ok tt, w')
          /\ calls w' = (calls w ++ [map (fun k => (k, 1)) ks; [(k, 1)]])%list
          /\ durable w'
             = merge_all (durable w) [map (fun k => (k, 1)) ks; [(k, 1)]])
  /\ (forall w, durable (batch_commit [] w).2 = durable w).
Proof.
  split; [| split; [| split]].
  - intros r event_count w. by rewrite process_row_calls, flush_if_full_calls.
  - intros rows w event_count w' Hloop. unfold process_csv, ingest. rewrite Hloop.
    split; [done |]. rewrite batch_commit_spec. by destruct (fails _ _).
  - intros threshold first last ks k w Ht Hlen Hkeys Hk Hnd Hf.
    unfold ingest. rewrite process_rows_app.
    rewrite (process_rows_fresh parse local_utcoffset threshold first ks [] w Hkeys);
      [| by apply NoDup_app in Hnd as (? & _) | simpl; lia].
    simpl app. set (batch := map (fun k0 : key => (k0, 1)) ks).
    assert (Hbl : dict_len batch = threshold).
    { unfold dict_len, batch. rewrite length_map.
      by rewrite <- (Forall2_length _ _ _ Hkeys). }
    apply row_key_Ok in Hk as (utc_dt & Hdt & ->).
    cbn [process_rows]. unfold process_row.
    rewrite flush_if_full_due by lia.
    assert (Hnf : fails (next_fault w) (length batch) = false)
      by (unfold next_fault; by rewrite Hf).
    rewrite Hnf, Hdt.
    rewrite batch_commit_no_faults by (unfold attempted; simpl; by rewrite Hf).
    eexists. split; [reflexivity |]. simpl. unfold attempted. simpl.
    by rewrite <- app_assoc.
  - intros w. rewrite batch_commit_spec. by destruct (fails _ _).
Qed.

Lemma flush_when_threshold_reached_witness :
  let rows := [mkrow "c1" "click" "t1" "2021-03-01 14:15:30.500000+0000";
               mkrow "c1" "click" "t2" "2021-03-01 14:16:00.000000+00";
               mkrow "c2" "view" "t3" "2021-03-01 14:15:59.999999+0000"] in
  let m15 := mkdt 2021 3 1 14 15 0 0 (Some 0) in
  let m16 := mkdt 2021 3 1 14 16 0 0 (Some 0) in
  exists w',
    ingest parse_hour utc_machine 2 rows empty_world = (Ok tt, w')
    /\ calls w' = [[(("c1", m15), 1); (("c1", m16), 1)]; [(("c2", m15), 1)]].
Proof.
  intros rows m15 m16.
  destruct (flush_when_threshold_reached parse_hour utc_machine) as (_ & _ & H & _).
  destruct (H 2%nat (take 2 rows) (mkrow "c2" "view" "t3" "2021-03-01 14:15:59.999999+0000")
              [("c1", m15); ("c1", m16)] ("c2", m15) empty_world)
    as (w' & Hrun & Hcalls & _).
  - lia.
  - reflexivity.
  - repeat constructor.
  - reflexivity.
  - compute_done.
  - reflexivity.
  - exists w'. split; [exact Hrun | exact Hcalls].
Defined.

(** Three keys do not fix the batches: the check at the head of every
    turn counts keys, not rows, so a key that comes back changes what is
    handed over.  At a threshold of 2, with the three keys (c1, 14:15),
    (c1, 14:16) and (c2, 14:15): when the second key comes twice, the
    batch at the end holds two keys, the second one again; when the first
    two keys both come back before the third, two batches are handed over
    in the loop and a third at the end. *)
Lemma flush_when_threshold_reached_counterexample :
  let r1 := mkrow "c1" "click" "t1" "2021-03-01 14:15:30.500000+0000" in
  let r2 := mkrow "c1" "click" "t2" "2021-03-01 14:16:00.000000+00" in
  let r3 := mkrow "c2" "view" "t3" "2021-03-01 14:15:59.999999+0000" in
  let k1 := ("c1", mkdt 2021 3 1 14 15 0 0 (Some 0)) in
  let k2 := ("c1", mkdt 2021 3 1 14 16 0 0 (Some 0)) in
  let k3 := ("c2", mkdt 2021 3 1 14 15 0 0 (Some 0)) in
  (map (row_key parse_hour utc_machine) [r1; r2; r3] = [Ok k1; Ok k2; Ok k3]
   /\ NoDup [k1; k2; k3])
  /\ ((ingest parse_hour utc_machine 2 [r1; r2; r2; r3] empty_world).1 = Ok tt
      /\ calls (ingest parse_hour utc_machine 2 [r1; r2; r2; r3] empty_world).2
         = [[(k1, 1); (k2, 1)]; [(k2, 1); (k3, 1)]]
      /\ calls (ingest parse_hour utc_machine 2 [r1; r2; r2; r3] empty_world).2
         <> [[(k1, 1); (k2, 1)]; [(k3, 1)]])
  /\ ((ingest parse_hour utc_machine 2 [r1; r2; r1; r2; r3] empty_world).1 = Ok tt
      /\ calls (ingest parse_hour utc_machine 2 [r1; r2; r1; r2; r3] empty_world).2
         = [[(k1, 1); (k2, 1)]; [(k1, 1); (k2, 1)]; [(k3, 1)]]).
Proof.
  intros r1 r2 r3 k1 k2 k3.
  assert (H4 : calls (ingest parse_hour utc_machine 2 [r1; r2; r2; r3] empty_world).2
               = [[(k1, 1); (k2, 1)]; [(k2, 1); (k3, 1)]])
    by (vm_compute; reflexivity).
  split; [split; [vm_compute; reflexivity | compute_done] |].
  split; [split; [vm_compute; reflexivity | split; [exact H4 |]] |].
  - rewrite H4. discriminate.
  - split; vm_compute; reflexivity.
Qed.

(** C5.  A timestamp without any [+] makes [rfc_to_utc_dt] raise
    ValueError, the failure the specification calls MalformedTimestamp.
    When the loop has gone through the rows before such a row without a
    storage failure, the run ends there with that error: the rows after it
    are not read, the commit after the loop is not reached, and the world
    the run leaves is the one left by the threshold check of that turn.
    Its durable table is the initial one with the batches flushed so far
    merged in; the buffer of the moment, which is either what had been
    counted since the last flush or empty because the check has just
    flushed it, is handed to the store by nobody. *)
Theorem no_plus_aborts_ingestion
    (parse : string -> result datetime) (local_utcoffset : datetime -> Z)
    (threshold : nat) (before after : list row) (r : row)
    (w w1 : world) (event_count : dict) :
  (forall i, String.get i (timestamp r) <> Some "+"%char) ->
  faults w = [] ->
  process_rows parse local_utcoffset threshold before [] w = (Ok tt, event_count, w1) ->
  rfc_to_utc_dt parse local_utcoffset (timestamp r) = Raise ValueError
  /\ exists event_count' w',
       flush_if_full threshold event_count w1 = (Ok tt, event_count', w')
       /\ (event_count' = event_count /\ w' = w1 \/ event_count' = [])
       /\ process_rows parse local_utcoffset threshold (before ++ r :: after)%list [] w
          = (Raise ValueError, event_count', w')
       /\ ingest parse local_utcoffset threshold (before ++ r :: after)%list w
          = (Raise ValueError, w')
       /\ (threshold = 1000%nat ->
           process_csv parse local_utcoffset (before ++ r :: after)%list w
           = (Raise ValueError, w'))
       /\ exists flushed,
            calls w' = (calls w ++ flushed)%list
            /\ durable w' = merge_all (durable w) flushed.
Proof.
  intros Hplus Hf Hloop.
  pose proof (rfc_to_utc_dt_no_plus parse local_utcoffset _ Hplus) as Hbad.
  split; [exact Hbad |].
  pose proof (process_rows_no_faults parse local_utcoffset threshold before [] w Hf) as Hw1.
  rewrite Hloop in Hw1. simpl in Hw1. destruct Hw1 as (Hf1 & bs & Hc1 & Hd1).
  assert (Hflush : exists event_count' w',
            flush_if_full threshold event_count w1 = (Ok tt, event_count', w')
            /\ (event_count' = event_count /\ w' = w1 \/ event_count' = [])
            /\ exists flushed, calls w' = (calls w ++ flushed)%list
                 /\ durable w' = merge_all (durable w) flushed).
  { unfold flush_if_full. destruct (threshold <=? dict_len event_count)%nat.
    - rewrite (batch_commit_no_faults _ _ Hf1). do 2 eexists.
      split; [reflexivity |]. split; [by right |].
      exists (bs ++ [event_count])%list. simpl. rewrite Hc1, Hd1, app_assoc.
      split; [done |]. unfold merge_all. by rewrite foldl_app.
    - exists event_count, w1. split; [done |]. split; [by left |]. by exists bs. }
  destruct Hflush as (ec' & w' & Hflush & Hkind & Hdur).
  exists ec', w'. split; [exact Hflush |]. split; [exact Hkind |].
  assert (Hrun : process_rows parse local_utcoffset threshold (before ++ r :: after)%list [] w
                 = (Raise ValueError, ec', w')).
  { rewrite process_rows_app, Hloop. cbn [process_rows]. unfold process_row.
    by rewrite Hflush, Hbad. }
  split; [exact Hrun |].
  assert (Hing : ingest parse local_utcoffset threshold (before ++ r :: after)%list w
                 = (Raise ValueError, w'))
    by (unfold ingest; by rewrite Hrun).
  split; [exact Hing |]. split; [| exact Hdur].
  intros ->. exact Hing.
Qed.

Lemma no_plus_aborts_ingestion_witness :
  let before := [mkrow "c1" "click" "t1" "2021-03-01 14:15:30.500000+0000";
                 mkrow "c1" "click" "t2" "2021-03-01 14:16:00.000000+00";
                 mkrow "c2" "view" "t3" "2021-03-01 14:15:59.999999+0000"] in
  let bad := mkrow "c2" "view" "t4" "2021-03-01 14:17:00.000000" in
  let after := [mkrow "c3" "view" "t5" "2021-03-01 14:18:00.000000+0000"] in
  let m15 := mkdt 2021 3 1 14 15 0 0 (Some 0) in
  let m16 := mkdt 2021 3 1 14 16 0 0 (Some 0) in
  exists w',
    ingest parse_hour utc_machine 2 (before ++ bad :: after)%list empty_world
    = (Raise ValueError, w')
    /\ calls w' = [[(("c1", m15), 1); (("c1", m16), 1)]]
    /\ durable w' !! ("c1", m15) = Some 1
    /\ durable w' !! ("c2", m15) = None.
Proof.
  intros before bad after m15 m16.
  set (state := process_rows parse_hour utc_machine 2 before [] empty_world).
  assert (Hstate : state = (Ok tt, state.1.2, state.2)).
  { rewrite (surjective_pairing state) at 1. rewrite (surjective_pairing state.1) at 1.
    do 2 f_equal. }
  destruct (no_plus_aborts_ingestion parse_hour utc_machine 2 before after bad empty_world
              state.2 state.1.2)
    as (_ & ec' & w' & Hflush & _ & _ & Hing & _).
  - intros i. apply str_index_None. reflexivity.
  - reflexivity.
  - exact Hstate.
  - exists w'. split; [exact Hing |].
    assert (Hw' : w' = (flush_if_full 2 state.1.2 state.2).2) by by rewrite Hflush.
    rewrite Hw'. repeat split; vm_compute; reflexivity.
Defined.

(** ** The store in 64 bits *)

Lemma fits_int64_spec (n : Z) : fits_int64 n = true <-> int64_min <= n <= int64_max.
Proof. unfold fits_int64. rewrite andb_true_iff, !Z.leb_le. tauto. Qed.

Lemma sqlite_upsert_lookup (t : sqlite_table) (k : key) (n : Z) (k' : key) :
  sqlite_upsert t (k, n) !! k'
  = if decide (k = k')
    then Some (match t !! k with
               | Some old => sqlite_add old n
               | None => SqlInt n
               end)
    else t !! k'.
Proof.
  destruct k as [c m]. unfold sqlite_upsert.
  destruct (decide ((c, m) = k')) as [<-|Hne].
  - destruct (t !! (c, m)); by rewrite lookup_insert_eq.
  - destruct (t !! (c, m)); by rewrite lookup_insert_ne.
Qed.

(** The rows after the statements of a batch with distinct keys have run:
    the row of an entry is inserted or added to, every other row stays. *)
Lemma foldl_sqlite_upsert_lookup (data : list entry) (t : sqlite_table) (k : key) :
  NoDup data.*1 ->
  foldl sqlite_upsert t data !! k
  = match dict_get data k with
    | Some n => Some (match t !! k with
                      | Some old => sqlite_add old n
                      | None => SqlInt n
                      end)
    | None => t !! k
    end.
Proof.
  revert t. induction data as [|[k' n] data IH]; intros t Hnd; [done |].
  rewrite fmap_cons in Hnd. apply NoDup_cons in Hnd as [Hk' Hnd]. cbn [fst] in Hk'.
  cbn [foldl dict_get]. rewrite (IH _ Hnd), sqlite_upsert_lookup.
  destruct (decide (k' = k)) as [->|Hne].
  - apply dict_get_None in Hk'. by rewrite Hk'.
  - done.
Qed.

Lemma dict_get_NoDup (d : dict) (k : key) (n : Z) :
  NoDup d.*1 -> (k, n) ∈ d -> dict_get d k = Some n.
Proof.
  induction d as [|[k' n'] d IH]; intros Hnd Hin; [by apply elem_of_nil in Hin |].
  rewrite fmap_cons in Hnd. apply NoDup_cons in Hnd as [Hk' Hnd]. cbn [fst] in Hk'.
  cbn [dict_get]. apply elem_of_cons in Hin as [[= -> ->]|Hin].
  - by destruct (decide (k' = k')).
  - destruct (decide (k' = k)) as [->|_]; [| by apply IH].
    destruct Hk'. apply list_elem_of_fmap. by exists (k, n).
Qed.

(** What an [executemany] comes to: it stops at the first statement whose
    count cannot be bound or that the storage engine fails, and runs every
    statement otherwise. *)
Lemma sqlite_statements_spec (k : option nat) (t : sqlite_table) (data : list entry) :
  sqlite_statements k t data = (Ok tt, foldl sqlite_upsert t data)
  \/ exists e, (sqlite_statements k t data).1 = Raise e
               /\ (e = OperationalError \/ e = OverflowError).
Proof.
  revert k t. induction data as [|e data IH]; intros k t; [by left |].
  cbn [sqlite_statements foldl].
  destruct (fits_int64 e.2); cbn [negb]; [| right; exists OverflowError; by split; [| right]].
  destruct k as [[|k]|]; [right; exists OperationalError; by split; [| left] | apply IH..].
Qed.

Lemma sqlite_statements_bound (k : option nat) (t : sqlite_table) (data : list entry) :
  Forall (fun e => fits_int64 e.2 = true) data ->
  sqlite_statements k t data
  = match k with
    | Some k' => if (k' <? length data)%nat
                 then (Raise OperationalError, foldl sqlite_upsert t (take k' data))
                 else (Ok tt, foldl sqlite_upsert t data)
    | None => (Ok tt, foldl sqlite_upsert t data)
    end.
Proof.
  intros Hfit. revert k t. induction Hfit as [|e data He _ IH]; intros k t.
  - by destruct k as [[|k]|].
  - cbn [sqlite_statements foldl]. rewrite He. cbn [negb].
    destruct k as [[|k]|]; [done | | apply (IH None)].
    rewrite (IH (Some k)). cbn [length take foldl].
    change (S k <? S (length data))%nat with (k <? length data)%nat.
    by destruct (k <? length data)%nat.
Qed.

(** [sqlite_batch_commit] in one equation, for counts that can be bound. *)
Lemma sqlite_batch_commit_bound (event_count : dict) (f : option fault) (t : sqlite_table) :
  Forall (fun e => fits_int64 e.2 = true) event_count ->
  sqlite_batch_commit event_count f t
  = if fails f (length event_count)
    then (Raise OperationalError, t)
    else (Ok tt, foldl sqlite_upsert t event_count).
Proof.
  intros Hfit. unfold sqlite_batch_commit, sqlite_executemany, fails.
  rewrite data_of_id, sqlite_statements_bound by done.
  destruct f as [[k|]|]; try done.
  by destruct (k <? length event_count)%nat.
Qed.

(** C2.  On the store as SQLite keeps it: when the storage engine does not
    fail the call and every count of the batch fits in 64 bits,
    [batch_commit] returns and, for every entry (customer, minute, count)
    of the batch, a key without a durable row gets a row with
    event_count = count, a key whose row held the INTEGER old has
    old + count afterwards when that sum fits in 64 bits, and the rows of
    all other keys are as they were. *)
Theorem batch_commit_upserts (event_count : dict) (f : option fault) (t : sqlite_table) :
  NoDup event_count.*1 ->
  fails f (length event_count) = false ->
  Forall (fun e => fits_int64 e.2 = true) event_count ->
  exists t',
    sqlite_batch_commit event_count f t = (Ok tt, t')
    /\ (forall customer_id minute count,
          (customer_id, minute, count) ∈ event_count ->
          t !! (customer_id, minute) = None ->
          t' !! (customer_id, minute) = Some (SqlInt count))
    /\ (forall customer_id minute count old,
          (customer_id, minute, count) ∈ event_count ->
          t !! (customer_id, minute) = Some (SqlInt old) ->
          fits_int64 (old + count) = true ->
          t' !! (customer_id, minute) = Some (SqlInt (old + count)))
    /\ (forall k, k ∉ event_count.*1 -> t' !! k = t !! k).
Proof.
  intros Hnd Hok Hfit. eexists.
  split; [by rewrite sqlite_batch_commit_bound, Hok |].
  split; [| split].
  - intros c m n Hin Hnone.
    by rewrite foldl_sqlite_upsert_lookup, (dict_get_NoDup _ _ _ Hnd Hin), Hnone.
  - intros c m n old Hin Hold Hsum.
    rewrite foldl_sqlite_upsert_lookup, (dict_get_NoDup _ _ _ Hnd Hin), Hold by done.
    unfold sqlite_add. by rewrite Hsum.
  - intros k Hk. rewrite foldl_sqlite_upsert_lookup by done.
    apply dict_get_None in Hk. by rewrite Hk.
Qed.

Lemma batch_commit_upserts_witness :
  let m1 := mkdt 2021 3 1 14 15 0 0 (Some 0) in
  let m2 := mkdt 2021 3 1 14 16 0 0 (Some 0) in
  let t : sqlite_table := {[ ("c1", m1) := SqlInt 5 ]} in
  exists t',
    sqlite_batch_commit [(("c1", m1), 2); (("c1", m2), 3)] None t = (Ok tt, t')
    /\ t' !! ("c1", m1) = Some (SqlInt 7)
    /\ t' !! ("c1", m2) = Some (SqlInt 3)
    /\ t' !! ("c2", m1) = None.
Proof.
  intros m1 m2 t.
  destruct (batch_commit_upserts [(("c1", m1), 2); (("c1", m2), 3)] None t)
    as (t' & Hrun & Hnew & Hold & Hother).
  - compute_done.
  - reflexivity.
  - repeat (apply Forall_cons_2; [reflexivity |]). apply Forall_nil_2.
  - exists t'. split; [exact Hrun |]. repeat split.
    + apply (Hold "c1" m1 2 5); [by left | by vm_compute | reflexivity].
    + apply (Hnew "c1" m2 3); [by right; left | by vm_compute].
    + rewrite Hother; [by vm_compute |].
      compute_done.
Defined.

(** C2 does not hold of every count.  A count of 2^63 cannot be bound:
    the call raises OverflowError although the storage engine fails
    nothing, and the key, which had no row, has none afterwards.  And a
    count of 2 merged into a row that holds 2^63 - 1 does not leave the
    INTEGER 2^63 + 1: the sum does not fit, and the row holds a REAL. *)
Lemma batch_commit_upserts_counterexample :
  let k := ("c1", mkdt 2021 3 1 14 15 0 0 (Some 0)) in
  ((sqlite_batch_commit [(k, 2 ^ 63)] None ∅).1 = Raise OverflowError
   /\ (sqlite_batch_commit [(k, 2 ^ 63)] None ∅).2 !! k = None)
  /\ ((sqlite_batch_commit [(k, 2)] None {[ k := SqlInt (2 ^ 63 - 1) ]}).1 = Ok tt
      /\ (sqlite_batch_commit [(k, 2)] None {[ k := SqlInt (2 ^ 63 - 1) ]}).2 !! k
         = Some SqlReal
      /\ Some SqlReal <> Some (SqlInt (2 ^ 63 - 1 + 2))).
Proof.
  intros k. repeat split; try (vm_compute; reflexivity). discriminate.
Qed.

Lemma count_for_app (k : key) (d1 d2 : list entry) :
  count_for k (d1 ++ d2)%list = count_for k d1 + count_for k d2.
Proof. induction d1 as [|[k' n'] d1 IH]; simpl; [done | rewrite IH; lia]. Qed.

Lemma count_for_not_negative (k : key) (data : list entry) :
  Forall (fun e => 0 <= e.2) data -> 0 <= count_for k data.
Proof.
  induction 1 as [|[k' n] data Hn _ IH]; simpl in *; [lia |].
  destruct (decide (k' = k)); lia.
Qed.

(** Counts that are not negative, added one after the other to a row that
    holds an INTEGER or to no row, stay INTEGERs as long as their total
    fits: the row ends at what it held, or zero, plus the total. *)
Lemma foldl_sqlite_upsert_total (data : list entry) (t : sqlite_table) (k : key) (old : Z) :
  Forall (fun e => 0 <= e.2) data ->
  default (SqlInt 0) (t !! k) = SqlInt old ->
  int64_min <= old -> old + count_for k data <= int64_max ->
  foldl sqlite_upsert t data !! k
  = if decide (k ∈ data.*1) then Some (SqlInt (old + count_for k data)) else t !! k.
Proof.
  intros Hpos. revert t old.
  induction Hpos as [|[k' n] data Hn Hpos IH]; intros t old Hold Hlo Hhi.
  - simpl. by destruct (decide (k ∈ [])) as [H|_]; [apply elem_of_nil in H |].
  - cbn [foldl count_for snd] in *. rewrite fmap_cons. cbn [fst].
    pose proof (count_for_not_negative k data Hpos) as Hrest.
    destruct (decide (k' = k)) as [->|Hne].
    + assert (Hrow : sqlite_upsert t (k, n) !! k = Some (SqlInt (old + n))).
      { rewrite sqlite_upsert_lookup. destruct (decide (k = k)); [| done]. f_equal.
        destruct (t !! k) as [[old'|]|]; simpl in Hold; try done.
        - injection Hold as ->. unfold sqlite_add.
          destruct (fits_int64 (old + n)) eqn:Hfit; [done |].
          assert (fits_int64 (old + n) = true); [| congruence].
          apply fits_int64_spec. lia.
        - injection Hold as <-. reflexivity. }
      rewrite (IH _ (old + n)); [| by rewrite Hrow | lia | lia].
      destruct (decide (k ∈ k :: data.*1)) as [_|Hn']; [| destruct Hn'; by left].
      destruct (decide (k ∈ data.*1)) as [_|Hnot].
      * do 2 f_equal; lia.
      * rewrite Hrow, (count_for_notin _ _ Hnot). do 2 f_equal; lia.
    + assert (Hrow : sqlite_upsert t (k', n) !! k = t !! k).
      { rewrite sqlite_upsert_lookup. by destruct (decide (k' = k)). }
      rewrite (IH _ old); [| by rewrite Hrow | lia | lia]. rewrite Hrow.
      destruct (decide (k ∈ data.*1)) as [Hin|Hnot].
      * destruct (decide (k ∈ k' :: data.*1)) as [_|Hn']; [| destruct Hn'; by right].
        do 2 f_equal; lia.
      * destruct (decide (k ∈ k' :: data.*1)) as [Hin'|_]; [| done].
        apply elem_of_cons in Hin' as [->|?]; done.
Qed.

Lemma foldl_sqlite_upsert_notin (data : list entry) (t : sqlite_table) (k : key) :
  k ∉ data.*1 -> foldl sqlite_upsert t data !! k = t !! k.
Proof.
  revert t. induction data as [|[k' n] data IH]; intros t Hk; [done |].
  rewrite fmap_cons in Hk. apply not_elem_of_cons in Hk as [Hne Hk]. cbn [fst] in Hne.
  cbn [foldl]. rewrite (IH _ Hk), sqlite_upsert_lookup.
  destruct (decide (k' = k)); [by subst | done].
Qed.

(** C3.  On the store as SQLite keeps it, for counts that are not
    negative and totals that fit in 64 bits: two batches that both carry
    the key [k], with the counts [n1] and [n2]; after both are committed
    the durable count of [k] is the INTEGER that was there before, or
    zero, plus [n1 + n2]; committing them in the other order gives the
    same table, and so does any reordering of the entries inside either
    batch. *)
Theorem batch_commit_commutes (b1 b2 : dict) (t : sqlite_table) (k : key) (n1 n2 : Z) :
  NoDup b1.*1 -> NoDup b2.*1 ->
  (k, n1) ∈ b1 -> (k, n2) ∈ b2 ->
  Forall (fun e => 0 <= e.2 <= int64_max) (b1 ++ b2)%list ->
  (forall k', k' ∈ (b1 ++ b2)%list.*1 ->
              exists old, default (SqlInt 0) (t !! k') = SqlInt old
                          /\ int64_min <= old
                          /\ old + count_for k' (b1 ++ b2)%list <= int64_max) ->
  let both x y := (sqlite_batch_commit y None (sqlite_batch_commit x None t).2).2 in
  (exists old, default (SqlInt 0) (t !! k) = SqlInt old
               /\ both b1 b2 !! k = Some (SqlInt (old + (n1 + n2))))
  /\ both b1 b2 = both b2 b1
  /\ (forall b1' b2', b1' ≡ₚ b1 -> b2' ≡ₚ b2 -> both b1' b2' = both b1 b2).
Proof.
  intros Hnd1 Hnd2 Hk1 Hk2 Hcounts Hsums both.
  assert (Hperm : forall x y, (x ++ y)%list ≡ₚ (b1 ++ b2)%list ->
            forall k', both x y !! k'
                       = if decide (k' ∈ (b1 ++ b2)%list.*1)
                         then match default (SqlInt 0) (t !! k') with
                              | SqlInt old => Some (SqlInt (old + count_for k' (b1 ++ b2)%list))
                              | SqlReal => Some SqlReal
                              end
                         else t !! k').
  { intros x y Hxy k'.
    assert (Hall : Forall (fun e : entry => 0 <= e.2 <= int64_max) (x ++ y)%list) by by rewrite Hxy.
    apply Forall_app in Hall as [Hx Hy].
    assert (Hbind : forall d : dict, Forall (fun e : entry => 0 <= e.2 <= int64_max) d ->
                      Forall (fun e : entry => fits_int64 e.2 = true) d).
    { intros d Hd. eapply Forall_impl; [exact Hd |]. intros e He. apply fits_int64_spec.
      unfold int64_min. simpl in He. lia. }
    unfold both.
    rewrite (sqlite_batch_commit_bound x None t (Hbind _ Hx)). cbn [fails snd].
    rewrite (sqlite_batch_commit_bound y None _ (Hbind _ Hy)). cbn [fails snd].
    rewrite <- foldl_app.
    assert (Hkeys : k' ∈ (x ++ y)%list.*1 <-> k' ∈ (b1 ++ b2)%list.*1) by by rewrite Hxy.
    destruct (decide (k' ∈ (b1 ++ b2)%list.*1)) as [Hin|Hnot].
    - destruct (Hsums k' Hin) as (old & Hold & Hlo & Hhi). rewrite Hold.
      rewrite (foldl_sqlite_upsert_total _ t k' old); try done.
      + rewrite (count_for_perm k' _ _ Hxy).
        destruct (decide (k' ∈ (x ++ y)%list.*1)) as [_|Hn]; [done | by destruct Hn; apply Hkeys].
      + eapply Forall_impl; [apply Forall_app; split; [exact Hx | exact Hy] |].
        intros e He. simpl in He. lia.
      + by rewrite (count_for_perm k' _ _ Hxy).
    - apply foldl_sqlite_upsert_notin. by rewrite Hkeys. }
  assert (Hswap : (b2 ++ b1)%list ≡ₚ (b1 ++ b2)%list) by apply Permutation_app_comm.
  split; [| split].
  - assert (Hin : k ∈ (b1 ++ b2)%list.*1).
    { rewrite fmap_app. apply elem_of_app. left. apply list_elem_of_fmap. by exists (k, n1). }
    destruct (Hsums k Hin) as (old & Hold & _ & _). exists old. split; [done |].
    rewrite (Hperm b1 b2) by done. rewrite Hold.
    destruct (decide (k ∈ (b1 ++ b2)%list.*1)); [| done].
    by rewrite count_for_app, (count_for_NoDup _ _ _ Hnd1 Hk1), (count_for_NoDup _ _ _ Hnd2 Hk2).
  - apply map_eq. intros k'. by rewrite (Hperm b1 b2), (Hperm b2 b1).
  - intros b1' b2' Hp1 Hp2. apply map_eq. intros k'.
    rewrite (Hperm b1' b2'), (Hperm b1 b2); [done.. |]. by rewrite Hp1, Hp2.
Qed.

Lemma batch_commit_commutes_witness :
  let m1 := mkdt 2021 3 1 14 15 0 0 (Some 0) in
  let m2 := mkdt 2021 3 1 14 16 0 0 (Some 0) in
  let b1 := [(("c1", m1), 2); (("c1", m2), 3)] in
  let b2 := [(("c2", m1), 1); (("c1", m1), 4)] in
  let t : sqlite_table := {[ ("c1", m1) := SqlInt 5 ]} in
  let both x y := (sqlite_batch_commit y None (sqlite_batch_commit x None t).2).2 in
  both b1 b2 !! ("c1", m1) = Some (SqlInt 11) /\ both b1 b2 = both b2 b1.
Proof.
  intros m1 m2 b1 b2 t both.
  destruct (batch_commit_commutes b1 b2 t ("c1", m1) 2 4) as ((old & Hold & Hsum) & Hcomm & _).
  - compute_done.
  - compute_done.
  - by left.
  - by right; left.
  - repeat (apply Forall_cons_2; [by vm_compute |]). apply Forall_nil_2.
  - intros k' Hk'.
    assert (Hcases : k' = ("c1", m1) \/ k' = ("c1", m2) \/ k' = ("c2", m1)).
    { unfold b1, b2 in Hk'. simpl in Hk'.
      repeat (apply elem_of_cons in Hk' as [Hk' | Hk']; [tauto |]).
      by apply elem_of_nil in Hk'. }
    destruct Hcases as [-> | [-> | ->]].
    + exists 5. by vm_compute.
    + exists 0. by vm_compute.
    + exists 0. by vm_compute.
  - split; [| exact Hcomm].
    assert (Hfive : old = 5).
    { assert (H5 : default (SqlInt 0) (t !! ("c1", m1)) = SqlInt 5) by (vm_compute; reflexivity).
      rewrite H5 in Hold. by injection Hold as <-. }
    fold (both b1 b2) in Hsum. rewrite Hsum, Hfive. reflexivity.
Defined.

(** C3 does not hold of every count.  From an empty table, the batches
    {k: 2^63 - 1} and {k: 2} do not leave the sum of the increments,
    2^63 + 1, which does not fit in 64 bits: the row holds a REAL.  And of
    the batches {k: 2^63} and {k: 1} the first cannot be bound, so that
    the row holds 1. *)
Lemma batch_commit_commutes_counterexample :
  let k := ("c1", mkdt 2021 3 1 14 15 0 0 (Some 0)) in
  let both x y := (sqlite_batch_commit y None (sqlite_batch_commit x None ∅).2).2 in
  (both [(k, 2 ^ 63 - 1)] [(k, 2)] !! k = Some SqlReal
   /\ Some SqlReal <> Some (SqlInt (2 ^ 63 - 1 + 2)))
  /\ (both [(k, 2 ^ 63)] [(k, 1)] !! k = Some (SqlInt 1)
      /\ Some (SqlInt 1) <> Some (SqlInt (2 ^ 63 + 1))).
Proof.
  intros k both. repeat split; try (vm_compute; reflexivity); discriminate.
Qed.

Lemma dict_get_elem (d : dict) (k : key) (v : Z) : dict_get d k = Some v -> (k, v) ∈ d.
Proof.
  induction d as [|[k' v'] d IH]; simpl; [done |].
  destruct (decide (k' = k)) as [->|_]; [intros [= ->]; by left | right; by apply IH].
Qed.

(** *** The two models of the store agree

    For a buffer whose counts and sums fit in 64 bits, [batch_commit] on a
    table of integers is [sqlite_batch_commit] on the same table. *)
Lemma foldl_upsert_is_sqlite (event_count : dict) (t : table) :
  NoDup event_count.*1 -> in_int64 t event_count ->
  foldl sqlite_upsert (SqlInt <$> t) event_count = SqlInt <$> foldl upsert t event_count.
Proof.
  intros Hnd Hfit. apply map_eq. intros k.
  rewrite foldl_sqlite_upsert_lookup, !lookup_fmap, foldl_upsert_lookup by done.
  destruct (dict_get event_count k) as [n|] eqn:Hget.
  - apply dict_get_elem in Hget.
    assert (Hin : k ∈ event_count.*1) by (apply list_elem_of_fmap; by exists (k, n)).
    destruct (decide (k ∈ event_count.*1)); [| done]. simpl.
    rewrite (count_for_NoDup _ _ _ Hnd Hget).
    unfold in_int64 in Hfit. rewrite Forall_forall in Hfit.
    destruct (Hfit _ Hget) as [_ Hsum]. cbn [fst snd] in Hsum.
    destruct (t !! k) as [old|]; simpl in *; [by rewrite Hsum | done].
  - apply dict_get_None in Hget. by destruct (decide (k ∈ event_count.*1)).
Qed.

Lemma batch_commit_is_sqlite (event_count : dict) (w : world) :
  NoDup event_count.*1 -> in_int64 (durable w) event_count ->
  sqlite_batch_commit event_count (next_fault w) (SqlInt <$> durable w)
  = ((batch_commit event_count w).1, SqlInt <$> durable (batch_commit event_count w).2).
Proof.
  intros Hnd Hfit.
  rewrite sqlite_batch_commit_bound, batch_commit_spec, data_of_id.
  - destruct (fails (next_fault w) (length event_count)); cbn [fst snd attempted durable].
    + done.
    + by rewrite foldl_upsert_is_sqlite.
  - eapply Forall_impl; [exact Hfit |]. by intros e [He _].
Qed.

Section AllOrNothing.

Variable parse : string -> result datetime.
Variable local_utcoffset : datetime -> Z.

(** The loop after rows that left it with the buffer and the world of the
    moment goes on from there. *)
Lemma process_rows_resume (threshold : nat) (rows0 rows1 : list row)
    (ec0 event_count : dict) (w0 w : world) :
  process_rows parse local_utcoffset threshold rows0 ec0 w0 = (Ok tt, event_count, w) ->
  process_rows parse local_utcoffset threshold (rows0 ++ rows1)%list ec0 w0
  = process_rows parse local_utcoffset threshold rows1 event_count w.
Proof. intros H0. by rewrite process_rows_app, H0. Qed.

End AllOrNothing.

(** C6.  A flush is all-or-nothing.  On the store as SQLite keeps it,
    whatever the counts are and whatever the storage engine does,
    [batch_commit] either returns, and then every entry of the batch has
    been inserted or added to its row and the other rows are as they were,
    or raises (the storage engine's error, or OverflowError for a count
    that cannot be bound), and then the durable table is the one it found,
    with none of the entries applied.  For a buffer whose counts and sums
    fit in 64 bits this is what [batch_commit] does in the loop: when the
    storage engine does not fail the call, every entry is in the table,
    a key ending at what it held, or zero, plus its count, and a flush that
    was due has cleared the buffer; when it does, the error is raised out
    of [batch_commit], out of the loop and out of the whole ingestion, the
    durable table is what it was and the buffer still holds the same
    entries.  The commit after the loop is all-or-nothing in the same way,
    whatever the number of keys in the buffer. *)
Theorem flush_all_or_nothing
    (parse : string -> result datetime) (local_utcoffset : datetime -> Z)
    (threshold : nat) (event_count : dict) (w : world) :
  NoDup event_count.*1 ->
  (forall f t,
      ((sqlite_batch_commit event_count f t).1 = Ok tt
       /\ (forall k n,
             (k, n) ∈ event_count ->
             (sqlite_batch_commit event_count f t).2 !! k
             = Some (match t !! k with
                     | Some old => sqlite_add old n
                     | None => SqlInt n
                     end))
       /\ (forall k, k ∉ event_count.*1 ->
                     (sqlite_batch_commit event_count f t).2 !! k = t !! k))
      \/ (exists e, sqlite_batch_commit event_count f t = (Raise e, t)
                    /\ (e = OperationalError \/ e = OverflowError)))
  /\ (in_int64 (durable w) event_count ->
      sqlite_batch_commit event_count (next_fault w) (SqlInt <$> durable w)
      = ((batch_commit event_count w).1, SqlInt <$> durable (batch_commit event_count w).2)
      /\ ((fails (next_fault w) (length event_count) = false
           /\ exists w',
                batch_commit event_count w = (Ok tt, w')
                /\ (forall k n, (k, n) ∈ event_count ->
                                durable w' !! k = Some (default 0 (durable w !! k) + n))
                /\ (forall k, k ∉ event_count.*1 -> durable w' !! k = durable w !! k)
                /\ ((threshold <= dict_len event_count)%nat ->
                    flush_if_full threshold event_count w = (Ok tt, [], w'))
                /\ (forall rows0 w0,
                      process_rows parse local_utcoffset threshold rows0 [] w0
                      = (Ok tt, event_count, w) ->
                      ingest parse local_utcoffset threshold rows0 w0 = (Ok tt, w')))
          \/ (fails (next_fault w) (length event_count) = true
              /\ exists w',
                   batch_commit event_count w = (Raise OperationalError, w')
                   /\ durable w' = durable w
                   /\ ((threshold <= dict_len event_count)%nat ->
                       flush_if_full threshold event_count w
                       = (Raise OperationalError, event_count, w')
                       /\ (forall r rows,
                             process_rows parse local_utcoffset threshold (r :: rows)
                               event_count w
                             = (Raise OperationalError, event_count, w'))
                       /\ (forall r rows rows0 w0,
                             process_rows parse local_utcoffset threshold rows0 [] w0
                             = (Ok tt, event_count, w) ->
                             ingest parse local_utcoffset threshold (rows0 ++ r :: rows)%list w0
                             = (Raise OperationalError, w')))
                   /\ (forall rows0 w0,
                         process_rows parse local_utcoffset threshold rows0 [] w0
                         = (Ok tt, event_count, w) ->
                         ingest parse local_utcoffset threshold rows0 w0
                         = (Raise OperationalError, w'))))).
Proof.
  intros Hnd. split.
  - intros f t. unfold sqlite_batch_commit, sqlite_executemany. rewrite data_of_id.
    set (k0 := match f with Some (StatementFails k) => Some k | _ => None end).
    destruct (sqlite_statements_spec k0 t event_count) as [Hrun|(e & Hrun & He)].
    + rewrite Hrun. destruct f as [[k|]|].
      * left. cbn [fst snd]. split; [done |]. split.
        -- intros k' n Hin.
           by rewrite foldl_sqlite_upsert_lookup, (dict_get_NoDup _ _ _ Hnd Hin).
        -- intros k' Hk'. by apply foldl_sqlite_upsert_notin.
      * right. exists OperationalError. split; [done | by left].
      * left. cbn [fst snd]. split; [done |]. split.
        -- intros k' n Hin.
           by rewrite foldl_sqlite_upsert_lookup, (dict_get_NoDup _ _ _ Hnd Hin).
        -- intros k' Hk'. by apply foldl_sqlite_upsert_notin.
    + right. exists e. split; [| done].
      destruct (sqlite_statements k0 t event_count) as [r t']. cbn [fst] in Hrun.
      by rewrite Hrun.
  - intros Hfit. split; [by apply batch_commit_is_sqlite |].
    pose proof (batch_commit_spec event_count w) as Hbc. rewrite data_of_id in Hbc.
    destruct (fails (next_fault w) (length event_count)) eqn:Hfails; [right | left].
    + split; [done |]. eexists. split; [exact Hbc |]. split; [done |]. split.
      * intros Hdue.
        pose proof (flush_if_full_due threshold event_count w Hdue) as Hflush.
        rewrite Hfails in Hflush. split; [exact Hflush |].
        assert (Hrow : forall r rows,
                  process_rows parse local_utcoffset threshold (r :: rows) event_count w
                  = (Raise OperationalError, event_count,
                     attempted w event_count (durable w))).
        { intros r rows. cbn [process_rows]. unfold process_row. by rewrite Hflush. }
        split; [exact Hrow |].
        intros r rows rows0 w0 H0. unfold ingest.
        by rewrite (process_rows_resume parse local_utcoffset _ _ _ _ _ _ _ H0), Hrow.
      * intros rows0 w0 H0. unfold ingest. by rewrite H0.
    + split; [done |]. eexists. split; [exact Hbc |]. cbn [attempted durable].
      split; [| split; [| split]].
      * intros k n Hin. rewrite foldl_upsert_lookup.
        destruct (decide (k ∈ event_count.*1)) as [_|Hn].
        -- by rewrite (count_for_NoDup _ _ _ Hnd Hin).
        -- destruct Hn. apply list_elem_of_fmap. by exists (k, n).
      * intros k Hk. rewrite foldl_upsert_lookup.
        by destruct (decide (k ∈ event_count.*1)).
      * intros Hdue. rewrite (flush_if_full_due threshold event_count w Hdue).
        by rewrite Hfails.
      * intros rows0 w0 H0. unfold ingest. by rewrite H0.
Qed.

Lemma flush_all_or_nothing_witness :
  let m1 := mkdt 2021 3 1 14 15 0 0 (Some 0) in
  let m2 := mkdt 2021 3 1 14 16 0 0 (Some 0) in
  let event_count := [(("c1", m1), 2); (("c1", m2), 3)] in
  let t : table := {[ ("c1", m1) := 5 ]} in
  let rows := [mkrow "c1" "click" "t1" "2021-03-01 14:15:30.500000+0000";
               mkrow "c1" "click" "t2" "2021-03-01 14:16:00.000000+00"] in
  (exists w',
      flush_if_full 2 event_count (mkworld t [] [] []) = (Ok tt, [], w')
      /\ durable w' !! ("c1", m1) = Some 7
      /\ durable w' !! ("c1", m2) = Some 3
      /\ durable w' !! ("c2", m1) = None)
  /\ (exists w',
        flush_if_full 2 event_count (mkworld t [Some (StatementFails 1)] [] [])
        = (Raise OperationalError, event_count, w')
        /\ durable w' = t)
  /\ (exists w',
        process_csv parse_hour utc_machine rows (mkworld t [Some CommitFails] [] [])
        = (Raise OperationalError, w')
        /\ durable w' = t)
  /\ sqlite_batch_commit [(("c1", m1), 2 ^ 63)] None (SqlInt <$> t)
     = (Raise OverflowError, SqlInt <$> t).
Proof.
  intros m1 m2 event_count t rows.
  assert (Hfit : forall fs, in_int64 (durable (mkworld t fs [] [])) event_count).
  { intros fs. repeat (apply Forall_cons_2; [split; vm_compute; reflexivity |]).
    apply Forall_nil_2. }
  assert (Hnd : NoDup event_count.*1) by compute_done.
  split; [| split; [| split]].
  - destruct (flush_all_or_nothing parse_hour utc_machine 2 event_count
                (mkworld t [] [] []) Hnd) as [_ Hloop].
    destruct (Hloop (Hfit [])) as [_ [(_ & w' & _ & Hin & Hout & Hflush & _) | (Hfails & _)]];
      [| discriminate Hfails].
    exists w'. split; [apply Hflush, le_n |]. cbn [durable] in Hin, Hout. repeat split.
    + rewrite (Hin ("c1", m1) 2); [by vm_compute | by left].
    + rewrite (Hin ("c1", m2) 3); [by vm_compute | by right; left].
    + rewrite Hout; [by vm_compute | compute_done].
  - destruct (flush_all_or_nothing parse_hour utc_machine 2 event_count
                (mkworld t [Some (StatementFails 1)] [] []) Hnd) as [_ Hloop].
    destruct (Hloop (Hfit _)) as [_ [(Hfails & _) | (_ & w' & _ & Hsame & Hdue & _)]];
      [discriminate Hfails |].
    exists w'. split; [apply Hdue, le_n | exact Hsame].
  - set (buffer := [(("c1", m1), 1); (("c1", m2), 1)]).
    destruct (flush_all_or_nothing parse_hour utc_machine 1000 buffer
                (mkworld t [Some CommitFails] [] [])) as [_ Hloop]; [compute_done |].
    assert (Hfit1 : in_int64 (durable (mkworld t [Some CommitFails] [] [])) buffer).
    { repeat (apply Forall_cons_2; [split; vm_compute; reflexivity |]). apply Forall_nil_2. }
    destruct (Hloop Hfit1) as [_ [(Hfails & _) | (_ & w' & _ & Hsame & _ & Hlast)]];
      [discriminate Hfails |].
    exists w'. split; [| exact Hsame].
    apply (Hlast rows (mkworld t [Some CommitFails] [] [])).
    apply (process_rows_fresh parse_hour utc_machine 1000 rows
             [("c1", m1); ("c1", m2)] [] (mkworld t [Some CommitFails] [] [])).
    + repeat (apply Forall2_cons_2; [vm_compute; reflexivity |]). apply Forall2_nil_2.
    + compute_done.
    + simpl. lia.
  - destruct (flush_all_or_nothing parse_hour utc_machine 2 [(("c1", m1), 2 ^ 63)]
                (mkworld t [] [] [])) as [Hstore _]; [compute_done |].
    destruct (Hstore None (SqlInt <$> t)) as [(Hok & _) | (e & Hraise & _)].
    + assert (H1 : (sqlite_batch_commit [(("c1", m1), 2 ^ 63)] None (SqlInt <$> t)).1
                   = Raise OverflowError) by (vm_compute; reflexivity).
      rewrite Hok in H1. discriminate H1.
    + assert (H1 : (sqlite_batch_commit [(("c1", m1), 2 ^ 63)] None (SqlInt <$> t)).1
                   = Raise OverflowError) by (vm_compute; reflexivity).
      rewrite Hraise in H1. cbn [fst] in H1. injection H1 as ->. exact Hraise.
Defined.

(** ** The query *)



(** No row belongs to the NULL customer. *)
Lemma in_range_null (s e : string) (r : key * Z) : in_range s e None r = false.
Proof. destruct r as [[c m] n]. unfold in_range. by rewrite andb_false_r. Qed.

Lemma filter_none {A : Type} (p : A -> bool) (l : list A) :
  (forall x, p x = false) -> filter (fun x => p x) l = [].
Proof.
  intros Hp. induction l as [|x l IH]; [done |].
  rewrite filter_cons. destruct (decide (p x)) as [Hx|_]; [| done].
  by rewrite Hp in Hx.
Qed.


Lemma select_hourly_null (t : table) (s e : string) : select_hourly t s e None = [].
Proof.
  unfold select_hourly. rewrite filter_none by apply in_range_null.
  simpl. apply map_to_list_empty.
Qed.

Section Queries.

Variable parse : string -> result datetime.
Variable local_utcoffset : datetime -> Z.

Lemma batch_commit_queries (event_count : dict) (w : world) :
  queries (batch_commit event_count w).2 = queries w.
Proof. rewrite batch_commit_spec. by destruct (fails _ _). Qed.

Lemma process_rows_queries (threshold : nat) (rows : list row) (event_count : dict) (w : world) :
  queries (process_rows parse local_utcoffset threshold rows event_count w).2 = queries w.
Proof.
  revert event_count w. induction rows as [|r rows IH]; intros event_count w; simpl; [done |].
  assert (Hrow : queries (process_row parse local_utcoffset threshold r event_count w).2
                 = queries w).
  { unfold process_row, flush_if_full.
    destruct (threshold <=? dict_len event_count)%nat.
    - pose proof (batch_commit_queries event_count w) as Hq.
      destruct (batch_commit event_count w) as [[[]|e] w1]; [| done].
      by destruct (rfc_to_utc_dt parse local_utcoffset (timestamp r)).
    - by destruct (rfc_to_utc_dt parse local_utcoffset (timestamp r)). }
  destruct (process_row parse local_utcoffset threshold r event_count w) as [[[[]|e] ec1] w1];
    [| done].
  by rewrite IH.
Qed.

Lemma process_csv_queries (rows : list row) (w : world) :
  queries (process_csv parse local_utcoffset rows w).2 = queries w.
Proof.
  unfold process_csv, ingest.
  pose proof (process_rows_queries 1000 rows [] w) as Hq.
  destruct (process_rows parse local_utcoffset 1000 rows [] w) as [[[[]|e] ec1] w1]; [| done].
  by rewrite batch_commit_queries.
Qed.

End Queries.

(** C9 fails on the route.  A request that gives start and end but no
    customer id is not answered with an error: the SELECT is executed with
    NULL for the customer and the answer is the empty mapping.  A request
    without start raises AttributeError inside the view, which is a server
    error.  The command line, given the same arguments, stops with its
    message before any SELECT. *)
Theorem route_runs_query_without_customer
    (parse : string -> result datetime) (local_utcoffset : datetime -> Z) (w : world) :
  hourly_event_count_route parse local_utcoffset
    [("start", "2021-03-01 14:30:00.000000+0000"); ("end", "2021-03-01 15:30:00.000000+0000")] w
  = (Ok ∅,
     mkworld (durable w) (faults w) (calls w)
       (queries w ++ [("2021-03-01 14:30:00+00:00", "2021-03-01 15:30:00+00:00", None)]))
  /\ hourly_event_count_route parse local_utcoffset
       [("customer_id", "c1"); ("end", "2021-03-01 15:30:00.000000+0000")] w
     = (Raise AttributeError, w)
  /\ (forall rows,
        (main parse local_utcoffset rows false None
              (Some "2021-03-01 14:30:00.000000+0000")
              (Some "2021-03-01 15:30:00.000000+0000") w).1
        = match (process_csv parse local_utcoffset rows w).1 with
          | Ok _ => MissingArgs
          | Raise e => Failed e
          end
        /\ queries (main parse local_utcoffset rows false None
                         (Some "2021-03-01 14:30:00.000000+0000")
                         (Some "2021-03-01 15:30:00.000000+0000") w).2
           = queries w).
Proof.
  split; [| split].
  - unfold hourly_event_count_route, hourly_event_count. cbn [args_get String.eqb Ascii.eqb Bool.eqb].
    unfold rfc_to_utc_dt_arg.
    replace (rfc_to_utc_dt parse local_utcoffset "2021-03-01 14:30:00.000000+0000")
      with (Ok (mkdt 2021 3 1 14 30 0 0 (Some 0))) by (vm_compute; reflexivity).
    replace (rfc_to_utc_dt parse local_utcoffset "2021-03-01 15:30:00.000000+0000")
      with (Ok (mkdt 2021 3 1 15 30 0 0 (Some 0))) by (vm_compute; reflexivity).
    cbn [fst snd]. rewrite select_hourly_null. cbn [collect].
    do 2 f_equal.
  - reflexivity.
  - intros rows. unfold main.
    pose proof (process_csv_queries parse local_utcoffset rows w) as Hq.
    destruct (process_csv parse local_utcoffset rows w) as [[[]|e] w1]; by split.
Qed.

(** ** The roll-up *)

Lemma append_assoc (a b c : string) : (a +:+ b) +:+ c = a +:+ (b +:+ c).
Proof.
  induction a as [|x a IH]; [done |].
  change (String x ((a +:+ b) +:+ c) = String x (a +:+ (b +:+ c))). by f_equal.
Qed.

Lemma append_inj_r (t a b : string) : a +:+ t = b +:+ t -> a = b.
Proof.
  intros H.
  assert (Hlen : String.length a = String.length b).
  { apply (f_equal String.length) in H. rewrite !length_append in H. lia. }
  revert b H Hlen. induction a as [|x a IH]; intros [|y b] H Hlen; simpl in *; try done.
  change (String x (a +:+ t) = String y (b +:+ t)) in H.
  injection H as -> H. f_equal. apply IH; [done | lia].
Qed.

(** The key the loop of [hourly_event_count] makes of an hour text, when
    [parse] reads that text as dateutil does. *)
Lemma hour_key_spec (parse : string -> result datetime) (m : datetime) :
  parse (strftime_hour m) = Ok (hour_start m) ->
  hour_key parse (strftime_hour m) = Ok (strftime_hour m +:+ hour_suffix).
Proof.
  intros H. unfold hour_key. rewrite H. reflexivity.
Qed.

(** The sum the GROUP BY gives for an hour: there is none when no row
    falls in the hour, else it is the total of the rows that do. *)
Lemma group_by_hour_lookup (rows : list (key * Z)) (h : string) :
  group_by_hour rows !! h
  = match filter (fun r => strftime_hour r.1.2 = h) rows with
    | [] => None
    | l => Some (total l)
    end.
Proof.
  induction rows as [|[[c m] n] rows IH]; [done |].
  cbn [group_by_hour]. rewrite filter_cons. cbn [fst snd].
  destruct (decide (strftime_hour m = h)) as [Heq|Hne].
  - subst h. rewrite lookup_insert_eq, IH.
    destruct (filter _ rows) as [|r l]; simpl; f_equal; unfold total; simpl; lia.
  - by rewrite lookup_insert_ne.
Qed.

Lemma group_by_hour_Some (rows : list (key * Z)) (h : string) (n : Z) :
  group_by_hour rows !! h = Some n -> exists r, r ∈ rows /\ strftime_hour r.1.2 = h.
Proof.
  rewrite group_by_hour_lookup.
  destruct (filter _ rows) as [|r l] eqn:Hf; [done |]. intros _.
  assert (Hr : r ∈ filter (fun r => strftime_hour r.1.2 = h) rows) by (rewrite Hf; by left).
  apply list_elem_of_filter in Hr as [Hh Hr]. by exists r.
Qed.

(** The loop over the fetched rows, when every hour text [h] among them
    is turned into the key [f h] and [f] keeps different hours apart. *)
Lemma collect_lookup (parse : string -> result datetime) (f : string -> string)
    (l : list (string * Z)) (acc : gmap string Z) :
  (forall h n, (h, n) ∈ l -> hour_key parse h = Ok (f h)) ->
  (forall h h', f h = f h' -> h = h') ->
  NoDup l.*1 ->
  exists res,
    collect parse l acc = Ok res
    /\ (forall h n, (h, n) ∈ l -> res !! f h = Some n)
    /\ (forall k, (forall h, h ∈ l.*1 -> f h <> k) -> res !! k = acc !! k).
Proof.
  intros Hkey Hinj. revert acc. induction l as [|[h n] l IH]; intros acc Hnd.
  - exists acc. split; [done |]. split; [| done]. intros h n Hin. by apply elem_of_nil in Hin.
  - rewrite fmap_cons in Hnd. apply NoDup_cons in Hnd as [Hh Hnd].
    cbn [collect]. rewrite (Hkey h n) by by left. simpl.
    destruct (IH (fun h' n' Hin => Hkey h' n' (list_elem_of_further _ _ _ Hin))
                 (<[f h := n]> acc) Hnd) as (res & Hres & Hin & Hout).
    exists res. split; [exact Hres |]. split.
    + intros h' n' Hin'. apply elem_of_cons in Hin' as [[= -> ->] | Hin']; [| by apply Hin].
      rewrite Hout; [by rewrite lookup_insert_eq |].
      intros h'' Hh'' Heq. apply Hinj in Heq. by subst.
    + intros k Hk. rewrite Hout.
      * rewrite lookup_insert_ne; [done |]. apply Hk. by left.
      * intros h' Hh'. apply Hk. by right.
Qed.

Lemma in_range_true (s e customer : string) (c : string) (m : datetime) (n : Z) :
  in_range s e (Some customer) ((c, m), n) = true
  <-> c = customer /\ String.leb s (isoformat m) = true /\ String.ltb (isoformat m) e = true.
Proof.
  unfold in_range. rewrite !andb_true_iff, String.eqb_eq. tauto.
Qed.

(** The answer of [hourly_event_count], for bounds that normalise and a
    [parse] that reads the hour texts of the stored rows as dateutil does. *)
Lemma hourly_event_count_spec
    (parse : string -> result datetime) (local_utcoffset : datetime -> Z)
    (w : world) (customer start end_ : string) (start_dt end_dt : datetime) :
  rfc_to_utc_dt parse local_utcoffset start = Ok start_dt ->
  rfc_to_utc_dt parse local_utcoffset end_ = Ok end_dt ->
  Forall (fun r => parse (strftime_hour r.1.2) = Ok (hour_start r.1.2))
         (map_to_list (durable w)) ->
  let in_bounds :=
    filter (fun r => in_range (isoformat start_dt) (isoformat end_dt) (Some customer) r)
           (map_to_list (durable w)) in
  exists res,
    hourly_event_count parse local_utcoffset (Some customer) (Some start) (Some end_) w
    = (Ok res,
       mkworld (durable w) (faults w) (calls w)
               (queries w ++ [(isoformat start_dt, isoformat end_dt, Some customer)]))
    /\ (forall h,
          res !! (h +:+ hour_suffix)
          = match filter (fun r => strftime_hour r.1.2 = h) in_bounds with
            | [] => None
            | l => Some (total l)
            end)
    /\ (forall k, (forall h, k <> h +:+ hour_suffix) -> res !! k = None).
Proof.
  intros Hs He Hparse in_bounds.
  unfold hourly_event_count, rfc_to_utc_dt_arg. rewrite Hs, He. cbn [fst snd].
  unfold select_hourly. fold in_bounds. set (G := group_by_hour in_bounds).
  destruct (collect_lookup parse (fun h => h +:+ hour_suffix) (map_to_list G) ∅)
    as (res & Hres & Hin & Hout).
  - intros h n Hhn. apply elem_of_map_to_list in Hhn.
    apply group_by_hour_Some in Hhn as ([[c m] k] & Hr & <-).
    apply list_elem_of_filter in Hr as [_ Hr].
    rewrite Forall_forall in Hparse. apply hour_key_spec. exact (Hparse _ Hr).
  - intros h h'. apply append_inj_r.
  - apply NoDup_fst_map_to_list.
  - exists res. rewrite Hres. split; [done |]. split.
    + intros h. rewrite <- group_by_hour_lookup. fold G.
      destruct (G !! h) as [n|] eqn:HG.
      * apply Hin. by apply elem_of_map_to_list.
      * rewrite Hout; [done |]. intros h' Hh' Heq. apply append_inj_r in Heq. subst h'.
        apply list_elem_of_fmap in Hh' as ([h0 n0] & -> & Hh0).
        apply elem_of_map_to_list in Hh0. simpl in HG. congruence.
    + intros k Hk. rewrite Hout; [done |]. intros h _ Heq. by apply (Hk h).
Qed.


(** ** The calendar

    Python's date arithmetic, as transcribed in [ymd2ord] and [ord2ymd]:
    the two are inverse to each other on the days from 0001-01-01 on. *)

Lemma all_from_spec (p : Z -> bool) (fuel : nat) (r i : Z) :
  all_from fuel r p = true -> r <= i < r + Z.of_nat fuel -> p i = true.
Proof.
  revert r. induction fuel as [|fuel IH]; intros r Hall Hi; [lia |].
  cbn [all_from] in Hall. apply andb_true_iff in Hall as [Hr Hall].
  destruct (Z.eq_dec i r) as [->|Hne]; [done |].
  apply (IH (r + 1)); [done | lia].
Qed.

Lemma month_day_checked (leap : bool) :
  all_from 365 0 (month_day_ok leap) = true.
Proof. destruct leap; vm_compute; reflexivity. Qed.

Lemma days_before_year_succ (y : Z) :
  days_before_year (y + 1) = days_before_year y + 365 + (if is_leap y then 1 else 0).
Proof.
  unfold days_before_year, is_leap. replace (y + 1 - 1) with y by lia.
  destruct (Z.eqb_spec (y mod 4) 0); destruct (Z.eqb_spec (y mod 100) 0);
    destruct (Z.eqb_spec (y mod 400) 0); cbn [negb andb orb];
    Z.div_mod_to_equations; lia.
Qed.

Lemma days_before_year_mono (y1 y2 : Z) :
  y1 <= y2 -> days_before_year y1 <= days_before_year y2.
Proof. unfold days_before_year. intros H. Z.div_mod_to_equations. lia. Qed.

Ltac month_cases m H :=
  assert (m = 1 \/ m = 2 \/ m = 3 \/ m = 4 \/ m = 5 \/ m = 6 \/ m = 7 \/ m = 8
          \/ m = 9 \/ m = 10 \/ m = 11 \/ m = 12) as H by lia;
  repeat (destruct H as [H | H]); subst m.

(** A month ends before the next one begins, and the year has 365 or 366
    days. *)
Lemma days_before_month_next (y m1 m2 : Z) :
  1 <= m1 -> m1 < m2 -> m2 <= 12 ->
  days_before_month y m1 + days_in_month y m1 <= days_before_month y m2.
Proof.
  intros H1 H12 H2. unfold days_before_month, days_in_month, month_offset, month_length.
  month_cases m1 Hm1; month_cases m2 Hm2; try lia; destruct (is_leap y); simpl; lia.
Qed.

Lemma days_before_month_end (y m : Z) :
  1 <= m <= 12 ->
  0 <= days_before_month y m
  /\ days_before_month y m + days_in_month y m <= 365 + (if is_leap y then 1 else 0).
Proof.
  intros H. unfold days_before_month, days_in_month, month_offset, month_length.
  month_cases m Hm; destruct (is_leap y); simpl; lia.
Qed.

(** The year that [ord2ymd] counts up from its quotients: the days before
    it, and whether it is a leap year. *)
Lemma year_of_quotients (a b c e : Z) :
  0 <= a -> 0 <= b <= 3 -> 0 <= c <= 24 -> 0 <= e <= 3 ->
  let y := a * 400 + 1 + b * 100 + c * 4 + e in
  days_before_year y = 146097 * a + 36524 * b + 1461 * c + 365 * e
  /\ is_leap y = (e =? 3) && (negb (c =? 24) || (b =? 3)).
Proof.
  intros Ha Hb Hc He y. subst y. split.
  - unfold days_before_year. Z.div_mod_to_equations. lia.
  - unfold is_leap.
    destruct (Z.eqb_spec e 3); destruct (Z.eqb_spec c 24); destruct (Z.eqb_spec b 3);
      cbn [negb andb orb];
      repeat match goal with
             | |- context [?x mod ?k =? 0] => destruct (Z.eqb_spec (x mod k) 0)
             end; cbn [negb andb orb]; try reflexivity;
      exfalso; Z.div_mod_to_equations; lia.
Qed.

(** The date of a day exists, and its ordinal is that day. *)
Lemma ord2ymd_spec (n : Z) :
  1 <= n ->
  let '(y, m, d) := ord2ymd n in
  1 <= y /\ 1 <= m <= 12 /\ 1 <= d <= days_in_month y m /\ ymd2ord y m d = n.
Proof.
  intros Hn. unfold ord2ymd. cbv zeta.
  pose proof (Z.div_mod (n - 1) 146097 ltac:(lia)) as E1.
  pose proof (Z.mod_pos_bound (n - 1) 146097 ltac:(lia)) as B1.
  pose proof (Z.div_pos (n - 1) 146097 ltac:(lia) ltac:(lia)) as Ha.
  set (a := (n - 1) / 146097) in *. set (n1 := (n - 1) mod 146097) in *.
  pose proof (Z.div_mod n1 36524 ltac:(lia)) as E2.
  pose proof (Z.mod_pos_bound n1 36524 ltac:(lia)) as B2.
  pose proof (Z.div_pos n1 36524 ltac:(lia) ltac:(lia)) as Hb.
  set (b := n1 / 36524) in *. set (n2 := n1 mod 36524) in *.
  pose proof (Z.div_mod n2 1461 ltac:(lia)) as E3.
  pose proof (Z.mod_pos_bound n2 1461 ltac:(lia)) as B3.
  pose proof (Z.div_pos n2 1461 ltac:(lia) ltac:(lia)) as Hc.
  set (c := n2 / 1461) in *. set (n3 := n2 mod 1461) in *.
  pose proof (Z.div_mod n3 365 ltac:(lia)) as E4.
  pose proof (Z.mod_pos_bound n3 365 ltac:(lia)) as B4.
  pose proof (Z.div_pos n3 365 ltac:(lia) ltac:(lia)) as He.
  set (e := n3 / 365) in *. set (r := n3 mod 365) in *.
  destruct (Z.eqb_spec e 4) as [He4|He4]; [| destruct (Z.eqb_spec b 4) as [Hb4|Hb4]];
    cbn [orb].
  - (* the last day of a leap year that closes a four-year cycle *)
    destruct (year_of_quotients a b c 3 ltac:(lia) ltac:(lia) ltac:(lia) ltac:(lia))
      as [Hdby Hleap].
    replace (a * 400 + 1 + b * 100 + c * 4 + e - 1) with (a * 400 + 1 + b * 100 + c * 4 + 3)
      by lia.
    unfold days_in_month, ymd2ord, days_before_month. rewrite Hdby, Hleap.
    replace (c =? 24) with false by (symmetry; apply Z.eqb_neq; lia).
    change ((3 =? 3) && (negb false || (b =? 3))) with true.
    change (month_length true 12) with 31. change (month_offset true 12) with 335. lia.
  - (* the last day of a 400-year cycle *)
    destruct (year_of_quotients a 3 24 3 ltac:(lia) ltac:(lia) ltac:(lia) ltac:(lia))
      as [Hdby Hleap].
    replace (a * 400 + 1 + b * 100 + c * 4 + e - 1) with (a * 400 + 1 + 3 * 100 + 24 * 4 + 3)
      by lia.
    unfold days_in_month, ymd2ord, days_before_month. rewrite Hdby, Hleap.
    change ((3 =? 3) && (negb (24 =? 24) || (3 =? 3))) with true.
    change (month_length true 12) with 31. change (month_offset true 12) with 335. lia.
  - destruct (year_of_quotients a b c e ltac:(lia) ltac:(lia) ltac:(lia) ltac:(lia))
      as [Hdby Hleap].
    set (leapyear := (e =? 3) && (negb (c =? 24) || (b =? 3))) in *.
    pose proof (all_from_spec (month_day_ok leapyear) _ 0 r (month_day_checked leapyear)
                  ltac:(lia)) as Hok.
    unfold month_day_ok in Hok. destruct (month_day leapyear r) as [m d].
    rewrite !andb_true_iff, !Z.leb_le, Z.eqb_eq in Hok.
    unfold days_in_month, ymd2ord, days_before_month. rewrite Hdby, Hleap. lia.
Qed.

(** A value built by [of_wall_us] is valid and its clock reads what was
    asked for. *)
Lemma of_wall_us_valid (t : Z) (dt : datetime) :
  of_wall_us t (Some 0) = Ok dt -> valid_utc dt /\ wall_us dt = t.
Proof.
  intros Hdt. pose proof (of_wall_us_fields t (Some 0) dt Hdt) as (Hh & Hmi & Hs & Hus & Ho).
  revert Hdt. unfold of_wall_us.
  destruct (Z.leb_spec 1 (t / us_per_day)) as [Hlo|]; [| done].
  destruct (Z.leb_spec (t / us_per_day) max_ordinal) as [Hhi|]; [| done]. cbn [andb].
  pose proof (ord2ymd_spec (t / us_per_day) Hlo) as Hymd.
  destruct (ord2ymd (t / us_per_day)) as [[y m] d]. destruct Hymd as (Hy & Hm & Hd & Hord).
  intros [= <-]. cbn [year month day hour minute second microsecond utcoffset] in *.
  assert (Hy' : y <= 9999).
  { destruct (Z.le_gt_cases y 9999) as [|Hgt]; [done |]. exfalso.
    pose proof (days_before_year_mono 10000 y ltac:(lia)) as Hmono.
    change (days_before_year 10000) with 3652059 in Hmono.
    pose proof (days_before_month_end y m Hm) as [? _].
    unfold ymd2ord, max_ordinal in *. lia. }
  split; [unfold valid_utc; cbn [year month day hour minute second microsecond utcoffset];
          repeat split; (done || lia) |].
  unfold wall_us. cbn [year month day hour minute second microsecond]. rewrite Hord.
  unfold us_per_day, us_per_hour, us_per_minute, us_per_second in *.
  Z.div_mod_to_equations. lia.
Qed.

(** ** Text order and time order

    SQLite compares the texts of the minutes with the texts of the
    bounds.  For values on the UTC clock with valid fields the order of
    the texts is the order of the instants. *)

Lemma compare_digit_char (a b : Z) :
  Ascii.compare (digit_char a) (digit_char b) = (a mod 10 ?= b mod 10).
Proof.
  pose proof (Z.mod_pos_bound a 10 ltac:(lia)).
  pose proof (Z.mod_pos_bound b 10 ltac:(lia)).
  unfold Ascii.compare, digit_char.
  rewrite !N_ascii_embedding by lia.
  rewrite Z2N.inj_compare by lia. apply Z.add_compare_mono_l.
Qed.

Lemma dec_S (w : nat) (n : Z) (s : string) :
  dec (S w) n +:+ s = dec w (n / 10) +:+ String (digit_char n) s.
Proof. cbn [dec]. by rewrite append_assoc. Qed.

(** Numbers printed with the same number of digits compare as texts the
    way they compare as numbers. *)
Lemma compare_dec (w : nat) (a b : Z) (s t : string) :
  0 <= a < 10 ^ Z.of_nat w -> 0 <= b < 10 ^ Z.of_nat w ->
  String.compare (dec w a +:+ s) (dec w b +:+ t)
  = match a ?= b with
    | Eq => String.compare s t
    | c => c
    end.
Proof.
  revert a b s t. induction w as [|w IH]; intros a b s t Ha Hb.
  - change (10 ^ Z.of_nat 0) with 1 in *.
    assert (a = 0) as -> by lia. assert (b = 0) as -> by lia. reflexivity.
  - rewrite Nat2Z.inj_succ, Z.pow_succ_r in Ha, Hb by lia.
    rewrite !dec_S, IH by (split; [apply Z.div_pos | apply Z.div_lt_upper_bound]; lia).
    cbn [String.compare]. rewrite compare_digit_char.
    pose proof (Z.div_mod a 10 ltac:(lia)). pose proof (Z.div_mod b 10 ltac:(lia)).
    pose proof (Z.mod_pos_bound a 10 ltac:(lia)).
    pose proof (Z.mod_pos_bound b 10 ltac:(lia)).
    destruct (Z.compare_spec (a / 10) (b / 10));
      destruct (Z.compare_spec (a mod 10) (b mod 10));
      destruct (Z.compare_spec a b); try reflexivity; lia.
Qed.

Lemma compare_same_head (c : ascii) (s t : string) :
  String.compare (String c s) (String c t) = String.compare s t.
Proof.
  cbn [String.compare]. unfold Ascii.compare. by rewrite N.compare_refl.
Qed.

Lemma compare_field (w : nat) (c : ascii) (a b : Z) (s t : string) :
  0 <= a < 10 ^ Z.of_nat w -> 0 <= b < 10 ^ Z.of_nat w ->
  String.compare (dec w a +:+ String c "" +:+ s) (dec w b +:+ String c "" +:+ t)
  = match a ?= b with
    | Eq => String.compare s t
    | c => c
    end.
Proof.
  intros Ha Hb. rewrite compare_dec by done.
  destruct (a ?= b); [| done | done].
  change (String c "" +:+ s) with (String c s).
  change (String c "" +:+ t) with (String c t).
  apply compare_same_head.
Qed.

(** The text of a valid UTC value compares as its fields do. *)
Lemma compare_isoformat (a b : datetime) :
  valid_utc a -> valid_utc b ->
  String.compare (isoformat a) (isoformat b) = lex (fields a b).
Proof.
  intros (Hy & Hmo & Hd & Hh & Hmi & Hs & Hus & Ho) (Hy' & Hmo' & Hd' & Hh' & Hmi' & Hs' & Hus' & Ho').
  assert (Hdim : forall y m, days_in_month y m <= 31).
  { intros y m. unfold days_in_month, month_length, DAYS_IN_MONTH.
    destruct ((m =? 2) && is_leap y); [lia |].
    destruct (Z.to_nat m) as [|[|[|[|[|[|[|[|[|[|[|[|[|[|k]]]]]]]]]]]]]]; simpl; lia. }
  pose proof (Hdim (year a) (month a)). pose proof (Hdim (year b) (month b)).
  unfold us_per_second in *.
  unfold isoformat, fields, lex. rewrite Ho, Ho'.
  rewrite !compare_field by (simpl; lia).
  destruct (year a ?= year b); [| done | done].
  destruct (month a ?= month b); [| done | done].
  destruct (day a ?= day b); [| done | done].
  destruct (hour a ?= hour b); [| done | done].
  destruct (minute a ?= minute b); [| done | done].
  rewrite compare_dec by (simpl; lia).
  destruct (second a ?= second b); [| done | done].
  destruct (Z.eqb_spec (microsecond a) 0) as [Ha0|Ha0];
    destruct (Z.eqb_spec (microsecond b) 0) as [Hb0|Hb0].
  - rewrite Ha0, Hb0. reflexivity.
  - rewrite Ha0. replace (0 ?= microsecond b) with Lt by (symmetry; apply Z.compare_lt_iff; lia).
    reflexivity.
  - rewrite Hb0. replace (microsecond a ?= 0) with Gt by (symmetry; apply Z.compare_gt_iff; lia).
    reflexivity.
  - change (("." +:+ dec 6 (microsecond a)) +:+ format_offset 0)
      with (String "." (dec 6 (microsecond a) +:+ format_offset 0)).
    change (("." +:+ dec 6 (microsecond b)) +:+ format_offset 0)
      with (String "." (dec 6 (microsecond b) +:+ format_offset 0)).
    rewrite compare_same_head, compare_dec by (simpl; lia).
    destruct (microsecond a ?= microsecond b); reflexivity.
Qed.

(** The ordinals of two dates compare as the dates do. *)
Lemma compare_ymd2ord (y1 m1 d1 y2 m2 d2 : Z) :
  1 <= m1 <= 12 -> 1 <= d1 <= days_in_month y1 m1 ->
  1 <= m2 <= 12 -> 1 <= d2 <= days_in_month y2 m2 ->
  (ymd2ord y1 m1 d1 ?= ymd2ord y2 m2 d2) = lex [(y1, y2); (m1, m2); (d1, d2)].
Proof.
  intros Hm1 Hd1 Hm2 Hd2. unfold ymd2ord, lex.
  pose proof (days_before_month_end y1 m1 Hm1) as [? ?].
  pose proof (days_before_month_end y2 m2 Hm2) as [? ?].
  pose proof (days_before_year_succ y1). pose proof (days_before_year_succ y2).
  destruct (Z.compare_spec y1 y2) as [->|Hy|Hy].
  - destruct (Z.compare_spec m1 m2) as [->|Hm|Hm].
    + destruct (Z.compare_spec d1 d2);
        [apply Z.compare_eq_iff | apply Z.compare_lt_iff | apply Z.compare_gt_iff]; lia.
    + pose proof (days_before_month_next y2 m1 m2 ltac:(lia) Hm ltac:(lia)).
      apply Z.compare_lt_iff. lia.
    + pose proof (days_before_month_next y2 m2 m1 ltac:(lia) Hm ltac:(lia)).
      apply Z.compare_gt_iff. lia.
  - pose proof (days_before_year_mono (y1 + 1) y2 ltac:(lia)).
    apply Z.compare_lt_iff. lia.
  - pose proof (days_before_year_mono (y2 + 1) y1 ltac:(lia)).
    apply Z.compare_gt_iff. lia.
Qed.

(** The clock readings of two valid values compare as their fields do. *)
Lemma compare_wall_us (a b : datetime) :
  valid_utc a -> valid_utc b ->
  (wall_us a ?= wall_us b) = lex (fields a b).
Proof.
  intros (Hy & Hmo & Hd & Hh & Hmi & Hs & Hus & Ho) (Hy' & Hmo' & Hd' & Hh' & Hmi' & Hs' & Hus' & Ho').
  pose proof (compare_ymd2ord (year a) (month a) (day a) (year b) (month b) (day b)
                Hmo Hd Hmo' Hd') as Hord.
  unfold fields. cbn [lex] in *.
  unfold wall_us, us_per_day, us_per_hour, us_per_minute, us_per_second in *.
  set (na := ymd2ord (year a) (month a) (day a)) in *.
  set (nb := ymd2ord (year b) (month b) (day b)) in *.
  assert (Hgoal : forall c,
            match na ?= nb with
            | Eq => match hour a ?= hour b with
                    | Eq => match minute a ?= minute b with
                            | Eq => match second a ?= second b with
                                    | Eq => match microsecond a ?= microsecond b with
                                            | Eq => Eq
                                            | c => c
                                            end
                                    | c => c
                                    end
                            | c => c
                            end
                    | c => c
                    end
            | c => c
            end = c ->
            (na * (24 * (60 * (60 * 1000000))) + hour a * (60 * (60 * 1000000))
             + minute a * (60 * 1000000) + second a * 1000000 + microsecond a
             ?= nb * (24 * (60 * (60 * 1000000))) + hour b * (60 * (60 * 1000000))
                + minute b * (60 * 1000000) + second b * 1000000 + microsecond b) = c).
  { intros c.
    destruct (Z.compare_spec na nb); [| intros <-; apply Z.compare_lt_iff; lia
                                      | intros <-; apply Z.compare_gt_iff; lia].
    destruct (Z.compare_spec (hour a) (hour b));
      [| intros <-; apply Z.compare_lt_iff; lia | intros <-; apply Z.compare_gt_iff; lia].
    destruct (Z.compare_spec (minute a) (minute b));
      [| intros <-; apply Z.compare_lt_iff; lia | intros <-; apply Z.compare_gt_iff; lia].
    destruct (Z.compare_spec (second a) (second b));
      [| intros <-; apply Z.compare_lt_iff; lia | intros <-; apply Z.compare_gt_iff; lia].
    destruct (Z.compare_spec (microsecond a) (microsecond b));
      [intros <-; apply Z.compare_eq_iff; lia
      | intros <-; apply Z.compare_lt_iff; lia | intros <-; apply Z.compare_gt_iff; lia]. }
  apply Hgoal. rewrite Hord.
  destruct (year a ?= year b); [| done | done].
  destruct (month a ?= month b); [| done | done].
  by destruct (day a ?= day b).
Qed.

(** The order of the texts is the order of the instants. *)
Lemma text_order_is_time_order (a b : datetime) :
  valid_utc a -> valid_utc b ->
  (String.leb (isoformat a) (isoformat b) = true <-> wall_us a <= wall_us b)
  /\ (String.ltb (isoformat a) (isoformat b) = true <-> wall_us a < wall_us b).
Proof.
  intros Ha Hb. unfold String.leb, String.ltb.
  rewrite (compare_isoformat a b Ha Hb), <- (compare_wall_us a b Ha Hb).
  destruct (Z.compare_spec (wall_us a) (wall_us b)); split; split; intros; try done; lia.
Qed.

Section Validity.

Variable parse : string -> result datetime.
Variable local_utcoffset : datetime -> Z.

(** What [astimezone] returns shows the instant of its argument on the
    UTC clock. *)
Lemma astimezone_utc_spec (dt utc_dt : datetime) :
  astimezone_utc local_utcoffset dt = Ok utc_dt ->
  valid_utc utc_dt
  /\ wall_us utc_dt
     = wall_us dt - match utcoffset dt with
                    | Some o => o
                    | None => local_utcoffset dt
                    end.
Proof. intros H. apply astimezone_utc_Ok in H as [_ H]. by apply of_wall_us_valid in H. Qed.

Lemma rfc_to_utc_dt_valid (ts : string) (dt : datetime) :
  rfc_to_utc_dt parse local_utcoffset ts = Ok dt -> valid_utc dt.
Proof.
  unfold rfc_to_utc_dt. destruct (pad_offset ts) as [ts'|]; simpl; [| done].
  destruct (match strptime ts' with Some dt0 => Ok dt0 | None => parse ts' end) as [dt0|];
    simpl; [| done].
  intros H. by apply astimezone_utc_spec in H as [? _].
Qed.

End Validity.

Lemma replace_valid (dt : datetime) :
  valid_utc dt -> valid_utc (replace_second_microsecond dt 0 0).
Proof.
  unfold valid_utc, replace_second_microsecond, us_per_second. simpl.
  intros (? & ? & ? & ? & ? & ? & ? & ?). repeat split; (done || lia).
Qed.

(** ** The minutes that get stored *)

Lemma foldl_upsert_keys (P : key -> Prop) (data : list entry) (t : table) :
  Forall P data.*1 -> map_Forall (fun k _ => P k) t ->
  map_Forall (fun k _ => P k) (foldl upsert t data).
Proof.
  intros Hdata Ht k n Hk. rewrite foldl_upsert_lookup in Hk.
  destruct (decide (k ∈ data.*1)) as [Hin|_].
  - rewrite Forall_forall in Hdata. by apply Hdata.
  - by apply (Ht k n).
Qed.

Lemma batch_commit_keys (P : key -> Prop) (event_count : dict) (w : world) :
  Forall P event_count.*1 -> map_Forall (fun k _ => P k) (durable w) ->
  map_Forall (fun k _ => P k) (durable (batch_commit event_count w).2).
Proof.
  intros Hec Hw. rewrite batch_commit_spec, data_of_id.
  destruct (fails _ _); simpl; [done | by apply foldl_upsert_keys].
Qed.

Section StoredMinutes.

Variable parse : string -> result datetime.
Variable local_utcoffset : datetime -> Z.

Lemma process_row_minutes (threshold : nat) (r : row) (event_count : dict) (w : world) :
  Forall minute_key event_count.*1 -> map_Forall (fun k _ => minute_key k) (durable w) ->
  Forall minute_key (process_row parse local_utcoffset threshold r event_count w).1.2.*1
  /\ map_Forall (fun k _ => minute_key k)
       (durable (process_row parse local_utcoffset threshold r event_count w).2).
Proof.
  intros Hec Hw. unfold process_row.
  assert (Hflush : Forall minute_key (flush_if_full threshold event_count w).1.2.*1
            /\ map_Forall (fun k _ => minute_key k)
                 (durable (flush_if_full threshold event_count w).2)).
  { unfold flush_if_full. destruct (threshold <=? dict_len event_count)%nat; [| done].
    pose proof (batch_commit_keys minute_key event_count w Hec Hw) as Hbc.
    destruct (batch_commit event_count w) as [[[]|e] w1]; simpl in *; [| done].
    split; [apply Forall_nil_2 | done]. }
  destruct (flush_if_full threshold event_count w) as [[[[]|e] ec1] w1]; [| done].
  simpl in Hflush. destruct Hflush as [Hec1 Hw1].
  destruct (rfc_to_utc_dt parse local_utcoffset (timestamp r)) as [utc_dt|e] eqn:Hdt; [| done].
  cbn [fst snd]. split; [| done].
  unfold dict_incr. rewrite dict_set_keys. destruct (decide _); [done |].
  apply Forall_app. split; [done |]. apply Forall_singleton.
  split; [| done]. apply replace_valid.
  exact (rfc_to_utc_dt_valid parse local_utcoffset _ _ Hdt).
Qed.

Lemma process_rows_minutes (threshold : nat) (rows : list row) (event_count : dict) (w : world) :
  Forall minute_key event_count.*1 -> map_Forall (fun k _ => minute_key k) (durable w) ->
  Forall minute_key (process_rows parse local_utcoffset threshold rows event_count w).1.2.*1
  /\ map_Forall (fun k _ => minute_key k)
       (durable (process_rows parse local_utcoffset threshold rows event_count w).2).
Proof.
  revert event_count w. induction rows as [|r rows IH]; intros event_count w Hec Hw; [done |].
  cbn [process_rows].
  pose proof (process_row_minutes threshold r event_count w Hec Hw) as [Hec1 Hw1].
  destruct (process_row parse local_utcoffset threshold r event_count w) as [[[[]|e] ec1] w1];
    [by apply IH | done].
Qed.

(** Every row [process_csv] leaves in the table is keyed by a valid UTC
    minute, when that was so of the rows it found there. *)
Lemma process_csv_minutes (rows : list row) (w : world) :
  map_Forall (fun k _ => minute_key k) (durable w) ->
  map_Forall (fun k _ => minute_key k) (durable (process_csv parse local_utcoffset rows w).2).
Proof.
  intros Hw. unfold process_csv, ingest.
  assert (H0 : Forall minute_key ([] : dict).*1) by apply Forall_nil_2.
  pose proof (process_rows_minutes 1000 rows [] w H0 Hw) as [Hec1 Hw1].
  destruct (process_rows parse local_utcoffset 1000 rows [] w) as [[[[]|e] ec1] w1]; [| done].
  by apply batch_commit_keys.
Qed.

End StoredMinutes.

(** For a valid minute the comparison of the texts in the WHERE clause is
    the comparison of the instants. *)
Lemma in_range_time (customer c : string) (start_dt end_dt m : datetime) (n : Z) :
  valid_utc start_dt -> valid_utc end_dt -> valid_utc m ->
  in_range (isoformat start_dt) (isoformat end_dt) (Some customer) ((c, m), n) = true
  <-> c = customer /\ wall_us start_dt <= wall_us m < wall_us end_dt.
Proof.
  intros Hs He Hm. rewrite in_range_true.
  destruct (text_order_is_time_order start_dt m Hs Hm) as [Hle _].
  destruct (text_order_is_time_order m end_dt Hm He) as [_ Hlt].
  rewrite Hle, Hlt. tauto.
Qed.



(** * Further properties *)

(** ** Batching is transparent *)

Lemma count_for_dict_set (d : dict) (k : key) (v : Z) (k' : key) :
  count_for k' (dict_set d k v)
  = if decide (k = k') then count_for k d - default 0 (dict_get d k) + v
    else count_for k' d.
Proof.
  induction d as [|[k0 v0] d IH]; cbn [dict_set dict_get count_for].
  - destruct (decide (k = k')) as [->|Hne]; simpl; lia.
  - destruct (decide (k0 = k)) as [->|Hne0]; cbn [count_for].
    + destruct (decide (k = k')) as [->|Hne]; simpl; lia.
    + rewrite IH. destruct (decide (k = k')) as [->|Hne].
      * destruct (decide (k0 = k')); [done | lia].
      * done.
Qed.

Lemma count_for_dict_incr (d : dict) (k k' : key) :
  count_for k' (dict_incr d k) = count_for k' d + (if decide (k = k') then 1 else 0).
Proof.
  unfold dict_incr. rewrite count_for_dict_set.
  destruct (decide (k = k')) as [->|Hne]; lia.
Qed.

Lemma elem_of_dict_incr (d : dict) (k k' : key) :
  k' ∈ (dict_incr d k).*1 <-> k' = k \/ k' ∈ d.*1.
Proof.
  unfold dict_incr. rewrite dict_set_keys. destruct (decide (k ∈ d.*1)) as [Hin|Hnin].
  - split; [by right | intros [-> | ?]; done].
  - rewrite elem_of_app, list_elem_of_singleton. tauto.
Qed.

(** Counting an event in the buffer and merging the buffer is merging the
    buffer and then the event. *)
Lemma foldl_upsert_dict_incr (t : table) (d : dict) (k : key) :
  foldl upsert t (dict_incr d k) = upsert (foldl upsert t d) (k, 1).
Proof.
  apply map_eq. intros k'. rewrite upsert_lookup, !foldl_upsert_lookup.
  rewrite count_for_dict_incr.
  destruct (decide (k = k')) as [->|Hne].
  - destruct (decide (k' ∈ (dict_incr d k').*1)) as [_|Hn];
      [| destruct Hn; apply elem_of_dict_incr; by left].
    destruct (decide (k' ∈ d.*1)) as [Hin|Hnin]; simpl.
    + f_equal. lia.
    + rewrite (count_for_notin d k' Hnin). f_equal; lia.
  - destruct (decide (k' ∈ (dict_incr d k).*1)) as [Hin|Hnin];
      destruct (decide (k' ∈ d.*1)) as [Hin'|Hnin']; try done.
    + f_equal; lia.
    + apply elem_of_dict_incr in Hin as [Heq | ?]; [congruence | done].
    + destruct Hnin. apply elem_of_dict_incr. by right.
Qed.

Section Transparent.

Variable parse : string -> result datetime.
Variable local_utcoffset : datetime -> Z.

(** While the loop runs, the durable table with the buffer merged in is the
    initial table with the events read so far merged in one by one. *)
Lemma process_rows_virtual (threshold : nat) (rows : list row) (ks : list key)
    (event_count : dict) (w : world) :
  Forall2 (fun r k => row_key parse local_utcoffset r = Ok k) rows ks ->
  faults w = [] ->
  exists event_count' w',
    process_rows parse local_utcoffset threshold rows event_count w = (Ok tt, event_count', w')
    /\ faults w' = []
    /\ foldl upsert (durable w') event_count'
       = foldl upsert (foldl upsert (durable w) event_count) (events ks).
Proof.
  intros Hkeys. revert event_count w.
  induction Hkeys as [|r k rows ks Hk _ IH]; intros event_count w Hf.
  - by exists event_count, w.
  - apply row_key_Ok in Hk as (utc_dt & Hdt & ->).
    cbn [process_rows]. unfold process_row.
    assert (Hflush : exists ec1 w1,
              flush_if_full threshold event_count w = (Ok tt, ec1, w1)
              /\ faults w1 = []
              /\ foldl upsert (durable w1) ec1 = foldl upsert (durable w) event_count).
    { unfold flush_if_full. destruct (threshold <=? dict_len event_count)%nat.
      - rewrite (batch_commit_no_faults _ _ Hf). by do 2 eexists.
      - by exists event_count, w. }
    destruct Hflush as (ec1 & w1 & -> & Hf1 & Hv1). rewrite Hdt.
    destruct (IH (dict_incr ec1 (customer_id r, replace_second_microsecond utc_dt 0 0)) w1 Hf1)
      as (ec' & w' & -> & Hf' & Hv').
    exists ec', w'. split; [done |]. split; [done |].
    rewrite Hv', foldl_upsert_dict_incr, Hv1. reflexivity.
Qed.

End Transparent.

Lemma events_keys (ks : list key) : (events ks).*1 = ks.
Proof.
  unfold events. induction ks as [|k ks IH]; [done |].
  cbn [map]. rewrite fmap_cons. cbn [fst]. by f_equal.
Qed.

Lemma count_for_events (k : key) (ks : list key) : count_for k (events ks) = occurrences k ks.
Proof.
  unfold events, occurrences. induction ks as [|k' ks IH]; [done |].
  cbn [map count_for]. rewrite IH, filter_cons.
  destruct (decide (k' = k)); simpl length; lia.
Qed.

Lemma foldl_upsert_events (t : table) (ks : list key) (k : key) :
  foldl upsert t (events ks) !! k
  = if decide (k ∈ ks) then Some (default 0 (t !! k) + occurrences k ks) else t !! k.
Proof. by rewrite foldl_upsert_lookup, events_keys, count_for_events. Qed.

(** A run over rows that all normalise, on a store that does not fail. *)
Lemma ingest_events
    (parse : string -> result datetime) (local_utcoffset : datetime -> Z)
    (threshold : nat) (rows : list row) (ks : list key) (w : world) :
  Forall2 (fun r k => row_key parse local_utcoffset r = Ok k) rows ks ->
  faults w = [] ->
  exists w',
    ingest parse local_utcoffset threshold rows w = (Ok tt, w')
    /\ faults w' = []
    /\ durable w' = foldl upsert (durable w) (events ks).
Proof.
  intros Hkeys Hf. unfold ingest.
  destruct (process_rows_virtual parse local_utcoffset threshold rows ks [] w Hkeys Hf)
    as (ec & w1 & -> & Hf1 & Hv).
  rewrite (batch_commit_no_faults _ _ Hf1). eexists. split; [reflexivity |].
  split; [done |]. exact Hv.
Qed.








(** ** Rows are kept and counts do not go down *)

Lemma table_le_refl (t : table) : table_le t t.
Proof. intros k old H. exists old. split; [done | lia]. Qed.

Lemma table_le_trans (t1 t2 t3 : table) : table_le t1 t2 -> table_le t2 t3 -> table_le t1 t3.
Proof.
  intros H12 H23 k old H. destruct (H12 k old H) as (mid & Hmid & ?).
  destruct (H23 k mid Hmid) as (new & Hnew & ?). exists new. split; [done | lia].
Qed.

Lemma count_for_nonneg (k : key) (data : list entry) :
  Forall (fun e => 1 <= e.2) data -> 0 <= count_for k data.
Proof.
  induction 1 as [|[k' n] data Hn _ IH]; simpl in *; [lia |].
  destruct (decide (k' = k)); lia.
Qed.

Lemma count_for_positive (k : key) (data : list entry) :
  Forall (fun e => 1 <= e.2) data -> k ∈ data.*1 -> 1 <= count_for k data.
Proof.
  induction 1 as [|[k' n] data Hn Hdata IH]; intros Hin.
  - by apply elem_of_nil in Hin.
  - pose proof (count_for_nonneg k data Hdata). simpl in *.
    destruct (decide (k' = k)) as [->|Hne]; [lia |].
    apply elem_of_cons in Hin as [->|Hin]; [done |]. specialize (IH Hin). lia.
Qed.

Lemma foldl_upsert_le (t : table) (data : list entry) :
  Forall (fun e => 1 <= e.2) data -> table_le t (foldl upsert t data).
Proof.
  intros Hdata k old Hk. rewrite foldl_upsert_lookup, Hk.
  pose proof (count_for_nonneg k data Hdata).
  destruct (decide (k ∈ data.*1)); eexists; (split; [reflexivity | simpl; lia]).
Qed.

Lemma foldl_upsert_positive (t : table) (data : list entry) :
  Forall (fun e => 1 <= e.2) data -> map_Forall (fun _ n => 1 <= n) t ->
  map_Forall (fun _ n => 1 <= n) (foldl upsert t data).
Proof.
  intros Hdata Ht k n. rewrite foldl_upsert_lookup.
  destruct (decide (k ∈ data.*1)) as [Hin|_]; [| apply Ht].
  intros [= <-]. pose proof (count_for_positive k data Hdata Hin).
  destruct (t !! k) as [old|] eqn:Hold; simpl; [| lia].
  specialize (Ht k old Hold). simpl in Ht. lia.
Qed.

Lemma batch_commit_le (event_count : dict) (w : world) :
  Forall (fun e => 1 <= e.2) event_count ->
  table_le (durable w) (durable (batch_commit event_count w).2).
Proof.
  intros Hec. rewrite batch_commit_spec, data_of_id.
  destruct (fails _ _); simpl; [apply table_le_refl | by apply foldl_upsert_le].
Qed.

Lemma batch_commit_positive (event_count : dict) (w : world) :
  Forall (fun e => 1 <= e.2) event_count -> map_Forall (fun _ n => 1 <= n) (durable w) ->
  map_Forall (fun _ n => 1 <= n) (durable (batch_commit event_count w).2).
Proof.
  intros Hec Hw. rewrite batch_commit_spec, data_of_id.
  destruct (fails _ _); simpl; [done | by apply foldl_upsert_positive].
Qed.

Lemma dict_set_Forall (P : entry -> Prop) (d : dict) (k : key) (v : Z) :
  Forall P d -> P (k, v) -> Forall P (dict_set d k v).
Proof.
  intros Hd Hv. induction Hd as [|[k' v'] d Hx Hd IH]; simpl.
  - by apply Forall_singleton.
  - destruct (decide (k' = k)) as [->|_]; by apply Forall_cons_2.
Qed.

(** Every count in the buffer is at least one. *)
Lemma dict_incr_positive (d : dict) (k : key) :
  Forall (fun e => 1 <= e.2) d -> Forall (fun e => 1 <= e.2) (dict_incr d k).
Proof.
  intros Hd. unfold dict_incr. apply dict_set_Forall; [done |]. simpl.
  destruct (dict_get d k) as [v|] eqn:Hget; simpl; [| lia].
  apply dict_get_elem in Hget. rewrite Forall_forall in Hd. specialize (Hd _ Hget).
  simpl in Hd. lia.
Qed.

Section OnlyAdds.

Variable parse : string -> result datetime.
Variable local_utcoffset : datetime -> Z.

(** What one turn of the loop keeps: the counts of the buffer are at least
    one, the table has lost nothing, and its counts stay at least one when
    they were. *)
Lemma process_row_only_adds (threshold : nat) (r : row) (event_count : dict) (w : world) :
  Forall (fun e => 1 <= e.2) event_count ->
  Forall (fun e => 1 <= e.2) (process_row parse local_utcoffset threshold r event_count w).1.2
  /\ table_le (durable w)
       (durable (process_row parse local_utcoffset threshold r event_count w).2)
  /\ (map_Forall (fun _ n => 1 <= n) (durable w) ->
      map_Forall (fun _ n => 1 <= n)
        (durable (process_row parse local_utcoffset threshold r event_count w).2)).
Proof.
  intros Hec. unfold process_row, flush_if_full.
  destruct (threshold <=? dict_len event_count)%nat.
  - pose proof (batch_commit_le event_count w Hec) as Hle.
    pose proof (batch_commit_positive event_count w Hec) as Hpos.
    destruct (batch_commit event_count w) as [[[]|e] w1]; [| done].
    destruct (rfc_to_utc_dt parse local_utcoffset (timestamp r)); cbn [fst snd].
    + split; [| done]. apply dict_incr_positive, Forall_nil_2.
    + split; [apply Forall_nil_2 | done].
  - destruct (rfc_to_utc_dt parse local_utcoffset (timestamp r)); cbn [fst snd].
    + split; [by apply dict_incr_positive |]. split; [apply table_le_refl | done].
    + split; [done |]. split; [apply table_le_refl | done].
Qed.

Lemma process_rows_only_adds (threshold : nat) (rows : list row) (event_count : dict) (w : world) :
  Forall (fun e => 1 <= e.2) event_count ->
  Forall (fun e => 1 <= e.2) (process_rows parse local_utcoffset threshold rows event_count w).1.2
  /\ table_le (durable w)
       (durable (process_rows parse local_utcoffset threshold rows event_count w).2)
  /\ (map_Forall (fun _ n => 1 <= n) (durable w) ->
      map_Forall (fun _ n => 1 <= n)
        (durable (process_rows parse local_utcoffset threshold rows event_count w).2)).
Proof.
  revert event_count w. induction rows as [|r rows IH]; intros event_count w Hec.
  - split; [done |]. split; [apply table_le_refl | done].
  - cbn [process_rows].
    pose proof (process_row_only_adds threshold r event_count w Hec) as (Hec1 & Hle1 & Hpos1).
    destruct (process_row parse local_utcoffset threshold r event_count w)
      as [[[[]|e] ec1] w1]; [| done].
    cbn [fst snd] in Hec1, Hle1, Hpos1.
    destruct (IH ec1 w1 Hec1) as (Hec2 & Hle2 & Hpos2).
    split; [done |]. split; [by apply (table_le_trans _ (durable w1)) | auto].
Qed.

End OnlyAdds.

(** X4.  Whatever the rows are and whatever fails on the way (a timestamp
    that does not parse, a statement or a commit the storage engine
    refuses), [process_csv] deletes no row and lowers no count: every row
    that was in the table is still there afterwards, with a count that is
    at least what it was. *)
Theorem process_csv_only_adds
    (parse : string -> result datetime) (local_utcoffset : datetime -> Z)
    (rows : list row) (w : world) :
  table_le (durable w) (durable (process_csv parse local_utcoffset rows w).2).
Proof.
  unfold process_csv, ingest.
  pose proof (process_rows_only_adds parse local_utcoffset 1000 rows [] w (Forall_nil_2 _))
    as (Hec1 & Hle1 & _).
  destruct (process_rows parse local_utcoffset 1000 rows [] w) as [[[[]|e] ec1] w1];
    [| done].
  cbn [fst snd] in Hec1, Hle1.
  apply (table_le_trans _ (durable w1)); [done | by apply batch_commit_le].
Qed.

(** X5.  [process_csv] never stores a count below one: when every count of
    the table is at least one before the call, so is every count after it,
    whether the call returns or raises. *)
Theorem process_csv_counts_positive
    (parse : string -> result datetime) (local_utcoffset : datetime -> Z)
    (rows : list row) (w : world) :
  map_Forall (fun _ n => 1 <= n) (durable w) ->
  map_Forall (fun _ n => 1 <= n) (durable (process_csv parse local_utcoffset rows w).2).
Proof.
  intros Hw. unfold process_csv, ingest.
  pose proof (process_rows_only_adds parse local_utcoffset 1000 rows [] w (Forall_nil_2 _))
    as (Hec1 & _ & Hpos1).
  destruct (process_rows parse local_utcoffset 1000 rows [] w) as [[[[]|e] ec1] w1];
    [| by apply Hpos1].
  cbn [fst snd] in Hec1, Hpos1. apply batch_commit_positive; [done | by apply Hpos1].
Qed.

Lemma process_csv_counts_positive_witness :
  map_Forall (fun _ n => 1 <= n) example_table
  /\ map_Forall (fun _ n => 1 <= n)
       (durable (process_csv parse_hour utc_machine
                   [mkrow "c1" "e" "t" "2021-03-01 14:15:30.5+0000";
                    mkrow "c1" "e" "t" "2021-03-01 14:15:59.0+00"]
                   (mkworld example_table [] [] [])).2).
Proof.
  assert (H : map_Forall (fun _ n => 1 <= n) example_table).
  { apply map_Forall_to_list.
    let l := eval vm_compute in (map_to_list example_table) in
    replace (map_to_list example_table) with l by (vm_compute; reflexivity).
    repeat (apply Forall_cons_2; [simpl; lia |]). apply Forall_nil_2. }
  split; [exact H |].
  apply (process_csv_counts_positive parse_hour utc_machine _ (mkworld example_table [] [] [])).
  exact H.
Defined.

(** X6.  [process_csv] stores rows under valid UTC minutes only: when
    every row of the table is keyed by a date and time of the calendar on
    the UTC clock with second and microsecond zero, that is still so
    after the call, whatever the input was and whether the call returned
    or raised. *)
Theorem process_csv_stores_minutes
    (parse : string -> result datetime) (local_utcoffset : datetime -> Z)
    (rows : list row) (w : world) :
  map_Forall (fun k _ => minute_key k) (durable w) ->
  map_Forall (fun k _ => minute_key k)
    (durable (process_csv parse local_utcoffset rows w).2).
Proof.
  intros Hw. unfold process_csv, ingest.
  assert (H0 : Forall minute_key ([] : dict).*1) by apply Forall_nil_2.
  pose proof (process_rows_minutes parse local_utcoffset 1000 rows [] w H0 Hw) as [Hec1 Hw1].
  destruct (process_rows parse local_utcoffset 1000 rows [] w) as [[[[]|e] ec1] w1];
    [| done].
  by apply batch_commit_keys.
Qed.

Lemma process_csv_stores_minutes_witness :
  map_Forall (fun k _ => minute_key k)
    (durable (process_csv parse_hour utc_machine
                [mkrow "c1" "e" "t1" "2021-03-01 14:15:30.5+0000";
                 mkrow "c1" "e" "t2" "2021-03-01 16:29:59.9+01"]
                empty_world).2).
Proof.
  apply (process_csv_stores_minutes parse_hour utc_machine _ empty_world).
  apply map_Forall_empty.
Defined.

(** ** Whole batches *)




Section WholeBatches.

Variable parse : string -> result datetime.
Variable local_utcoffset : datetime -> Z.


End WholeBatches.


(** ** What the strict format accepts *)

Lemma digit_of_range (c : ascii) (d : Z) : digit_of c = Some d -> 0 <= d <= 9.
Proof.
  unfold digit_of.
  destruct (Z.leb_spec 48 (code c)); [| done].
  destruct (Z.leb_spec (code c) 57); [| done].
  intros [= <-]. lia.
Qed.

Lemma digit1_range (s r : string) (d : Z) : digit1 s = Some (d, r) -> 0 <= d <= 9.
Proof.
  destruct s as [|c s]; [done |]. simpl.
  destruct (digit_of c) as [d'|] eqn:Hd; [| done].
  intros [= <- _]. by apply digit_of_range in Hd.
Qed.

(** A group of one or two digits gives a digit its one-digit alternative
    accepts or a two-digit number its two-digit alternative accepts. *)
Lemma alt2_range (p2 : Z -> Z -> bool) (p1 : Z -> bool) (s r : string) (v : Z) :
  alt2 p2 p1 s = Some (v, r) ->
  (0 <= v <= 9 /\ p1 v = true)
  \/ exists a b, 0 <= a <= 9 /\ 0 <= b <= 9 /\ v = 10 * a + b /\ p2 a b = true.
Proof.
  destruct s as [|c1 r1]; [done |]. cbn [alt2].
  destruct (digit_of c1) as [a|] eqn:Ha; [| done]. cbn [mbind option_bind].
  apply digit_of_range in Ha.
  assert (Hone : (if p1 a then Some (a, r1) else None) = Some (v, r) ->
                 0 <= v <= 9 /\ p1 v = true).
  { destruct (p1 a) eqn:Hp; [| done]. by intros [= <- _]. }
  destruct r1 as [|c2 r2]; [by left; apply Hone |].
  destruct (digit_of c2) as [b|] eqn:Hb; [| by left; apply Hone].
  apply digit_of_range in Hb.
  destruct (p2 a b) eqn:Hp; [| by left; apply Hone].
  intros [= <- _]. right. by exists a, b.
Qed.

Lemma re_Y_range (s r : string) (v : Z) : re_Y s = Some (v, r) -> 0 <= v <= 9999.
Proof.
  unfold re_Y.
  destruct (digit1 s) as [[a s1]|] eqn:Ha; [| done]. cbn [mbind option_bind].
  destruct (digit1 s1) as [[b s2]|] eqn:Hb; [| done]. cbn [mbind option_bind].
  destruct (digit1 s2) as [[c s3]|] eqn:Hc; [| done]. cbn [mbind option_bind].
  destruct (digit1 s3) as [[d s4]|] eqn:Hd; [| done]. cbn [mbind option_bind].
  apply digit1_range in Ha, Hb, Hc, Hd. intros [= <- _]. lia.
Qed.

Lemma re_m_range (s r : string) (v : Z) : re_m s = Some (v, r) -> 1 <= v <= 12.
Proof.
  intros H. apply alt2_range in H as [[? H]|(a & b & ? & ? & -> & H)]; lia.
Qed.

Lemma re_d_range (s r : string) (v : Z) : re_d s = Some (v, r) -> 1 <= v.
Proof.
  assert (Halt : alt2 (fun a b => ((a =? 3) && (b <=? 1)) || ((1 <=? a) && (a <=? 2))
                                  || ((a =? 0) && (1 <=? b)))
                      (fun a => 1 <=? a) s = Some (v, r) -> 1 <= v).
  { intros H. apply alt2_range in H as [[? H]|(a & b & ? & ? & -> & H)]; lia. }
  unfold re_d. destruct s as [|c s']; [done |].
  destruct (Ascii.eqb_spec c " ") as [->|Hc].
  - destruct (digit1 s') as [[a s1]|]; [| done]. cbn [mbind option_bind].
    destruct (Z.leb_spec 1 a); [| done]. by intros [= <- _].
  - intros H. apply Halt. revert H.
    destruct c as [[] [] [] [] [] [] [] []]; first [done | by destruct Hc].
Qed.

Lemma re_H_range (s r : string) (v : Z) : re_H s = Some (v, r) -> 0 <= v <= 23.
Proof.
  intros H. apply alt2_range in H as [[? H]|(a & b & ? & ? & -> & H)]; lia.
Qed.

Lemma re_M_range (s r : string) (v : Z) : re_M s = Some (v, r) -> 0 <= v <= 59.
Proof.
  intros H. apply alt2_range in H as [[? H]|(a & b & ? & ? & -> & H)]; lia.
Qed.

Lemma re_S_range (s r : string) (v : Z) : re_S s = Some (v, r) -> 0 <= v <= 61.
Proof.
  intros H. apply alt2_range in H as [[? H]|(a & b & ? & ? & -> & H)]; lia.
Qed.

Lemma digits_upto_range (n : nat) (s : string) :
  (((digits_upto n s).1.1 <= n)%nat)
  /\ 0 <= (digits_upto n s).1.2 < 10 ^ Z.of_nat (digits_upto n s).1.1.
Proof.
  revert s. induction n as [|n IH]; intros s; [simpl; lia |].
  cbn [digits_upto]. destruct s as [|c r]; [simpl; lia |].
  destruct (digit_of c) as [d|] eqn:Hd; [| simpl; lia].
  apply digit_of_range in Hd. specialize (IH r).
  destruct (digits_upto n r) as [[k v] r']. cbn [fst snd] in *.
  split; [lia |]. rewrite Nat2Z.inj_succ, Z.pow_succ_r by lia. nia.
Qed.

Lemma re_f_range (s r : string) (v : Z) : re_f s = Some (v, r) -> 0 <= v < us_per_second.
Proof.
  unfold re_f. pose proof (digits_upto_range 6 s) as [Hk Hv].
  destruct (digits_upto 6 s) as [[k x] r']. cbn [fst snd] in *.
  destruct (k =? 0)%nat; [done |]. intros [= <- _].
  assert (E : 10 ^ Z.of_nat k * 10 ^ Z.of_nat (6 - k) = us_per_second).
  { rewrite <- Z.pow_add_r by lia. replace (Z.of_nat k + Z.of_nat (6 - k)) with 6 by lia.
    reflexivity. }
  assert (0 < 10 ^ Z.of_nat (6 - k)) by (apply Z.pow_pos_nonneg; lia).
  nia.
Qed.

(** What [strptime] returns is a date of the calendar and a time of day
    with an offset of less than a day. *)
Lemma strptime_sound (ts : string) (dt : datetime) :
  strptime ts = Some dt ->
  1 <= year dt <= 9999 /\ 1 <= month dt <= 12
  /\ 1 <= day dt <= days_in_month (year dt) (month dt)
  /\ 0 <= hour dt < 24 /\ 0 <= minute dt < 60 /\ 0 <= second dt < 60
  /\ 0 <= microsecond dt < us_per_second
  /\ exists o, utcoffset dt = Some o /\ - us_per_day < o < us_per_day.
Proof.
  unfold strptime.
  destruct (re_Y ts) as [[yy s1]|] eqn:HY; [| done]. cbn [mbind option_bind].
  destruct (lit "-" s1) as [s2|]; [| done]. cbn [mbind option_bind].
  destruct (re_m s2) as [[mo s3]|] eqn:Hm; [| done]. cbn [mbind option_bind].
  destruct (lit "-" s3) as [s4|]; [| done]. cbn [mbind option_bind].
  destruct (re_d s4) as [[dd s5]|] eqn:Hd; [| done]. cbn [mbind option_bind].
  destruct (re_spaces s5) as [s6|]; [| done]. cbn [mbind option_bind].
  destruct (re_H s6) as [[hh s7]|] eqn:HH; [| done]. cbn [mbind option_bind].
  destruct (lit ":" s7) as [s8|]; [| done]. cbn [mbind option_bind].
  destruct (re_M s8) as [[mi s9]|] eqn:HM; [| done]. cbn [mbind option_bind].
  destruct (lit ":" s9) as [s10|]; [| done]. cbn [mbind option_bind].
  destruct (re_S s10) as [[ss s11]|] eqn:HS; [| done]. cbn [mbind option_bind].
  destruct (lit "." s11) as [s12|]; [| done]. cbn [mbind option_bind].
  destruct (re_f s12) as [[ff s13]|] eqn:Hf; [| done]. cbn [mbind option_bind].
  destruct (re_z s13) as [[zz s14]|] eqn:Hz; [| done]. cbn [mbind option_bind].
  destruct (negb (String.eqb s14 "")); [done |].
  destruct (Z.leb_spec 1 yy); [| done].
  destruct (Z.leb_spec dd (days_in_month yy mo)); [| done]. cbn [andb negb].
  destruct (Z.ltb_spec 59 ss); [done |].
  destruct (Z.ltb_spec (- us_per_day) zz); [| done].
  destruct (Z.ltb_spec zz us_per_day); [| done]. cbn [andb negb].
  intros [= <-]. cbn [year month day hour minute second microsecond utcoffset].
  apply re_Y_range in HY. apply re_m_range in Hm. apply re_d_range in Hd.
  apply re_H_range in HH. apply re_M_range in HM. apply re_S_range in HS.
  apply re_f_range in Hf.
  repeat split; try lia. exists zz. split; [done | lia].
Qed.

(** *** Where a [+] can stand

    Each piece of the format consumes characters that are no [+], except
    the sign of the offset. *)

Lemma digit_not_plus (c : ascii) (d : Z) : digit_of c = Some d -> Ascii.eqb c "+" = false.
Proof. destruct (Ascii.eqb_spec c "+") as [->|]; [by compute | done]. Qed.

Lemma space_not_plus (c : ascii) : is_space c = true -> Ascii.eqb c "+" = false.
Proof. destruct (Ascii.eqb_spec c "+") as [->|]; [by compute | done]. Qed.

Lemma digit1_plus (s r : string) (d : Z) :
  digit1 s = Some (d, r) -> str_index "+" r = None -> str_index "+" s = None.
Proof.
  destruct s as [|c s]; [done |]. simpl.
  destruct (digit_of c) as [d'|] eqn:Hd; [| done].
  intros [= _ ->] Hr. by rewrite (digit_not_plus _ _ Hd), Hr.
Qed.

Lemma lit_plus (c : ascii) (s r : string) :
  Ascii.eqb c "+" = false ->
  lit c s = Some r -> str_index "+" r = None -> str_index "+" s = None.
Proof.
  intros Hc. destruct s as [|a s]; [done |]. simpl.
  destruct (Ascii.eqb_spec a c) as [->|]; [| done].
  intros [= ->] Hr. by rewrite Hc, Hr.
Qed.

Lemma alt2_plus (p2 : Z -> Z -> bool) (p1 : Z -> bool) (s r : string) (v : Z) :
  alt2 p2 p1 s = Some (v, r) -> str_index "+" r = None -> str_index "+" s = None.
Proof.
  destruct s as [|c1 r1]; [done |]. cbn [alt2].
  destruct (digit_of c1) as [a|] eqn:Ha; [| done]. cbn [mbind option_bind].
  apply digit_not_plus in Ha.
  assert (Hone : (if p1 a then Some (a, r1) else None) = Some (v, r) ->
                 str_index "+" r = None -> str_index "+" (String c1 r1) = None).
  { destruct (p1 a); [| done]. intros [= _ ->] Hr. simpl. by rewrite Ha, Hr. }
  destruct r1 as [|c2 r2]; [done |].
  destruct (digit_of c2) as [b|] eqn:Hb; [| done].
  apply digit_not_plus in Hb.
  destruct (p2 a b); [| done].
  intros [= _ ->] Hr. simpl. by rewrite Ha, Hb, Hr.
Qed.

Lemma re_Y_plus (s r : string) (v : Z) :
  re_Y s = Some (v, r) -> str_index "+" r = None -> str_index "+" s = None.
Proof.
  unfold re_Y.
  destruct (digit1 s) as [[a s1]|] eqn:Ha; [| done]. cbn [mbind option_bind].
  destruct (digit1 s1) as [[b s2]|] eqn:Hb; [| done]. cbn [mbind option_bind].
  destruct (digit1 s2) as [[c s3]|] eqn:Hc; [| done]. cbn [mbind option_bind].
  destruct (digit1 s3) as [[d s4]|] eqn:Hd; [| done]. cbn [mbind option_bind].
  intros [= _ ->] Hr.
  eapply digit1_plus; [exact Ha |]. eapply digit1_plus; [exact Hb |].
  eapply digit1_plus; [exact Hc |]. eapply digit1_plus; [exact Hd | exact Hr].
Qed.

Lemma re_d_plus (s r : string) (v : Z) :
  re_d s = Some (v, r) -> str_index "+" r = None -> str_index "+" s = None.
Proof.
  unfold re_d. destruct s as [|c s']; [done |].
  destruct (Ascii.eqb_spec c " ") as [->|Hc].
  - destruct (digit1 s') as [[a s1]|] eqn:Ha; [| done]. cbn [mbind option_bind].
    destruct (1 <=? a); [| done]. intros [= _ ->] Hr.
    simpl. by rewrite (digit1_plus _ _ _ Ha Hr).
  - intros H. eapply alt2_plus. revert H.
    destruct c as [[] [] [] [] [] [] [] []]; try exact id. by destruct Hc.
Qed.

Lemma skip_spaces_plus (s : string) :
  str_index "+" (skip_spaces s) = None -> str_index "+" s = None.
Proof.
  induction s as [|c s IH]; [done |]. simpl.
  destruct (is_space c) eqn:Hc; [| done].
  intros Hr. by rewrite (space_not_plus _ Hc), (IH Hr).
Qed.

Lemma re_spaces_plus (s r : string) :
  re_spaces s = Some r -> str_index "+" r = None -> str_index "+" s = None.
Proof.
  destruct s as [|c s]; [done |]. simpl.
  destruct (is_space c) eqn:Hc; [| done].
  intros [= <-] Hr. by rewrite (space_not_plus _ Hc), (skip_spaces_plus _ Hr).
Qed.

Lemma digits_upto_plus (n : nat) (s : string) :
  str_index "+" (digits_upto n s).2 = None -> str_index "+" s = None.
Proof.
  revert s. induction n as [|n IH]; intros s; [done |].
  cbn [digits_upto]. destruct s as [|c r]; [done |].
  destruct (digit_of c) as [d|] eqn:Hd; [| done].
  specialize (IH r). destruct (digits_upto n r) as [[k v] r']. cbn [snd] in *.
  intros Hr. simpl. by rewrite (digit_not_plus _ _ Hd), (IH Hr).
Qed.

Lemma re_f_plus (s r : string) (v : Z) :
  re_f s = Some (v, r) -> str_index "+" r = None -> str_index "+" s = None.
Proof.
  unfold re_f. pose proof (digits_upto_plus 6 s) as H.
  destruct (digits_upto 6 s) as [[k x] r']. cbn [snd] in H.
  destruct (k =? 0)%nat; [done |]. by intros [= _ <-].
Qed.

Lemma opt_colon_plus (s : string) :
  str_index "+" (opt_colon s).2 = None -> str_index "+" s = None.
Proof.
  destruct s as [|c s]; [done |].
  destruct (Ascii.eqb_spec c ":") as [->|Hc]; [simpl; by intros -> |].
  destruct c as [[] [] [] [] [] [] [] []]; first [done | by destruct Hc].
Qed.

Lemma re_sixty_plus (s r : string) (v : Z) :
  re_sixty s = Some (v, r) -> str_index "+" r = None -> str_index "+" s = None.
Proof.
  unfold re_sixty.
  destruct (digit1 s) as [[a s1]|] eqn:Ha; [| done]. cbn [mbind option_bind].
  destruct (digit1 s1) as [[b s2]|] eqn:Hb; [| done]. cbn [mbind option_bind].
  destruct (a <=? 5); [| done]. intros [= _ ->] Hr.
  eapply digit1_plus; [exact Ha |]. eapply digit1_plus; [exact Hb | exact Hr].
Qed.

Lemma re_sixty_range (s r : string) (v : Z) : re_sixty s = Some (v, r) -> 0 <= v <= 59.
Proof.
  unfold re_sixty.
  destruct (digit1 s) as [[a s1]|] eqn:Ha; [| done]. cbn [mbind option_bind].
  destruct (digit1 s1) as [[b s2]|] eqn:Hb; [| done]. cbn [mbind option_bind].
  apply digit1_range in Ha, Hb.
  destruct (Z.leb_spec a 5); [| done]. intros [= <- _]. lia.
Qed.

Lemma re_opt_fraction_plus (s : string) :
  str_index "+" (re_opt_fraction s).2 = None -> str_index "+" s = None.
Proof.
  destruct s as [|c s]; [done |].
  destruct (Ascii.eqb_spec c ".") as [->|Hc].
  - cbn [re_opt_fraction]. destruct (re_f s) as [[us r']|] eqn:Hf; [| done].
    cbn [snd]. intros Hr. simpl. by rewrite (re_f_plus _ _ _ Hf Hr).
  - destruct c as [[] [] [] [] [] [] [] []]; first [done | by destruct Hc].
Qed.

Lemma re_opt_fraction_range (s : string) : 0 <= (re_opt_fraction s).1 < us_per_second.
Proof.
  assert (H0 : 0 <= 0 < us_per_second) by by compute.
  destruct s as [|c s]; [done |].
  destruct (Ascii.eqb_spec c ".") as [->|Hc].
  - cbn [re_opt_fraction]. destruct (re_f s) as [[us r']|] eqn:Hf; [| done].
    by apply re_f_range in Hf.
  - destruct c as [[] [] [] [] [] [] [] []]; first [done | by destruct Hc].
Qed.

(** The offset group: when the text has a [+] that is not in what follows
    the group, it is the sign, and the offset is not negative. *)
Lemma re_z_plus (s r : string) (zz : Z) :
  re_z s = Some (zz, r) -> str_index "+" r = None ->
  str_index "+" s = None \/ 0 <= zz.
Proof.
  destruct s as [|sg s]; [done |].
  assert (Hsigned :
    (sgn ← (if Ascii.eqb sg "+" then Some 1
            else if Ascii.eqb sg "-" then Some (-1) else None);
     '(h1, r) ← digit1 s; '(h2, r) ← digit1 r;
     let hh := 10 * h1 + h2 in
     let '(c1, r) := opt_colon r in
     '(mm, r) ← re_sixty r;
     let '(c2, r2) := opt_colon r in
     match re_sixty r2 with
     | Some (ss, r') =>
         let '(us, r'') := re_opt_fraction r' in
         if Bool.eqb c1 c2
         then Some (sgn * ((hh * 3600 + mm * 60 + ss) * us_per_second + us), r'')
         else None
     | None => Some (sgn * ((hh * 3600 + mm * 60) * us_per_second), r)
     end) = Some (zz, r) ->
    str_index "+" r = None -> str_index "+" (String sg s) = None \/ 0 <= zz).
  { destruct (Ascii.eqb sg "+") eqn:Hsg; cbn [mbind option_bind].
    - (* the sign is + *)
      intros H _. right. revert H.
      destruct (digit1 s) as [[h1 s1]|] eqn:H1; [| done]. cbn [mbind option_bind].
      destruct (digit1 s1) as [[h2 s2]|] eqn:H2; [| done]. cbn [mbind option_bind].
      apply digit1_range in H1, H2. cbv zeta.
      destruct (opt_colon s2) as [c1 s3].
      destruct (re_sixty s3) as [[mm s4]|] eqn:Hmm; [| done]. cbn [mbind option_bind].
      apply re_sixty_range in Hmm.
      destruct (opt_colon s4) as [c2 s5].
      destruct (re_sixty s5) as [[ss s6]|] eqn:Hss.
      + apply re_sixty_range in Hss.
        pose proof (re_opt_fraction_range s6) as Hus.
        destruct (re_opt_fraction s6) as [us s7]. cbn [fst] in Hus.
        destruct (Bool.eqb c1 c2); [| done]. intros [= <- _].
        unfold us_per_second in *. lia.
      + intros [= <- _]. unfold us_per_second. lia.
    - (* the sign is - *)
      destruct (Ascii.eqb sg "-"); [| done]. cbn [mbind option_bind].
      intros H Hr. left. simpl. rewrite Hsg. cut (str_index "+" s = None); [by intros -> |].
      revert H.
      destruct (digit1 s) as [[h1 s1]|] eqn:H1; [| done]. cbn [mbind option_bind].
      destruct (digit1 s1) as [[h2 s2]|] eqn:H2; [| done]. cbn [mbind option_bind].
      cbv zeta.
      pose proof (opt_colon_plus s2) as Hc1. destruct (opt_colon s2) as [c1 s3]. cbn [snd] in Hc1.
      destruct (re_sixty s3) as [[mm s4]|] eqn:Hmm; [| done]. cbn [mbind option_bind].
      pose proof (opt_colon_plus s4) as Hc2. destruct (opt_colon s4) as [c2 s5]. cbn [snd] in Hc2.
      intros H.
      eapply digit1_plus; [exact H1 |]. eapply digit1_plus; [exact H2 |]. apply Hc1.
      eapply re_sixty_plus; [exact Hmm |].
      destruct (re_sixty s5) as [[ss s6]|] eqn:Hss.
      + pose proof (re_opt_fraction_plus s6) as Hfr.
        destruct (re_opt_fraction s6) as [us s7]. cbn [snd] in Hfr.
        destruct (Bool.eqb c1 c2); [| done]. injection H as _ ->.
        apply Hc2. eapply re_sixty_plus; [exact Hss |]. by apply Hfr.
      + by injection H as _ ->. }
  destruct (Ascii.eqb_spec sg "Z") as [->|Hsg].
  - cbn [re_z]. intros [= _ ->] Hr. left. simpl. by rewrite Hr.
  - intros H. apply Hsigned. revert H.
    destruct sg as [[] [] [] [] [] [] [] []]; try exact id. by destruct Hsg.
Qed.

(** A text with a [+] that the strict format accepts has an offset that is
    not negative. *)
Lemma strptime_plus (ts : string) (dt : datetime) (i : nat) :
  strptime ts = Some dt -> str_index "+" ts = Some i ->
  exists o, utcoffset dt = Some o /\ 0 <= o.
Proof.
  unfold strptime. intros H Hi.
  destruct (re_Y ts) as [[yy s1]|] eqn:HY; [| done]. cbn [mbind option_bind] in H.
  destruct (lit "-" s1) as [s2|] eqn:L1; [| done]. cbn [mbind option_bind] in H.
  destruct (re_m s2) as [[mo s3]|] eqn:Hm; [| done]. cbn [mbind option_bind] in H.
  destruct (lit "-" s3) as [s4|] eqn:L2; [| done]. cbn [mbind option_bind] in H.
  destruct (re_d s4) as [[dd s5]|] eqn:Hd; [| done]. cbn [mbind option_bind] in H.
  destruct (re_spaces s5) as [s6|] eqn:Hsp; [| done]. cbn [mbind option_bind] in H.
  destruct (re_H s6) as [[hh s7]|] eqn:HH; [| done]. cbn [mbind option_bind] in H.
  destruct (lit ":" s7) as [s8|] eqn:L3; [| done]. cbn [mbind option_bind] in H.
  destruct (re_M s8) as [[mi s9]|] eqn:HM; [| done]. cbn [mbind option_bind] in H.
  destruct (lit ":" s9) as [s10|] eqn:L4; [| done]. cbn [mbind option_bind] in H.
  destruct (re_S s10) as [[ss s11]|] eqn:HS; [| done]. cbn [mbind option_bind] in H.
  destruct (lit "." s11) as [s12|] eqn:L5; [| done]. cbn [mbind option_bind] in H.
  destruct (re_f s12) as [[ff s13]|] eqn:Hf; [| done]. cbn [mbind option_bind] in H.
  destruct (re_z s13) as [[zz s14]|] eqn:Hz; [| done]. cbn [mbind option_bind] in H.
  destruct (String.eqb_spec s14 "") as [->|]; [| done]. cbn [negb] in H.
  destruct (negb _); [done |]. destruct (59 <? ss); [done |]. destruct (negb _); [done |].
  injection H as <-. cbn [utcoffset]. exists zz. split; [done |].
  destruct (re_z_plus _ _ _ Hz eq_refl) as [Hno|Hpos]; [| done].
  exfalso.
  assert (Hts : str_index "+" ts = None); [| by rewrite Hts in Hi].
  eapply re_Y_plus; [exact HY |]. eapply (lit_plus "-"); [reflexivity | exact L1 |].
  eapply alt2_plus; [exact Hm |]. eapply (lit_plus "-"); [reflexivity | exact L2 |].
  eapply re_d_plus; [exact Hd |]. eapply re_spaces_plus; [exact Hsp |].
  eapply alt2_plus; [exact HH |]. eapply (lit_plus ":"); [reflexivity | exact L3 |].
  eapply alt2_plus; [exact HM |]. eapply (lit_plus ":"); [reflexivity | exact L4 |].
  eapply alt2_plus; [exact HS |]. eapply (lit_plus "."); [reflexivity | exact L5 |].
  eapply re_f_plus; [exact Hf | exact Hno].
Qed.

(** ** The normaliser *)

Lemma append_nil_r (s : string) : s +:+ "" = s.
Proof.
  induction s as [|c s IH]; [done |].
  change (String c (s +:+ "") = String c s). by rewrite IH.
Qed.

(** A timestamp whose offset has four characters or more is not padded. *)
Lemma pad_offset_long (s : string) (i : nat) :
  str_index "+" s = Some i -> (4 <= String.length s - (i + 1))%nat -> pad_offset s = Ok s.
Proof.
  intros Hs Hs4. unfold pad_offset. rewrite Hs.
  destruct (negb _); [| done]. unfold zeros.
  replace (Z.to_nat (4 - (Z.of_nat (String.length s) - (Z.of_nat i + 1)))) with 0%nat by lia.
  simpl. by rewrite append_nil_r.
Qed.

(** The padded text in one expression: zeros are appended while the
    offset has fewer than four characters, none otherwise. *)
Lemma pad_offset_Ok (ts padded : string) :
  pad_offset ts = Ok padded ->
  exists i, str_index "+" ts = Some i
            /\ padded = ts +:+ str_repeat "0" (4 - (String.length ts - (i + 1))).
Proof.
  unfold pad_offset. destruct (str_index "+" ts) as [i|] eqn:Hi; [| done].
  intros H. pose proof (str_index_lt _ _ _ Hi) as Hlt. exists i. split; [done |].
  destruct (Z.eqb_spec (Z.of_nat (String.length ts) - (Z.of_nat i + 1)) 4) as [Heq|Hne];
    cbn [negb] in H; injection H as <-.
  - replace (4 - (String.length ts - (i + 1)))%nat with 0%nat by lia.
    by rewrite append_nil_r.
  - unfold zeros. do 2 f_equal. lia.
Qed.

Lemma ymd2ord_range (y m d : Z) :
  1 <= y <= 9999 -> 1 <= m <= 12 -> 1 <= d <= days_in_month y m ->
  1 <= ymd2ord y m d <= max_ordinal.
Proof.
  intros Hy Hm Hd. unfold ymd2ord, max_ordinal.
  pose proof (days_before_month_end y m Hm) as [? ?].
  pose proof (days_before_year_succ y) as Hsucc.
  pose proof (days_before_year_mono 1 y ltac:(lia)) as Hlo.
  pose proof (days_before_year_mono (y + 1) 10000 ltac:(lia)) as Hhi.
  change (days_before_year 1) with 0 in Hlo.
  change (days_before_year 10000) with 3652059 in Hhi.
  destruct (is_leap y); lia.
Qed.

(** The first day of the calendar is the only one with ordinal 1. *)
Lemma ymd2ord_first (y m d : Z) :
  1 <= m <= 12 -> 1 <= d <= days_in_month y m -> ymd2ord y m d = 1 ->
  y = 1 /\ m = 1 /\ d = 1.
Proof.
  intros Hm Hd Hord.
  pose proof (compare_ymd2ord y m d 1 1 1 Hm Hd ltac:(lia) ltac:(by compute)) as Hcmp.
  change (ymd2ord 1 1 1) with 1 in Hcmp. rewrite Hord in Hcmp.
  cbn [lex Z.compare Pos.compare Pos.compare_cont] in Hcmp.
  destruct (Z.compare_spec y 1); [| done..].
  destruct (Z.compare_spec m 1); [| done..].
  destruct (Z.compare_spec d 1); done.
Qed.

(** [astimezone] returns unless the instant is outside the calendar. *)
Lemma of_wall_us_Ok (t : Z) (o : option Z) :
  us_per_day <= t < (max_ordinal + 1) * us_per_day ->
  exists dt, of_wall_us t o = Ok dt.
Proof.
  intros Ht. unfold of_wall_us.
  assert (1 <= t / us_per_day <= max_ordinal) as [Hlo Hhi].
  { unfold us_per_day, us_per_hour, us_per_minute, us_per_second, max_ordinal in *.
    Z.div_mod_to_equations. lia. }
  apply Z.leb_le in Hlo, Hhi. rewrite Hlo, Hhi. cbn [andb].
  destruct (ord2ymd (t / us_per_day)) as [[y m] d]. by eexists.
Qed.

Lemma of_wall_us_early (t : Z) (o : option Z) :
  t < us_per_day -> of_wall_us t o = Raise OverflowError.
Proof.
  intros Ht. unfold of_wall_us.
  assert (t / us_per_day < 1) as Hlo.
  { unfold us_per_day, us_per_hour, us_per_minute, us_per_second in *.
    Z.div_mod_to_equations. lia. }
  apply Z.leb_gt in Hlo. by rewrite Hlo.
Qed.

(** X8.  What [rfc_to_utc_dt] returns is a date and time of the calendar
    on the UTC clock, and it is the instant of the value that was parsed
    from the padded timestamp: its clock reading is that value's reading
    less that value's offset, or less the offset of the machine's time
    zone when dateutil returned a naive value.  dateutil is asked only
    when the strict format did not match the padded timestamp. *)
Theorem normalised_timestamp_is_utc_instant
    (parse : string -> result datetime) (local_utcoffset : datetime -> Z)
    (ts : string) (dt : datetime) :
  rfc_to_utc_dt parse local_utcoffset ts = Ok dt ->
  valid_utc dt
  /\ exists padded dt0,
       pad_offset ts = Ok padded
       /\ (strptime padded = Some dt0 \/ strptime padded = None /\ parse padded = Ok dt0)
       /\ wall_us dt = wall_us dt0 - match utcoffset dt0 with
                                     | Some o => o
                                     | None => local_utcoffset dt0
                                     end.
Proof.
  unfold rfc_to_utc_dt. destruct (pad_offset ts) as [padded|] eqn:Hpad; [| done].
  cbn [mbind result_bind].
  destruct (strptime padded) as [dt0|] eqn:Hstrict.
  - cbn [mbind result_bind]. intros H.
    apply astimezone_utc_spec in H as [Hvalid Hwall].
    split; [done |]. exists padded, dt0. split; [done |]. split; [by left | done].
  - destruct (parse padded) as [dt0|] eqn:Hparse; [| done].
    cbn [mbind result_bind]. intros H.
    apply astimezone_utc_spec in H as [Hvalid Hwall].
    split; [done |]. exists padded, dt0. split; [done |]. split; [by right | done].
Qed.

Lemma normalised_timestamp_is_utc_instant_witness :
  valid_utc (mkdt 2021 3 1 13 15 30 500000 (Some 0))
  /\ exists padded dt0,
       pad_offset "2021-03-01 14:15:30.5+01" = Ok padded
       /\ (strptime padded = Some dt0 \/ strptime padded = None /\ parse_hour padded = Ok dt0)
       /\ wall_us (mkdt 2021 3 1 13 15 30 500000 (Some 0))
          = wall_us dt0 - match utcoffset dt0 with
                          | Some o => o
                          | None => utc_machine dt0
                          end.
Proof.
  apply (normalised_timestamp_is_utc_instant parse_hour utc_machine "2021-03-01 14:15:30.5+01").
  vm_compute. reflexivity.
Defined.

(** X9.  A timestamp that the strict format accepts once padded carries
    an offset that is not negative and is less than a day: the [+] that
    the padding looked for can only be the sign of the offset.  Its
    normalisation consults neither dateutil nor the machine's time zone.
    It is the same instant on the UTC clock, unless that instant lies
    before 0001-01-01 00:00, the earliest date and time there is, in
    which case OverflowError is raised; this happens only for a timestamp
    of 0001-01-01 whose offset is larger than its time of day. *)
Theorem strict_timestamp_same_instant
    (parse : string -> result datetime) (local_utcoffset : datetime -> Z)
    (ts padded : string) (dt0 : datetime) :
  pad_offset ts = Ok padded -> strptime padded = Some dt0 ->
  exists o,
    utcoffset dt0 = Some o /\ 0 <= o < us_per_day
    /\ (forall parse' local_utcoffset',
          rfc_to_utc_dt parse' local_utcoffset' ts = rfc_to_utc_dt parse local_utcoffset ts)
    /\ (wall_us datetime_min <= wall_us dt0 - o ->
        exists dt, rfc_to_utc_dt parse local_utcoffset ts = Ok dt
                   /\ valid_utc dt /\ wall_us dt = wall_us dt0 - o)
    /\ (wall_us dt0 - o < wall_us datetime_min ->
        rfc_to_utc_dt parse local_utcoffset ts = Raise OverflowError
        /\ year dt0 = 1 /\ month dt0 = 1 /\ day dt0 = 1
        /\ hour dt0 * us_per_hour + minute dt0 * us_per_minute
           + second dt0 * us_per_second + microsecond dt0 < o).
Proof.
  intros Hpad Hstrict.
  assert (Hmin : wall_us datetime_min = us_per_day) by (vm_compute; reflexivity).
  rewrite Hmin.
  destruct (pad_offset_Ok _ _ Hpad) as (i & Hi & Hpadded).
  assert (Hplus : str_index "+" padded = Some i).
  { rewrite Hpadded. by apply str_index_append. }
  destruct (strptime_sound _ _ Hstrict)
    as (Hy & Hmo & Hd & Hh & Hmi & Hs & Hus & o & Ho & Hlo & Hhi).
  destruct (strptime_plus _ _ _ Hstrict Hplus) as (o' & Ho' & Hpos).
  rewrite Ho in Ho'. injection Ho' as <-.
  assert (Hrun : forall parse' local_utcoffset',
            rfc_to_utc_dt parse' local_utcoffset' ts = of_wall_us (wall_us dt0 - o) (Some 0)).
  { intros parse' local_utcoffset'. unfold rfc_to_utc_dt. rewrite Hpad.
    cbn [mbind result_bind]. rewrite Hstrict. cbn [mbind result_bind].
    unfold astimezone_utc. rewrite Ho.
    destruct (Z.ltb_spec (- us_per_day) o); [| lia].
    by destruct (Z.ltb_spec o us_per_day); [| lia]. }
  pose proof (ymd2ord_range _ _ _ Hy Hmo Hd) as Hord.
  assert (Hwall : ymd2ord (year dt0) (month dt0) (day dt0) * us_per_day <= wall_us dt0
                  < (ymd2ord (year dt0) (month dt0) (day dt0) + 1) * us_per_day).
  { unfold wall_us, us_per_day, us_per_hour, us_per_minute, us_per_second in *. lia. }
  exists o. split; [done |]. split; [lia |]. split; [| split].
  - intros parse' local_utcoffset'. by rewrite !Hrun.
  - intros Hin. rewrite Hrun.
    destruct (of_wall_us_Ok (wall_us dt0 - o) (Some 0)) as [dt Hdt].
    { split; [done |]. unfold max_ordinal in *. nia. }
    exists dt. split; [done |]. by apply of_wall_us_valid.
  - intros Hout. rewrite Hrun. split; [by apply of_wall_us_early |].
    assert (Hymd : year dt0 = 1 /\ month dt0 = 1 /\ day dt0 = 1).
    { apply ymd2ord_first; [done.. |].
      unfold us_per_day, us_per_hour, us_per_minute, us_per_second in *. nia. }
    destruct Hymd as (Hy1 & Hm1 & Hd1). repeat split; [done.. |].
    unfold wall_us in Hout. rewrite Hy1, Hm1, Hd1 in Hout.
    change (ymd2ord 1 1 1) with 1 in Hout. lia.
Qed.

Lemma strict_timestamp_same_instant_witness :
  (exists dt, rfc_to_utc_dt parse_hour utc_machine "2021-03-01 00:30:00.5+01:00" = Ok dt
              /\ valid_utc dt
              /\ wall_us dt = wall_us (mkdt 2021 3 1 0 30 0 500000 (Some 3600000000)) - 3600000000)
  /\ rfc_to_utc_dt parse_hour utc_machine "0001-01-01 00:30:00.5+01" = Raise OverflowError
  /\ (exists dt, rfc_to_utc_dt parse_hour utc_machine "0001-01-01 01:00:00.5+01" = Ok dt
                 /\ wall_us dt = wall_us datetime_min + 500000).
Proof.
  split; [| split].
  - destruct (strict_timestamp_same_instant parse_hour utc_machine
                "2021-03-01 00:30:00.5+01:00" "2021-03-01 00:30:00.5+01:00"
                (mkdt 2021 3 1 0 30 0 500000 (Some 3600000000)))
      as (o & Ho & _ & _ & Hin & _); [vm_compute; reflexivity.. |].
    injection Ho as <-. apply Hin. by vm_compute.
  - destruct (strict_timestamp_same_instant parse_hour utc_machine
                "0001-01-01 00:30:00.5+01" "0001-01-01 00:30:00.5+0100"
                (mkdt 1 1 1 0 30 0 500000 (Some 3600000000)))
      as (o & Ho & _ & _ & _ & Hearly); [vm_compute; reflexivity.. |].
    injection Ho as <-. apply Hearly. vm_compute. reflexivity.
  - destruct (strict_timestamp_same_instant parse_hour utc_machine
                "0001-01-01 01:00:00.5+01" "0001-01-01 01:00:00.5+0100"
                (mkdt 1 1 1 1 0 0 500000 (Some 3600000000)))
      as (o & Ho & _ & _ & Hin & _); [vm_compute; reflexivity.. |].
    injection Ho as <-. destruct Hin as (dt & Hdt & _ & Hw); [by vm_compute |].
    exists dt. split; [exact Hdt |]. rewrite Hw. vm_compute. reflexivity.
Defined.

(** X10.  The padding only ever appends zeros, and only while the offset
    has fewer than four characters: the padded text is the timestamp
    followed by as many zeros as the offset falls short of four, its first
    [+] is where it was, and at least four characters follow it.  An
    offset of four characters or more, such as [+00:00], is left as it is
    and never cut.  Padding a padded text changes nothing. *)
Theorem pad_offset_settles (ts padded : string) :
  pad_offset ts = Ok padded ->
  exists i,
    str_index "+" ts = Some i
    /\ padded = ts +:+ str_repeat "0" (4 - (String.length ts - (i + 1)))
    /\ str_index "+" padded = Some i
    /\ (4 <= String.length padded - (i + 1))%nat
    /\ ((4 <= String.length ts - (i + 1))%nat -> padded = ts)
    /\ pad_offset padded = Ok padded.
Proof.
  intros Hpad. destruct (pad_offset_Ok _ _ Hpad) as (i & Hi & Hpadded).
  pose proof (str_index_lt _ _ _ Hi) as Hlt.
  assert (Hplus : str_index "+" padded = Some i).
  { rewrite Hpadded. by apply str_index_append. }
  assert (Hlen : String.length padded
                 = (String.length ts + (4 - (String.length ts - (i + 1))))%nat).
  { rewrite Hpadded, length_append, length_str_repeat. simpl. lia. }
  exists i. split; [done |]. split; [done |]. split; [done |]. split; [lia |]. split.
  - intros H4. rewrite Hpadded.
    replace (4 - (String.length ts - (i + 1)))%nat with 0%nat by lia.
    simpl. apply append_nil_r.
  - apply (pad_offset_long _ i); [done | lia].
Qed.

Lemma pad_offset_settles_witness :
  exists i,
    str_index "+" "2021-03-01 00:30:00+00:00" = Some i
    /\ "2021-03-01 00:30:00+00:00"
       = "2021-03-01 00:30:00+00:00"
         +:+ str_repeat "0" (4 - (String.length "2021-03-01 00:30:00+00:00" - (i + 1)))
    /\ str_index "+" "2021-03-01 00:30:00+00:00" = Some i
    /\ (4 <= String.length "2021-03-01 00:30:00+00:00" - (i + 1))%nat
    /\ ((4 <= String.length "2021-03-01 00:30:00+00:00" - (i + 1))%nat ->
        "2021-03-01 00:30:00+00:00" = "2021-03-01 00:30:00+00:00")
    /\ pad_offset "2021-03-01 00:30:00+00:00" = Ok "2021-03-01 00:30:00+00:00".
Proof.
  apply (pad_offset_settles "2021-03-01 00:30:00+00:00" "2021-03-01 00:30:00+00:00").
  vm_compute. reflexivity.
Defined.

(** ** Reading back the text of a UTC value *)

Lemma code_digit_char (n : Z) : code (digit_char n) = 48 + n mod 10.
Proof.
  pose proof (Z.mod_pos_bound n 10 ltac:(lia)).
  unfold code, digit_char. rewrite N_ascii_embedding by lia. lia.
Qed.

Lemma digit_of_digit_char (n : Z) : digit_of (digit_char n) = Some (n mod 10).
Proof.
  pose proof (Z.mod_pos_bound n 10 ltac:(lia)).
  unfold digit_of. rewrite code_digit_char.
  destruct (Z.leb_spec 48 (48 + n mod 10)); [| lia].
  destruct (Z.leb_spec (48 + n mod 10) 57); [| lia].
  simpl. f_equal. lia.
Qed.

Lemma dec_head (n : nat) (v : Z) :
  dec (S n) v = String (digit_char (v / 10 ^ Z.of_nat n)) (dec n v).
Proof.
  revert v. induction n as [|n IH]; intros v.
  - simpl. by rewrite Z.div_1_r.
  - change (dec (S (S n)) v) with (dec (S n) (v / 10) +:+ String (digit_char v) "").
    rewrite IH.
    change (dec (S n) v) with (dec n (v / 10) +:+ String (digit_char v) "").
    rewrite Nat2Z.inj_succ, Z.pow_succ_r, Z.div_div by lia. reflexivity.
Qed.

Lemma length_dec (w : nat) (n : Z) : String.length (dec w n) = w.
Proof.
  revert n. induction w as [|w IH]; intros n; [done |].
  cbn [dec]. rewrite length_append, IH. simpl. lia.
Qed.

Lemma digits_upto_dec (n : nat) (v : Z) (r : string) :
  digits_upto n (dec n v +:+ r) = (n, v mod 10 ^ Z.of_nat n, r).
Proof.
  induction n as [|n IH].
  - simpl. by rewrite Z.mod_1_r.
  - rewrite dec_head. change (String ?c ?s +:+ r) with (String c (s +:+ r)).
    cbn [digits_upto]. rewrite digit_of_digit_char, IH.
    do 2 f_equal. rewrite Nat2Z.inj_succ, Z.pow_succ_r by lia.
    rewrite (Z.mul_comm 10), Z.rem_mul_r by lia. lia.
Qed.

Lemma re_f_dec (us : Z) (r : string) :
  0 <= us < us_per_second -> re_f (dec 6 us +:+ r) = Some (us, r).
Proof.
  intros Hus. unfold re_f. rewrite digits_upto_dec. simpl.
  f_equal. f_equal. unfold us_per_second in Hus. rewrite Z.mod_small by lia. lia.
Qed.

Lemma digit1_digit_char (n : Z) (r : string) :
  digit1 (String (digit_char n) r) = Some (n mod 10, r).
Proof. simpl. by rewrite digit_of_digit_char. Qed.

Lemma re_Y_dec (y : Z) (r : string) :
  0 <= y <= 9999 -> re_Y (dec 4 y +:+ r) = Some (y, r).
Proof.
  intros Hy. rewrite !dec_S. unfold re_Y. simpl dec. change ("" +:+ ?s) with s.
  rewrite !digit1_digit_char. cbn [mbind option_bind].
  rewrite !digit1_digit_char. cbn [mbind option_bind].
  rewrite !digit1_digit_char. cbn [mbind option_bind].
  rewrite !digit1_digit_char. cbn [mbind option_bind].
  do 2 f_equal. Z.div_mod_to_equations. lia.
Qed.

Lemma alt2_dec (p2 : Z -> Z -> bool) (p1 : Z -> bool) (v : Z) (r : string) :
  0 <= v <= 99 -> p2 (v / 10) (v mod 10) = true ->
  alt2 p2 p1 (dec 2 v +:+ r) = Some (v, r).
Proof.
  intros Hv Hp. rewrite !dec_S. simpl dec. change ("" +:+ ?s) with s.
  cbn [alt2]. rewrite !digit_of_digit_char. cbn [mbind option_bind].
  replace (v / 10 mod 10) with (v / 10) by (Z.div_mod_to_equations; lia).
  rewrite Hp. do 2 f_equal. Z.div_mod_to_equations. lia.
Qed.

Lemma is_space_digit_char (n : Z) : is_space (digit_char n) = false.
Proof.
  pose proof (Z.mod_pos_bound n 10 ltac:(lia)).
  unfold is_space. rewrite code_digit_char.
  repeat match goal with
         | |- context [?a <=? ?b] => destruct (Z.leb_spec a b); try lia
         | |- context [?a =? ?b] => destruct (Z.eqb_spec a b); try lia
         end; reflexivity.
Qed.

Lemma digit_char_not (n : Z) (c : ascii) :
  digit_of c = None -> digit_char n <> c.
Proof. intros Hc <-. by rewrite digit_of_digit_char in Hc. Qed.

Lemma re_d_digit (c : ascii) (r : string) :
  c <> " "%char ->
  re_d (String c r)
  = alt2 (fun a b => ((a =? 3) && (b <=? 1)) || ((1 <=? a) && (a <=? 2)) || ((a =? 0) && (1 <=? b)))
         (fun a => 1 <=? a) (String c r).
Proof.
  intros Hc. unfold re_d.
  destruct c as [[] [] [] [] [] [] [] []]; first [reflexivity | by destruct Hc].
Qed.

Lemma append_char (c : ascii) (s : string) : String c "" +:+ s = String c s.
Proof. reflexivity. Qed.

Lemma dec2_unfold (v : Z) (r : string) :
  dec 2 v +:+ r = String (digit_char (v / 10)) (String (digit_char v) r).
Proof. rewrite !dec_S. reflexivity. Qed.

Lemma lit_same (c : ascii) (r : string) : lit c (String c r) = Some r.
Proof. simpl. by rewrite Ascii.eqb_refl. Qed.

Lemma re_d_dec (d : Z) (r : string) :
  1 <= d <= 31 -> re_d (dec 2 d +:+ r) = Some (d, r).
Proof.
  intros Hd. rewrite dec2_unfold, re_d_digit by (apply digit_char_not; by compute).
  rewrite <- dec2_unfold. apply alt2_dec; [lia |].
  destruct (Z.eqb_spec (d / 10) 3), (Z.leb_spec (d mod 10) 1), (Z.leb_spec 1 (d / 10)),
    (Z.leb_spec (d / 10) 2), (Z.eqb_spec (d / 10) 0), (Z.leb_spec 1 (d mod 10));
    simpl; try done; Z.div_mod_to_equations; lia.
Qed.

Lemma re_spaces_dec (v : Z) (r : string) :
  re_spaces (String " " (dec 2 v +:+ r)) = Some (dec 2 v +:+ r).
Proof.
  rewrite dec2_unfold. cbn [re_spaces skip_spaces].
  change (is_space " ") with true. cbv iota. by rewrite is_space_digit_char.
Qed.

(** The strict format reads the text of a valid UTC value that has a
    fraction of a second back as that value. *)
Lemma strptime_isoformat (dt : datetime) :
  valid_utc dt -> microsecond dt <> 0 -> strptime (isoformat dt) = Some dt.
Proof.
  destruct dt as [y m d H M S us o]. unfold valid_utc.
  cbn [year month day hour minute second microsecond utcoffset].
  intros (Hy & Hm & Hd & HH & HM & HS & Hus & ->) Hne.
  assert (Hdim : d <= 31).
  { revert Hd. unfold days_in_month, month_length, DAYS_IN_MONTH.
    destruct ((m =? 2) && is_leap y); [lia |].
    destruct (Z.to_nat m) as [|[|[|[|[|[|[|[|[|[|[|[|[|[|k]]]]]]]]]]]]]]; simpl; lia. }
  unfold isoformat. cbn [year month day hour minute second microsecond utcoffset].
  apply Z.eqb_neq in Hne. rewrite Hne.
  change (format_offset 0) with "+00:00". rewrite append_assoc, !append_char.
  unfold strptime.
  rewrite re_Y_dec by lia. cbn [mbind option_bind]. rewrite lit_same. cbn [mbind option_bind].
  unfold re_m. rewrite alt2_dec; [| lia |]; cycle 1.
  { destruct (Z.eqb_spec (m / 10) 1), (Z.leb_spec (m mod 10) 2), (Z.eqb_spec (m / 10) 0),
      (Z.leb_spec 1 (m mod 10)); simpl; try done; Z.div_mod_to_equations; lia. }
  cbn [mbind option_bind]. rewrite lit_same. cbn [mbind option_bind].
  rewrite re_d_dec by lia. cbn [mbind option_bind].
  rewrite re_spaces_dec. cbn [mbind option_bind].
  unfold re_H. rewrite alt2_dec; [| lia |]; cycle 1.
  { destruct (Z.eqb_spec (H / 10) 2), (Z.leb_spec (H mod 10) 3), (Z.leb_spec (H / 10) 1);
      simpl; try done; Z.div_mod_to_equations; lia. }
  cbn [mbind option_bind]. rewrite lit_same. cbn [mbind option_bind].
  unfold re_M. rewrite alt2_dec; [| lia |]; cycle 1.
  { destruct (Z.leb_spec (M / 10) 5); [done |]. Z.div_mod_to_equations. lia. }
  cbn [mbind option_bind]. rewrite lit_same. cbn [mbind option_bind].
  unfold re_S. rewrite alt2_dec; [| lia |]; cycle 1.
  { destruct (Z.eqb_spec (S / 10) 6), (Z.leb_spec (S mod 10) 1), (Z.leb_spec (S / 10) 5);
      simpl; try done; Z.div_mod_to_equations; lia. }
  cbn [mbind option_bind]. rewrite lit_same. cbn [mbind option_bind].
  rewrite re_f_dec by done. cbn [mbind option_bind].
  change (re_z "+00:00") with (Some (0, "")). cbn [mbind option_bind].
  change (negb ("" =? "")%string) with false. cbv iota.
  destruct (Z.leb_spec 1 y); [| lia].
  destruct (Z.leb_spec d (days_in_month y m)); [| lia]. cbn [andb negb].
  destruct (Z.ltb_spec 59 S); [lia |]. reflexivity.
Qed.

(** Without a fraction of a second the text has no [.] and the strict
    format rejects it. *)
Lemma strptime_isoformat_whole (dt : datetime) :
  valid_utc dt -> microsecond dt = 0 -> strptime (isoformat dt) = None.
Proof.
  destruct dt as [y m d H M S us o]. unfold valid_utc.
  cbn [year month day hour minute second microsecond utcoffset].
  intros (Hy & Hm & Hd & HH & HM & HS & Hus & ->) ->.
  assert (Hdim : d <= 31).
  { revert Hd. unfold days_in_month, month_length, DAYS_IN_MONTH.
    destruct ((m =? 2) && is_leap y); [lia |].
    destruct (Z.to_nat m) as [|[|[|[|[|[|[|[|[|[|[|[|[|[|k]]]]]]]]]]]]]]; simpl; lia. }
  unfold isoformat. cbn [year month day hour minute second microsecond utcoffset].
  change (0 =? 0) with true. cbv iota.
  change (format_offset 0) with "+00:00". change ("" +:+ "+00:00") with "+00:00".
  rewrite !append_char.
  unfold strptime.
  rewrite re_Y_dec by lia. cbn [mbind option_bind]. rewrite lit_same. cbn [mbind option_bind].
  unfold re_m. rewrite alt2_dec; [| lia |]; cycle 1.
  { destruct (Z.eqb_spec (m / 10) 1), (Z.leb_spec (m mod 10) 2), (Z.eqb_spec (m / 10) 0),
      (Z.leb_spec 1 (m mod 10)); simpl; try done; Z.div_mod_to_equations; lia. }
  cbn [mbind option_bind]. rewrite lit_same. cbn [mbind option_bind].
  rewrite re_d_dec by lia. cbn [mbind option_bind].
  rewrite re_spaces_dec. cbn [mbind option_bind].
  unfold re_H. rewrite alt2_dec; [| lia |]; cycle 1.
  { destruct (Z.eqb_spec (H / 10) 2), (Z.leb_spec (H mod 10) 3), (Z.leb_spec (H / 10) 1);
      simpl; try done; Z.div_mod_to_equations; lia. }
  cbn [mbind option_bind]. rewrite lit_same. cbn [mbind option_bind].
  unfold re_M. rewrite alt2_dec; [| lia |]; cycle 1.
  { destruct (Z.leb_spec (M / 10) 5); [done |]. Z.div_mod_to_equations. lia. }
  cbn [mbind option_bind]. rewrite lit_same. cbn [mbind option_bind].
  unfold re_S. rewrite alt2_dec; [| lia |]; cycle 1.
  { destruct (Z.eqb_spec (S / 10) 6), (Z.leb_spec (S mod 10) 1), (Z.leb_spec (S / 10) 5);
      simpl; try done; Z.div_mod_to_equations; lia. }
  cbn [mbind option_bind]. reflexivity.
Qed.

Lemma str_index_dec (c : ascii) (w : nat) (v : Z) (r : string) :
  digit_of c = None ->
  str_index c (dec w v +:+ r) = Nat.add w <$> str_index c r.
Proof.
  intros Hc. induction w as [|w IH].
  - change (dec 0 v +:+ r) with r. by destruct (str_index c r).
  - rewrite dec_head. change (String ?a ?s +:+ r) with (String a (s +:+ r)).
    cbn [str_index]. destruct (Ascii.eqb_spec (digit_char (v / 10 ^ Z.of_nat w)) c) as [E|_].
    + by destruct (digit_char_not _ _ Hc E).
    + rewrite IH. by destruct (str_index c r).
Qed.

(** [str(dt)] of a UTC value ends in [+00:00]: nothing is appended. *)
Lemma pad_offset_isoformat (dt : datetime) :
  utcoffset dt = Some 0 -> pad_offset (isoformat dt) = Ok (isoformat dt).
Proof.
  destruct dt as [y m d H M S us o]. cbn [utcoffset]. intros ->.
  unfold isoformat. cbn [year month day hour minute second microsecond utcoffset].
  change (format_offset 0) with "+00:00".
  destruct (us =? 0).
  - change ("" +:+ "+00:00") with "+00:00". rewrite !append_char.
    apply (pad_offset_long _ 19).
    + repeat (rewrite str_index_dec by reflexivity;
              cbn [str_index Ascii.eqb Bool.eqb fmap option_fmap option_map]).
      reflexivity.
    + repeat (rewrite length_append, length_dec; cbn [String.length]). simpl. lia.
  - rewrite append_assoc, !append_char.
    apply (pad_offset_long _ 26).
    + repeat (rewrite str_index_dec by reflexivity;
              cbn [str_index Ascii.eqb Bool.eqb fmap option_fmap option_map]).
      reflexivity.
    + repeat (rewrite length_append, length_dec; cbn [String.length]). simpl. lia.
Qed.

(** Two valid UTC values with the same clock reading are the same value. *)
Lemma wall_us_inj (a b : datetime) :
  valid_utc a -> valid_utc b -> wall_us a = wall_us b -> a = b.
Proof.
  intros Ha Hb Hw. pose proof (compare_wall_us a b Ha Hb) as Hcmp.
  rewrite Hw, Z.compare_refl in Hcmp.
  destruct Ha as (_ & _ & _ & _ & _ & _ & _ & Hoa), Hb as (_ & _ & _ & _ & _ & _ & _ & Hob).
  destruct a as [y m d H M S us o], b as [y' m' d' H' M' S' us' o'].
  unfold fields in Hcmp. cbn [year month day hour minute second microsecond utcoffset lex] in *.
  destruct (Z.compare_spec y y'); [| done..].
  destruct (Z.compare_spec m m'); [| done..].
  destruct (Z.compare_spec d d'); [| done..].
  destruct (Z.compare_spec H H'); [| done..].
  destruct (Z.compare_spec M M'); [| done..].
  destruct (Z.compare_spec S S'); [| done..].
  destruct (Z.compare_spec us us'); [| done..].
  congruence.
Qed.

(** A value that is on the UTC clock already is returned as it is. *)
Lemma astimezone_utc_id (local_utcoffset : datetime -> Z) (dt : datetime) :
  valid_utc dt -> astimezone_utc local_utcoffset dt = Ok dt.
Proof.
  intros Hv. pose proof Hv as (Hy & Hm & Hd & HH & HM & HS & Hus & Ho).
  unfold astimezone_utc. rewrite Ho.
  change ((- us_per_day <? 0) && (0 <? us_per_day)) with true. cbv iota.
  pose proof (ymd2ord_range _ _ _ Hy Hm Hd) as Hord.
  destruct (of_wall_us_Ok (wall_us dt - 0) (Some 0)) as [dt' Hdt'].
  { unfold wall_us, max_ordinal, us_per_day, us_per_hour, us_per_minute, us_per_second in *.
    lia. }
  rewrite Hdt'. f_equal. apply of_wall_us_valid in Hdt' as [Hv' Hw].
  apply wall_us_inj; [done.. | lia].
Qed.

(** X11.  [str] followed by [rfc_to_utc_dt] gives back a valid UTC value
    that has a fraction of a second: its text ends in [+00:00], to which
    the padding adds nothing, the strict format reads it back field by
    field, and the conversion to UTC leaves it as it is.  The text of a
    value with whole seconds, which is what every stored minute and every
    key of an answer is, has no fraction for the strict format to match:
    it is rejected there, and what the normaliser returns is what
    dateutil makes of it. *)
Theorem str_then_normalise
    (parse : string -> result datetime) (local_utcoffset : datetime -> Z) (dt : datetime) :
  valid_utc dt ->
  pad_offset (isoformat dt) = Ok (isoformat dt)
  /\ (microsecond dt <> 0 -> rfc_to_utc_dt parse local_utcoffset (isoformat dt) = Ok dt)
  /\ (microsecond dt = 0 ->
      strptime (isoformat dt) = None
      /\ rfc_to_utc_dt parse local_utcoffset (isoformat dt)
         = (dt0 ← parse (isoformat dt); astimezone_utc local_utcoffset dt0)).
Proof.
  intros Hv. pose proof Hv as (_ & _ & _ & _ & _ & _ & _ & Ho).
  pose proof (pad_offset_isoformat dt Ho) as Hpad.
  split; [done |]. split.
  - intros Hus. unfold rfc_to_utc_dt. rewrite Hpad. cbn [mbind result_bind].
    rewrite (strptime_isoformat dt Hv Hus). cbn [mbind result_bind].
    by apply astimezone_utc_id.
  - intros Hus. pose proof (strptime_isoformat_whole dt Hv Hus) as Hnone.
    split; [done |]. unfold rfc_to_utc_dt. rewrite Hpad. cbn [mbind result_bind].
    by rewrite Hnone.
Qed.

Lemma str_then_normalise_witness :
  isoformat (mkdt 2021 3 1 14 15 30 500000 (Some 0)) = "2021-03-01 14:15:30.500000+00:00"
  /\ rfc_to_utc_dt parse_hour utc_machine "2021-03-01 14:15:30.500000+00:00"
     = Ok (mkdt 2021 3 1 14 15 30 500000 (Some 0))
  /\ strptime "2021-03-01 14:15:00+00:00" = None.
Proof.
  split; [reflexivity |].
  assert (Hv : forall mi s us, 0 <= mi < 60 -> 0 <= s < 60 -> 0 <= us < us_per_second ->
                               valid_utc (mkdt 2021 3 1 14 mi s us (Some 0))).
  { intros mi s us Hmi Hs Hus. repeat split; try done; apply Hmi || apply Hs || apply Hus. }
  split.
  - destruct (str_then_normalise parse_hour utc_machine (mkdt 2021 3 1 14 15 30 500000 (Some 0)))
      as (_ & Hback & _); [apply Hv; by compute |].
    apply Hback. done.
  - destruct (str_then_normalise parse_hour utc_machine (mkdt 2021 3 1 14 15 0 0 (Some 0)))
      as (_ & _ & Hwhole); [apply Hv; by compute |].
    destruct (Hwhole eq_refl) as [Hnone _]. exact Hnone.
Defined.

(** ** Bounds in the wrong order *)

Lemma string_compare_trans (a m b : string) :
  String.compare a m <> Gt -> String.compare m b = Lt -> String.compare a b = Lt.
Proof.
  revert m b. induction a as [|x a IH]; intros [|y m] [|z b]; simpl; try done.
  unfold Ascii.compare.
  destruct (N.compare_spec (N_of_ascii x) (N_of_ascii y)) as [Hxy|Hxy|Hxy];
    destruct (N.compare_spec (N_of_ascii y) (N_of_ascii z)) as [Hyz|Hyz|Hyz];
    destruct (N.compare_spec (N_of_ascii x) (N_of_ascii z)) as [Hxz|Hxz|Hxz];
    try done; try lia.
  apply IH.
Qed.

Lemma leb_ltb_trans (a m b : string) :
  String.leb a m = true -> String.ltb m b = true -> String.ltb a b = true.
Proof.
  unfold String.leb, String.ltb. intros Ham Hmb.
  rewrite (string_compare_trans a m b); [done | |].
  - by destruct (String.compare a m).
  - by destruct (String.compare m b).
Qed.

(** X12.  When the end bound is not after the start bound the SELECT is
    still executed, and the answer is the empty mapping whatever the table
    holds: no text can be at or after that of the start and before that
    of the end.  The call raises nothing and leaves the table as it is. *)
Theorem reversed_range_is_empty
    (parse : string -> result datetime) (local_utcoffset : datetime -> Z)
    (w : world) (customer : option string) (start end_ : string) (start_dt end_dt : datetime) :
  rfc_to_utc_dt parse local_utcoffset start = Ok start_dt ->
  rfc_to_utc_dt parse local_utcoffset end_ = Ok end_dt ->
  wall_us end_dt <= wall_us start_dt ->
  hourly_event_count parse local_utcoffset customer (Some start) (Some end_) w
  = (Ok ∅,
     mkworld (durable w) (faults w) (calls w)
             (queries w ++ [(isoformat start_dt, isoformat end_dt, customer)])).
Proof.
  intros Hs He Hrev.
  pose proof (rfc_to_utc_dt_valid _ _ _ _ Hs) as Hvs.
  pose proof (rfc_to_utc_dt_valid _ _ _ _ He) as Hve.
  unfold hourly_event_count, rfc_to_utc_dt_arg. rewrite Hs, He. cbn [fst snd].
  unfold select_hourly. rewrite filter_none; [reflexivity |].
  intros [[c m] n]. unfold in_range.
  destruct (String.leb (isoformat start_dt) (isoformat m)) eqn:Hle; [| done].
  destruct (String.ltb (isoformat m) (isoformat end_dt)) eqn:Hlt; [| done].
  pose proof (leb_ltb_trans _ _ _ Hle Hlt) as Hse.
  apply (text_order_is_time_order start_dt end_dt Hvs Hve) in Hse. lia.
Qed.

Lemma reversed_range_is_empty_witness :
  (hourly_event_count parse_hour utc_machine (Some "c1")
     (Some "2021-03-01 15:30:00.000000+0000") (Some "2021-03-01 14:30:00.000000+0000")
     (mkworld example_table [] [] [])).1 = Ok ∅.
Proof.
  rewrite (reversed_range_is_empty parse_hour utc_machine (mkworld example_table [] [] [])
             (Some "c1") "2021-03-01 15:30:00.000000+0000" "2021-03-01 14:30:00.000000+0000"
             (mkdt 2021 3 1 15 30 0 0 (Some 0)) (mkdt 2021 3 1 14 30 0 0 (Some 0))).
  - reflexivity.
  - vm_compute. reflexivity.
  - vm_compute. reflexivity.
  - by vm_compute.
Defined.
(** ** The rows an answer depends on *)

Lemma total_perm (l l' : list (key * Z)) : l ≡ₚ l' -> total l = total l'.
Proof. unfold total. induction 1; simpl; lia. Qed.

Lemma total_positive (l : list (key * Z)) :
  Forall (fun r => 1 <= r.2) l -> l <> [] -> 1 <= total l.
Proof.
  unfold total. intros Hl Hne. destruct Hl as [|r l Hr Hl]; [done |]. simpl.
  assert (0 <= foldr (fun r acc => r.2 + acc) 0 l); [| lia].
  clear Hne. induction Hl; simpl; lia.
Qed.

Section Rows.

Context (P : key * Z -> Prop) `{!forall r, Decision (P r)}.
Hypothesis P_key : forall k n n', P (k, n) -> P (k, n').

(** The total of the counts of the rows that satisfy [P], a condition on
    the key of a row, when one row is written. *)
Lemma rows_insert_fresh (t : table) (k : key) (v : Z) :
  t !! k = None ->
  total (filter P (map_to_list (<[k := v]> t)))
  = (if decide (P (k, 1)) then v else 0) + total (filter P (map_to_list t)).
Proof.
  intros Hk. rewrite (total_perm _ (filter P ((k, v) :: map_to_list t))).
  - rewrite filter_cons.
    destruct (decide (P (k, v))) as [Hv|Hv], (decide (P (k, 1))) as [H1|H1]; try done.
    + destruct H1. by apply (P_key k v).
    + destruct Hv. by apply (P_key k 1).
  - apply filter_Permutation. by apply map_to_list_insert.
Qed.

Lemma rows_upsert (t : table) (k : key) (n : Z) :
  total (filter P (map_to_list (upsert t (k, n))))
  = (if decide (P (k, 1)) then n else 0) + total (filter P (map_to_list t)).
Proof.
  destruct k as [c m]. unfold upsert.
  destruct (t !! (c, m)) as [old|] eqn:Hold; [| by apply rows_insert_fresh].
  rewrite <- (insert_delete_eq t).
  rewrite <- (insert_delete_id t (c, m) old Hold) at 2.
  rewrite !rows_insert_fresh by apply lookup_delete_eq.
  destruct (decide (P (c, m, 1))); lia.
Qed.

Lemma rows_events (t : table) (ks : list key) :
  total (filter P (map_to_list (foldl upsert t (events ks))))
  = total (filter P (map_to_list t)) + Z.of_nat (length (filter (fun k => P (k, 1)) ks)).
Proof.
  revert t. induction ks as [|k ks IH]; intros t; [simpl; lia |].
  cbn [events map foldl]. fold (events ks). rewrite IH, rows_upsert, filter_cons.
  destruct (decide (P (k, 1))); simpl length; lia.
Qed.

End Rows.

Lemma rows_perm (P : key * Z -> Prop) `{!forall r, Decision (P r)} (t t' : table) :
  (forall k n, P (k, n) -> (t !! k = Some n <-> t' !! k = Some n)) ->
  filter P (map_to_list t) ≡ₚ filter P (map_to_list t').
Proof.
  intros Hsame. apply NoDup_Permutation.
  - apply NoDup_filter, NoDup_map_to_list.
  - apply NoDup_filter, NoDup_map_to_list.
  - intros [k n]. rewrite !list_elem_of_filter, !elem_of_map_to_list.
    split; intros [HP Hl]; (split; [done |]); by apply (Hsame k n HP).
Qed.

(** The GROUP BY does not depend on the order in which the rows come. *)
Lemma group_by_hour_perm (l l' : list (key * Z)) :
  l ≡ₚ l' -> group_by_hour l = group_by_hour l'.
Proof.
  intros Hp. apply map_eq. intros h. rewrite !group_by_hour_lookup.
  pose proof (filter_Permutation (fun r : key * Z => strftime_hour r.1.2 = h) _ _ Hp) as Hf.
  destruct (filter _ l) as [|r1 l1], (filter _ l') as [|r2 l2].
  - done.
  - by apply Permutation_nil_cons in Hf.
  - symmetry in Hf. by apply Permutation_nil_cons in Hf.
  - f_equal. by apply total_perm.
Qed.

(** X13.  The answer for a customer depends on nothing but that
    customer's rows within the bounds: two tables that hold the same
    counts for the customer's minutes whose text is at or after that of
    the start and before that of the end get the same answer, whatever
    else they hold for other customers or other minutes. *)
Theorem answer_depends_on_rows_in_bounds
    (parse : string -> result datetime) (local_utcoffset : datetime -> Z)
    (w w' : world) (customer start end_ : string) (start_dt end_dt : datetime) :
  rfc_to_utc_dt parse local_utcoffset start = Ok start_dt ->
  rfc_to_utc_dt parse local_utcoffset end_ = Ok end_dt ->
  (forall m, String.leb (isoformat start_dt) (isoformat m) = true ->
             String.ltb (isoformat m) (isoformat end_dt) = true ->
             durable w !! (customer, m) = durable w' !! (customer, m)) ->
  (hourly_event_count parse local_utcoffset (Some customer) (Some start) (Some end_) w).1
  = (hourly_event_count parse local_utcoffset (Some customer) (Some start) (Some end_) w').1.
Proof.
  intros Hs He Hsame.
  unfold hourly_event_count, rfc_to_utc_dt_arg. rewrite Hs, He. cbn [fst snd].
  unfold select_hourly. f_equal. f_equal. apply group_by_hour_perm, rows_perm.
  intros [c m] n Hin. apply Is_true_true, in_range_true in Hin as (-> & Hle & Hlt).
  by rewrite (Hsame m Hle Hlt).
Qed.

Lemma answer_depends_on_rows_in_bounds_witness :
  (hourly_event_count parse_hour utc_machine (Some "c1")
     (Some "2021-03-01 14:30:00.000000+0000") (Some "2021-03-01 15:30:00.000000+0000")
     (mkworld example_table [] [] [])).1
  = (hourly_event_count parse_hour utc_machine (Some "c1")
       (Some "2021-03-01 14:30:00.000000+0000") (Some "2021-03-01 15:30:00.000000+0000")
       (mkworld (<[("c2", mkdt 2021 3 1 14 45 0 0 (Some 0)) := 7]> example_table) [] [] [])).1.
Proof.
  apply (answer_depends_on_rows_in_bounds parse_hour utc_machine
           (mkworld example_table [] [] [])
           (mkworld (<[("c2", mkdt 2021 3 1 14 45 0 0 (Some 0)) := 7]> example_table) [] [] [])
           "c1" "2021-03-01 14:30:00.000000+0000" "2021-03-01 15:30:00.000000+0000"
           (mkdt 2021 3 1 14 30 0 0 (Some 0)) (mkdt 2021 3 1 15 30 0 0 (Some 0))).
  - vm_compute. reflexivity.
  - vm_compute. reflexivity.
  - intros m _ _. cbn [durable]. by rewrite lookup_insert_ne.
Defined.

(** ** From the file to the answer *)

Lemma filter_ext_elem {A : Type} (P1 P2 : A -> Prop)
    `{!forall x, Decision (P1 x)} `{!forall x, Decision (P2 x)} (l : list A) :
  Forall (fun x => P1 x <-> P2 x) l -> filter P1 l = filter P2 l.
Proof.
  induction 1 as [|x l Hx _ IH]; [done |].
  rewrite !filter_cons, IH.
  destruct (decide (P1 x)), (decide (P2 x)); tauto.
Qed.

(** The keys the loop counts under are valid UTC minutes. *)
Lemma row_keys_valid
    (parse : string -> result datetime) (local_utcoffset : datetime -> Z)
    (rows : list row) (ks : list key) :
  Forall2 (fun r k => row_key parse local_utcoffset r = Ok k) rows ks ->
  Forall (fun k : key => valid_utc k.2) ks.
Proof.
  induction 1 as [|r k rows ks Hk _ IH]; [done |].
  apply Forall_cons_2; [| done].
  apply row_key_Ok in Hk as (utc_dt & Hdt & ->). cbn [snd].
  apply replace_valid. by apply rfc_to_utc_dt_valid in Hdt.
Qed.

(** X14.  From the file to the answer.  After [process_csv] has read rows
    that all normalise into an empty table, without a storage failure, the
    roll-up for a customer maps the text of an hour to the number of that
    customer's events whose minute, the UTC instant of the event rounded
    down to the minute, lies in that hour and within the bounds.  It is
    the minute that is compared with the bounds, not the instant of the
    event.  An hour without such an event has no entry, and there are no
    other entries. *)
Theorem ingest_then_query
    (parse : string -> result datetime) (local_utcoffset : datetime -> Z)
    (rows : list row) (ks : list key) (w : world)
    (customer start end_ : string) (start_dt end_dt : datetime) :
  Forall2 (fun r k => row_key parse local_utcoffset r = Ok k) rows ks ->
  durable w = ∅ -> faults w = [] ->
  rfc_to_utc_dt parse local_utcoffset start = Ok start_dt ->
  rfc_to_utc_dt parse local_utcoffset end_ = Ok end_dt ->
  Forall (fun k : key => parse (strftime_hour k.2) = Ok (hour_start k.2)) ks ->
  exists res,
    (hourly_event_count parse local_utcoffset (Some customer) (Some start) (Some end_)
       (process_csv parse local_utcoffset rows w).2).1 = Ok res
    /\ (forall h,
          res !! (h +:+ hour_suffix)
          = match events_in_hour customer start_dt end_dt h ks with
            | O => None
            | n => Some (Z.of_nat n)
            end)
    /\ (forall k, (forall h, k <> h +:+ hour_suffix) -> res !! k = None).
Proof.
  intros Hkeys Hempty Hf Hs He Hparse.
  destruct (ingest_events parse local_utcoffset 1000 rows ks w Hkeys Hf)
    as (w' & Hrun & _ & Hdur).
  unfold process_csv. rewrite Hrun. cbn [snd]. rewrite Hempty in Hdur.
  pose proof (rfc_to_utc_dt_valid _ _ _ _ Hs) as Hvs.
  pose proof (rfc_to_utc_dt_valid _ _ _ _ He) as Hve.
  pose proof (row_keys_valid _ _ _ _ Hkeys) as Hvalid.
  assert (Hrows : forall k n, durable w' !! k = Some n -> k ∈ ks /\ 1 <= n).
  { intros k n. rewrite Hdur, foldl_upsert_events, lookup_empty.
    destruct (decide (k ∈ ks)) as [Hin|_]; [| done].
    intros [= <-]. split; [done |]. simpl. unfold occurrences.
    assert (Hlen : (0 < length (filter (fun k' => k' = k) ks))%nat); [| lia].
    assert (Hin' : k ∈ filter (fun k' => k' = k) ks) by by apply list_elem_of_filter.
    destruct (filter (fun k' => k' = k) ks); [by apply elem_of_nil in Hin' | simpl; lia]. }
  destruct (hourly_event_count_spec parse local_utcoffset w' customer start end_
              start_dt end_dt Hs He) as (res & Hres & Hhour & Hother).
  { apply Forall_forall. intros [k n] Hin. apply elem_of_map_to_list in Hin.
    destruct (Hrows k n Hin) as [Hk _]. rewrite Forall_forall in Hparse. by apply Hparse. }
  exists res. rewrite Hres. split; [done |]. split; [| done].
  intros h. rewrite Hhour. clear Hhour Hother Hres.
  set (L := filter (fun r : key * Z => strftime_hour r.1.2 = h)
              (filter (fun r => in_range (isoformat start_dt) (isoformat end_dt) (Some customer) r)
                      (map_to_list (durable w')))).
  assert (Hpos : Forall (fun r : key * Z => 1 <= r.2) L).
  { apply Forall_forall. intros [k n] Hin.
    apply list_elem_of_filter in Hin as [_ Hin]. apply list_elem_of_filter in Hin as [_ Hin].
    apply elem_of_map_to_list in Hin. by destruct (Hrows k n Hin). }
  assert (Hcount : total L = Z.of_nat (events_in_hour customer start_dt end_dt h ks)).
  { unfold L, events_in_hour. rewrite list_filter_filter, Hdur, rows_events.
    - rewrite map_to_list_empty, filter_nil. change (total []) with 0.
      rewrite (filter_ext_elem _
                 (fun k : key => k.1 = customer
                                 /\ wall_us start_dt <= wall_us k.2 < wall_us end_dt
                                 /\ strftime_hour k.2 = h)); [done |].
      eapply Forall_impl; [exact Hvalid |]. intros [c m] Hm. cbn [fst snd] in *.
      rewrite Is_true_true, (in_range_time customer c start_dt end_dt m 1 Hvs Hve Hm). tauto.
    - by intros [c m] n n'. }
  destruct L as [|r L'].
  - change (total []) with 0 in Hcount.
    by destruct (events_in_hour customer start_dt end_dt h ks).
  - pose proof (total_positive _ Hpos ltac:(done)) as Hone. rewrite Hcount in *.
    destruct (events_in_hour customer start_dt end_dt h ks); [lia | done].
Qed.

Lemma ingest_then_query_witness :
  exists res,
    (hourly_event_count parse_hour utc_machine (Some "c1")
       (Some "2021-03-01 14:30:00.0+0000") (Some "2021-03-01 15:30:00.0+0000")
       (process_csv parse_hour utc_machine
          [mkrow "c1" "e" "t1" "2021-03-01 14:15:30.5+0000";
           mkrow "c1" "e" "t2" "2021-03-01 14:45:10.0+0000";
           mkrow "c1" "e" "t3" "2021-03-01 14:45:50.0+00";
           mkrow "c2" "e" "t4" "2021-03-01 14:50:00.0+0000";
           mkrow "c1" "e" "t5" "2021-03-01 16:29:59.9+01";
           mkrow "c1" "e" "t6" "2021-03-01 15:30:20.0+0000"]
          empty_world).2).1 = Ok res
    /\ res !! "2021-03-01 14:00:00+00:00" = Some 2
    /\ res !! "2021-03-01 15:00:00+00:00" = Some 1
    /\ res !! "2021-03-01 16:00:00+00:00" = None.
Proof.
  destruct (ingest_then_query parse_hour utc_machine
              [mkrow "c1" "e" "t1" "2021-03-01 14:15:30.5+0000";
               mkrow "c1" "e" "t2" "2021-03-01 14:45:10.0+0000";
               mkrow "c1" "e" "t3" "2021-03-01 14:45:50.0+00";
               mkrow "c2" "e" "t4" "2021-03-01 14:50:00.0+0000";
               mkrow "c1" "e" "t5" "2021-03-01 16:29:59.9+01";
               mkrow "c1" "e" "t6" "2021-03-01 15:30:20.0+0000"]
              [("c1", mkdt 2021 3 1 14 15 0 0 (Some 0));
               ("c1", mkdt 2021 3 1 14 45 0 0 (Some 0));
               ("c1", mkdt 2021 3 1 14 45 0 0 (Some 0));
               ("c2", mkdt 2021 3 1 14 50 0 0 (Some 0));
               ("c1", mkdt 2021 3 1 15 29 0 0 (Some 0));
               ("c1", mkdt 2021 3 1 15 30 0 0 (Some 0))]
              empty_world "c1" "2021-03-01 14:30:00.0+0000" "2021-03-01 15:30:00.0+0000"
              (mkdt 2021 3 1 14 30 0 0 (Some 0)) (mkdt 2021 3 1 15 30 0 0 (Some 0)))
    as (res & Hres & Hhour & _).
  - repeat (apply Forall2_cons_2; [vm_compute; reflexivity |]). apply Forall2_nil_2.
  - reflexivity.
  - reflexivity.
  - vm_compute. reflexivity.
  - vm_compute. reflexivity.
  - repeat (apply Forall_cons_2; [vm_compute; reflexivity |]). apply Forall_nil_2.
  - exists res. split; [exact Hres |].
    pose proof (Hhour "2021-03-01 14") as H14.
    pose proof (Hhour "2021-03-01 15") as H15.
    pose proof (Hhour "2021-03-01 16") as H16.
    replace ("2021-03-01 14" +:+ hour_suffix) with "2021-03-01 14:00:00+00:00" in H14
      by reflexivity.
    replace ("2021-03-01 15" +:+ hour_suffix) with "2021-03-01 15:00:00+00:00" in H15
      by reflexivity.
    replace ("2021-03-01 16" +:+ hour_suffix) with "2021-03-01 16:00:00+00:00" in H16
      by reflexivity.
    rewrite H14, H15, H16. split; [| split]; vm_compute; reflexivity.
Defined.

(** ** Errors before the SELECT *)

(** X15.  A bound without any [+], such as one with an offset west of
    UTC or with none, stops the query before the database is touched:
    [hourly_event_count] raises ValueError, no SELECT is executed and the
    world is as it was.  The start bound is normalised first; the end
    bound is looked at only when the start bound was accepted.  The route
    passes the exception on, which Flask answers with status 500. *)
Theorem bound_without_plus_stops_query
    (parse : string -> result datetime) (local_utcoffset : datetime -> Z)
    (customer : option string) (start end_ : string) (w : world) :
  (forall i, String.get i start <> Some "+"%char)
  \/ ((exists start_dt, rfc_to_utc_dt parse local_utcoffset start = Ok start_dt)
      /\ forall i, String.get i end_ <> Some "+"%char) ->
  hourly_event_count parse local_utcoffset customer (Some start) (Some end_) w
  = (Raise ValueError, w)
  /\ forall args,
       args_get args "start" = Some start -> args_get args "end" = Some end_ ->
       hourly_event_count_route parse local_utcoffset args w = (Raise ValueError, w).
Proof.
  intros Hbad.
  assert (Hcall : forall customer',
            hourly_event_count parse local_utcoffset customer' (Some start) (Some end_) w
            = (Raise ValueError, w)).
  { intros customer'. unfold hourly_event_count, rfc_to_utc_dt_arg.
    destruct Hbad as [Hstart|[[start_dt Hstart] Hend]].
    - by rewrite (rfc_to_utc_dt_no_plus parse local_utcoffset start Hstart).
    - by rewrite Hstart, (rfc_to_utc_dt_no_plus parse local_utcoffset end_ Hend). }
  split; [apply Hcall |].
  intros args Hs He. unfold hourly_event_count_route. rewrite Hs, He. apply Hcall.
Qed.

Lemma bound_without_plus_stops_query_witness :
  hourly_event_count parse_hour utc_machine (Some "c1")
    (Some "2021-03-01 14:30:00.0+0000") (Some "2021-03-01 10:30:00.0-0500")
    (mkworld example_table [] [] [])
  = (Raise ValueError, mkworld example_table [] [] []).
Proof.
  destruct (bound_without_plus_stops_query parse_hour utc_machine (Some "c1")
              "2021-03-01 14:30:00.0+0000" "2021-03-01 10:30:00.0-0500"
              (mkworld example_table [] [] [])) as [Hcall _]; [| exact Hcall].
  right. split.
  - exists (mkdt 2021 3 1 14 30 0 0 (Some 0)). vm_compute. reflexivity.
  - apply str_index_None. vm_compute. reflexivity.
Defined.

(** ** The command line *)

(** X16.  Without [--server], the command line reads the file first and
    looks at the query arguments afterwards.  When one of customer id,
    start and end is missing or is the empty string, it stops with its
    message and no SELECT is executed; the file has been ingested all the
    same, and a failure of the ingestion takes precedence over the
    message. *)
Theorem main_checks_arguments
    (parse : string -> result datetime) (local_utcoffset : datetime -> Z)
    (rows : list row) (customer start end_ : option string) (w : world) :
  py_not customer || py_not start || py_not end_ = true ->
  (main parse local_utcoffset rows false customer start end_ w).1
  = match (process_csv parse local_utcoffset rows w).1 with
    | Ok _ => MissingArgs
    | Raise e => Failed e
    end
  /\ (main parse local_utcoffset rows false customer start end_ w).2
     = (process_csv parse local_utcoffset rows w).2
  /\ queries (main parse local_utcoffset rows false customer start end_ w).2 = queries w.
Proof.
  intros Hmissing. unfold main.
  pose proof (process_csv_queries parse local_utcoffset rows w) as Hq.
  destruct (process_csv parse local_utcoffset rows w) as [[[]|e] w1]; cbn [fst snd] in *.
  - by rewrite Hmissing.
  - done.
Qed.

Lemma main_checks_arguments_witness :
  (main parse_hour utc_machine
     [mkrow "c1" "e" "t1" "2021-03-01 14:15:30.5+0000"] false
     (Some "") (Some "2021-03-01 14:30:00.0+0000") (Some "2021-03-01 15:30:00.0+0000")
     empty_world).1 = MissingArgs.
Proof.
  destruct (main_checks_arguments parse_hour utc_machine
              [mkrow "c1" "e" "t1" "2021-03-01 14:15:30.5+0000"]
              (Some "") (Some "2021-03-01 14:30:00.0+0000") (Some "2021-03-01 15:30:00.0+0000")
              empty_world) as (Hout & _ & _); [reflexivity |].
  rewrite Hout.
  assert ((process_csv parse_hour utc_machine
             [mkrow "c1" "e" "t1" "2021-03-01 14:15:30.5+0000"] empty_world).1 = Ok tt)
    as -> by (vm_compute; reflexivity).
  reflexivity.
Defined.
